(** * Event-driven backtest engine: fill simulation, margin model, scheduler

    A shallow embedding of the JavaScript sources

    - [execution/margin_model.js]      (module [Margin])
    - [execution/fill_model.js]        (module [Fill])
    - [engine/index.js]                (module [Rng] and the definitions after it)
    - [strategies/ema_cross.js]        (module [Ema])
    - [data/utils/aggregate_candles.js] (module [Candles])
    - [buildDrawdownCurve] of the report (module [Report])

    JavaScript numbers are modelled as exact rationals ([Q]); the values
    [undefined], [null] and [NaN] that the code lets flow into arithmetic
    are kept as separate constructors of [jsval].  Binary rounding, overflow
    to an infinity and the sign of zero are outside the model: a sum or a
    product is the exact one, which the code's result approximates to the
    last binary place.  Timestamps, dates and seeds are integer-valued
    Numbers ([Z]).  A string is the UTF-8 encoding of the JavaScript string
    it stands for; the error messages are those of the code.  A read from
    an object literal used as a table finds the members inherited from
    [Object.prototype] too ([getProperty]).

    The file has three parts: the embedding of the sources, the vocabulary
    of the statements with the inputs of the worked examples, and the
    properties with their proofs. *)

From Stdlib Require Import ZArith QArith Qround Qabs Qminmax Bool List String Ascii Lia Lqa.
From Stdlib Require Import Sorting.Sorted Permutation.
From Stdlib Require Import DecimalString.
Import ListNotations.

Local Open Scope Q_scope.

(* ================================================================== *)
(** ** JavaScript values that reach arithmetic *)
(* ================================================================== *)

Module Js.

Inductive jsval : Type :=
| Undefined
| Null
| NaN
| Num (q : Q).

(** [Number(v)]: [None] stands for NaN. *)
Definition toNumber (v : jsval) : option Q :=
  match v with
  | Undefined => None
  | Null => Some 0
  | NaN => None
  | Num q => Some q
  end.

(** [Number.isFinite(v)] does not coerce. *)
Definition isFinite (v : jsval) : bool :=
  match v with Num _ => true | _ => false end.

(** [a ?? b] *)
Definition nullish (a b : jsval) : jsval :=
  match a with
  | Undefined | Null => b
  | _ => a
  end.

(** [Number(v) || 0] *)
Definition number_or_0 (v : jsval) : Q :=
  match toNumber v with Some q => q | None => 0 end.

(** truthiness of a number-like value: [if (v)] *)
Definition truthy (v : jsval) : bool :=
  match v with
  | Num q => negb (Qeq_bool q 0)
  | _ => false
  end.

Definition lift1 (f : Q -> Q) (a : jsval) : jsval :=
  match toNumber a with Some x => Num (f x) | None => NaN end.

Definition lift2 (f : Q -> Q -> Q) (a b : jsval) : jsval :=
  match toNumber a, toNumber b with
  | Some x, Some y => Num (f x y)
  | _, _ => NaN
  end.

Definition add := lift2 Qplus.
Definition sub := lift2 Qminus.
Definition mul := lift2 Qmult.
Definition neg := lift1 Qopp.
Definition abs := lift1 Qabs.

(** [a / b]; a zero divisor (an infinity in JavaScript) is not
    representable and yields [NaN] here.  Every division of the modelled
    sources is guarded by a test that its divisor is not zero. *)
Definition div (a b : jsval) : jsval :=
  match toNumber a, toNumber b with
  | Some x, Some y => if Qeq_bool y 0 then NaN else Num (x / y)
  | _, _ => NaN
  end.

(** -1, 0 or 1 with the sign of [q] *)
Definition Qsgn (q : Q) : Q := inject_Z (Z.sgn (Qnum q)).

(** [Math.sign] *)
Definition sign := lift1 Qsgn.

(** [a === b] on number-like values *)
Definition strict_eq (a b : jsval) : bool :=
  match a, b with
  | Undefined, Undefined => true
  | Null, Null => true
  | Num x, Num y => Qeq_bool x y
  | _, _ => false
  end.

Definition cmp (test : Q -> Q -> bool) (a b : jsval) : bool :=
  match toNumber a, toNumber b with
  | Some x, Some y => test x y
  | _, _ => false
  end.

Definition Qlt_bool (x y : Q) : bool := negb (Qle_bool y x).

(** [a < b] and [a > b]: false when either side is not a number *)
Definition lt := cmp Qlt_bool.
Definition gt (a b : jsval) := lt b a.

(** [Math.round(x)]: the integer nearest to [x], ties towards +infinity. *)
Definition Math_round (x : Q) : Z := Qfloor (x + (1 # 2)).

(** [Math.floor] *)
Definition Math_floor (x : Q) : Z := Qfloor x.

(** [Number.EPSILON] = 2^-52 *)
Definition EPSILON : Q := 1 # 4503599627370496.

(** [Math.min] and [Math.max] of two numbers *)
Definition Qmin_js (x y : Q) : Q := if Qle_bool x y then x else y.
Definition Qmax_js (x y : Q) : Q := if Qle_bool x y then y else x.

End Js.

Import Js.

(** [a ?? b] for optional strings *)
Definition nullish_s (a b : option string) : option string :=
  match a with Some _ => a | None => b end.

Definition opt_default {A} (a : option A) (d : A) : A :=
  match a with Some x => x | None => d end.

(* ================================================================== *)
(** ** execution/margin_model.js *)
(* ================================================================== *)

Record Position : Type := mkPosition {
  qty : jsval;
  avgPrice : jsval;
}.

Module Margin.

Definition calculateUnrealizedPnl (position : Position) (markPrice : jsval) : Q :=
  let qty := number_or_0 (qty position) in
  let avgPrice := number_or_0 (avgPrice position) in
  let safeMark := if isFinite markPrice then number_or_0 markPrice else avgPrice in
  qty * (safeMark - avgPrice).

Record Snapshot : Type := mkSnapshot {
  markPrice : Q;
  positionNotional : Q;
  initialMargin : Q;
  maintenanceMargin : Q;
  unrealizedPnl : Q;
}.

Definition calculateMarginSnapshot
    (position : Position) (markPrice : jsval)
    (initialMarginRate maintenanceMarginRate : Q) : Snapshot :=
  let qty := number_or_0 (qty position) in
  let absQty := Qabs qty in
  let avgPrice := number_or_0 (avgPrice position) in
  let safeMark := if isFinite markPrice then number_or_0 markPrice else avgPrice in
  let positionNotional := absQty * Qabs safeMark in
  let initialMargin := positionNotional * Qmax_js 0 initialMarginRate in
  let maintenanceMargin := positionNotional * Qmax_js 0 maintenanceMarginRate in
  let unrealizedPnl := calculateUnrealizedPnl position (Num safeMark) in
  {| markPrice := safeMark;
     positionNotional := positionNotional;
     initialMargin := initialMargin;
     maintenanceMargin := maintenanceMargin;
     unrealizedPnl := unrealizedPnl |}.

End Margin.

(* ================================================================== *)
(** ** Shared helpers: stable sort, decimal strings *)
(* ================================================================== *)

Section StableSort.
Context {A : Type}.
(** [before a b] is [compareFn(a, b) < 0]. *)
Variable before : A -> A -> bool.

Fixpoint insert_sorted (x : A) (l : list A) : list A :=
  match l with
  | [] => [x]
  | y :: l' => if before y x then y :: insert_sorted x l' else x :: y :: l'
  end.

(** [Array.prototype.sort(compareFn)]: a stable sort.  An element stays
    ahead of every later element that does not compare strictly before
    it.  Where [compareFn] is not a consistent comparator for the elements
    (a NaN among its results, which [sort] takes for +0) the language
    leaves the order to the implementation; the order stated here is then
    one of those allowed, and the statements about sorted output are made
    for consistent comparators. *)
Fixpoint js_sort (l : list A) : list A :=
  match l with
  | [] => []
  | x :: l' => insert_sorted x (js_sort l')
  end.
End StableSort.

(** The decimal digits of an integer *)
Definition decimal (z : Z) : string := NilZero.string_of_int (Z.to_int z).

(** [d4 / 4] lies within the half gap [gap4 / 4] to the next Number; the
    midpoint itself reads back as [n] when the significand of [n] is
    even. *)
Definition within (d4 gap4 : Z) (even : bool) : bool :=
  (d4 <? gap4)%Z || ((d4 =? gap4)%Z && even).

(** The multiple of the greatest power of ten that reads back as [v]:
    [p] runs down the powers of ten from the leading digit of [v]; of the
    two multiples of [p] around [v] that read back as [v], the nearer one
    is taken, the even one on a tie. *)
Fixpoint shortest (fuel : nat) (v gapLo4 gapHi4 : Z) (even : bool) (p : Z) : Z :=
  match fuel with
  | O => v
  | Datatypes.S fuel' =>
      let lo := (v / p * p)%Z in
      let hi := (lo + p)%Z in
      let okLo := within (4 * (v - lo)) gapLo4 even in
      let okHi := within (4 * (hi - v)) gapHi4 even in
      if okLo && okHi then
        if (v - lo <? hi - v)%Z then lo
        else if (hi - v <? v - lo)%Z then hi
        else if Z.even (lo / p) then lo else hi
      else if okLo then lo
      else if okHi then hi
      else shortest fuel' v gapLo4 gapHi4 even (p / 10)%Z
  end.

(** The integer whose digits [String(v)] shows for a Number [v > 0]: [v]
    itself below 2^53; from there on Numbers are [2^e] apart, [e] being
    [log2 v - 52], and the numeral with the fewest significant digits
    among those nearer to [v] than to its neighbours is shown. *)
Definition shown (v : Z) : Z :=
  if (Z.log2 v <? 53)%Z then v
  else
    let e := (Z.log2 v - 52)%Z in
    let m := Z.shiftr v e in
    let digits := String.length (decimal v) in
    shortest digits v
      (if (m =? 2 ^ 52)%Z then 2 ^ e else 2 ^ (e + 1))%Z (2 ^ (e + 1))%Z (Z.even m)
      (10 ^ (Z.of_nat digits - 1))%Z.

Fixpoint strip_zeros (fuel : nat) (c : Z) : Z :=
  match fuel with
  | O => c
  | Datatypes.S fuel' => if (c mod 10 =? 0)%Z then strip_zeros fuel' (c / 10)%Z else c
  end.

(** [String(n)] for an integer-valued Number [n] (Number::toString): the
    shortest numeral that reads back as [n], written out with its zeros up
    to 21 digits and in exponent notation beyond.  Below 2^53 these are the
    decimal digits of [n]; above, only the integers that are Numbers have an
    image. *)
Definition string_of_Z (z : Z) : string :=
  let numeral (v : Z) : string :=
    let c := shown v in
    let n := String.length (decimal c) in
    if (n <=? 21)%nat then decimal c
    else
      match decimal (strip_zeros n c) with
      | String d EmptyString => String d ("e+" ++ decimal (Z.of_nat n - 1))
      | String d rest => String d ("." ++ rest ++ "e+" ++ decimal (Z.of_nat n - 1))
      | EmptyString => EmptyString
      end in
  if (z <? 0)%Z then ("-" ++ numeral (- z)%Z)%string
  else if (z =? 0)%Z then "0"%string
  else numeral z.

(* ================================================================== *)
(** ** Property reads on object literals *)
(* ================================================================== *)

(** The priority table of the engine and the timeframe table of the candle
    aggregation are object literals.  A read [table[key]] finds an own
    property of the literal or else, for these twelve keys, a member that
    every object literal inherits from [Object.prototype]. *)
Definition Object_prototype : list string :=
  [ "constructor"; "hasOwnProperty"; "isPrototypeOf"; "propertyIsEnumerable";
    "toLocaleString"; "toString"; "valueOf"; "__proto__";
    "__defineGetter__"; "__defineSetter__"; "__lookupGetter__";
    "__lookupSetter__" ]%string.

(** What a read from a table of integers yields: a number, or an inherited
    member.  A member is a function (the prototype object for [__proto__]):
    it is neither nullish nor falsy, it is NaN in arithmetic, and two reads
    yield the same member exactly for the same key. *)
Inductive Property : Type :=
| Numeric (n : Z)
| Inherited (name : string).

Bind Scope Z_scope with Property.
Coercion Numeric : Z >-> Property.

(** [table[key]], [None] standing for [undefined] *)
Definition getProperty (table : string -> option Z) (key : string) : option Property :=
  match table key with
  | Some n => Some (Numeric n)
  | None =>
      if existsb (String.eqb key) Object_prototype then Some (Inherited key) else None
  end.

(** [a !== b] negated *)
Definition Property_eqb (a b : Property) : bool :=
  match a, b with
  | Numeric x, Numeric y => (x =? y)%Z
  | Inherited s, Inherited t => String.eqb s t
  | _, _ => false
  end.

(** [a - b]; [None] stands for NaN *)
Definition Property_sub (a b : Property) : option Z :=
  match a, b with
  | Numeric x, Numeric y => Some (x - y)%Z
  | _, _ => None
  end.

(* ================================================================== *)
(** ** execution/fill_model.js *)
(* ================================================================== *)

(** The options of the fill model, the parameters of an order and the
    fields of book levels and market snapshots are numbers, or absent:
    [Q] and [option Q].  A side or a mode is the string the caller passed. *)

Module Fill.

(** [roundToStep(value, step)].  The product [scaled * step] is the exact
    one, a point of the grid of [step]; the binary product of the code may
    miss it in the last place (2001 * 0.05 is 100.05000000000001). *)
Definition roundToStep (value : Q) (step : option Q) : Q :=
  match step with
  | Some s =>
      if Qle_bool s 0 then value
      else
        let scaled := Math_round (value / s + EPSILON) in
        inject_Z scaled * s
  | None => value
  end.

Definition roundToTick (price : Q) (tickSize : option Q) : Q := roundToStep price tickSize.
Definition roundToLot (qty : Q) (stepSize : option Q) : Q := roundToStep qty stepSize.

Record Level : Type := mkLevel { l_price : Q; l_qty : Q }.

Definition normalizeBookSide (levels : option (list Level)) : list Level :=
  match levels with
  | None => []
  | Some ls =>
      js_sort (fun a b => Qlt_bool (l_price a - l_price b) 0)
              (filter (fun level => Qlt_bool 0 (l_qty level)) ls)
  end.

Record SlippageModel : Type := mkSlippage {
  sm_type : option string;
  sm_fixed : option Q;
  sm_pct : option Q;
  sm_base : option Q;
  sm_k : option Q;
}.

Definition slippageImpact (model : option SlippageModel) (side : string)
    (spread qty avgVolume : Q) : Q :=
  let direction : Q := if String.eqb side "buy" then 1 else -1 in
  match model with
  | None => 0
  | Some model =>
      match sm_type model with
      | None => 0
      | Some ty =>
          if String.eqb ty EmptyString then 0
          else if String.eqb ty "simple_fixed" then
            direction * opt_default (sm_fixed model) 0
          else if String.eqb ty "pct_of_spread" then
            direction * spread * opt_default (sm_pct model) 0
          else if String.eqb ty "liquidity_based" then
            let base := opt_default (sm_base model) 0 in
            let k := opt_default (sm_k model) 0 in
            let denom := if Qlt_bool 0 avgVolume then avgVolume else 1 in
            direction * (base + k * (Qabs qty / denom))
          else 0
      end
  end.

(** *** PositionLedger *)

Record PositionLedger : Type := mkLedger {
  pl_qty : Q;
  pl_avgPrice : Q;
  pl_realizedPnl : Q;
}.

Definition newLedger : PositionLedger :=
  {| pl_qty := 0; pl_avgPrice := 0; pl_realizedPnl := 0 |}.

Definition signedQtyOf (side : string) (qty : Q) : Q :=
  if String.eqb side "buy" then Qabs qty else - Qabs qty.

(** [applyFill({ side, qty, price, fee })] returns the updated ledger and
    the realized delta. *)
Definition applyFill (L : PositionLedger) (side : string) (qty price fee : Q)
  : PositionLedger * Q :=
  let signedQty := signedQtyOf side qty in
  let prevQty := pl_qty L in
  let prevAvg := pl_avgPrice L in
  let realizedDelta := - fee in
  if Qeq_bool prevQty 0 || Qeq_bool (Qsgn prevQty) (Qsgn signedQty) then
    let newQty := prevQty + signedQty in
    let weighted := (Qabs prevQty * prevAvg) + (Qabs signedQty * price) in
    ({| pl_qty := newQty;
        pl_avgPrice := if Qeq_bool newQty 0 then 0 else weighted / Qabs newQty;
        pl_realizedPnl := pl_realizedPnl L + realizedDelta |},
     realizedDelta)
  else
    let closingQty := Qmin_js (Qabs prevQty) (Qabs signedQty) in
    let realizedDelta :=
      if Qlt_bool 0 prevQty
      then realizedDelta + (price - prevAvg) * closingQty
      else realizedDelta + (prevAvg - price) * closingQty in
    let remaining := prevQty + signedQty in
    ({| pl_qty := remaining;
        pl_avgPrice :=
          if Qeq_bool remaining 0 then 0
          else if Qeq_bool (Qsgn remaining) (Qsgn prevQty) then prevAvg
          else price;
        pl_realizedPnl := pl_realizedPnl L + realizedDelta |},
     realizedDelta).

(** *** FillModel *)

Record Constraints : Type := mkConstraints {
  tickSize : option Q;
  stepSize : option Q;
  minNotional : option Q;
  minQty : option Q;
  maxQty : option Q;
}.

Record Fees : Type := mkFees { maker : Q; taker : Q }.

Record Fill : Type := mkFill {
  f_orderId : string;
  f_timestamp : Z;
  f_side : string;
  f_qty : Q;
  f_price : Q;
  f_executedNotional : Q;
  f_fee : Q;
  f_feeRate : Q;
  f_liquidity : string;
  f_realizedPnlDelta : Q;
}.

Record Order : Type := mkOrder {
  o_orderId : string;
  o_side : string;
  o_qty : Q;
  o_remainingQty : Q;
  o_price : Q;
  o_mode : string;
  o_status : string;
  o_createdAt : Z;
  o_activeAt : Z;
  o_expiresAt : option Z;
  o_cancelRequestedAt : option Z;
  o_cancelEffectiveAt : option Z;
  o_fills : list Fill;
}.

(** The constructor's [options] object. *)
Record Options : Type := mkOptions {
  opt_tickSize : option Q;
  opt_stepSize : option Q;
  opt_minNotional : option Q;
  opt_minQty : option Q;
  opt_maxQty : option Q;
  opt_makerFeeRate : option Q;
  opt_takerFeeRate : option Q;
  opt_slippageModel : option SlippageModel;
  opt_cancelLatencyMs : option Z;
  opt_orderLatencyMs : option Z;
}.

Definition noOptions : Options :=
  mkOptions None None None None None None None None None None.

(** The instance fields of [FillModel].  [orders] is the [Map] in
    insertion order. *)
Record FillModel : Type := mkFillModel {
  constraints : Constraints;
  fees : Fees;
  defaultSlippageModel : SlippageModel;
  defaultCancelLatencyMs : Z;
  orderLatencyMs : Z;
  orders : list (string * Order);
  _id : Z;
  ledger : PositionLedger;
}.

Definition new_FillModel (options : Options) : FillModel :=
  {| constraints :=
       {| tickSize := opt_tickSize options;
          stepSize := opt_stepSize options;
          minNotional := opt_minNotional options;
          minQty := opt_minQty options;
          maxQty := opt_maxQty options |};
     fees := {| maker := opt_default (opt_makerFeeRate options) 0;
                taker := opt_default (opt_takerFeeRate options) 0 |};
     defaultSlippageModel :=
       opt_default (opt_slippageModel options)
         (mkSlippage (Some "simple_fixed"%string) (Some 0) None None None);
     defaultCancelLatencyMs := opt_default (opt_cancelLatencyMs options) 0%Z;
     orderLatencyMs := opt_default (opt_orderLatencyMs options) 0%Z;
     orders := [];
     _id := 1;
     ledger := newLedger |}.

Definition set_ledger (M : FillModel) (L : PositionLedger) : FillModel :=
  {| constraints := constraints M; fees := fees M;
     defaultSlippageModel := defaultSlippageModel M;
     defaultCancelLatencyMs := defaultCancelLatencyMs M;
     orderLatencyMs := orderLatencyMs M;
     orders := orders M; _id := _id M; ledger := L |}.

Definition set_orders (M : FillModel) (os : list (string * Order)) : FillModel :=
  {| constraints := constraints M; fees := fees M;
     defaultSlippageModel := defaultSlippageModel M;
     defaultCancelLatencyMs := defaultCancelLatencyMs M;
     orderLatencyMs := orderLatencyMs M;
     orders := os; _id := _id M; ledger := ledger M |}.

Definition set_id (M : FillModel) (n : Z) : FillModel :=
  {| constraints := constraints M; fees := fees M;
     defaultSlippageModel := defaultSlippageModel M;
     defaultCancelLatencyMs := defaultCancelLatencyMs M;
     orderLatencyMs := orderLatencyMs M;
     orders := orders M; _id := n; ledger := ledger M |}.

(** [{ status: 'rejected', reason, ...details }] *)
Record Reject : Type := mkReject {
  r_reason : string;
  r_qty : option Q;
  r_notional : option Q;
  r_orderId : option string;
}.

Definition _buildReject (reason : string) (qty notional : option Q)
    (orderId : option string) : Reject :=
  mkReject reason qty notional orderId.

Inductive Validation : Type :=
| Invalid (r : Reject)
| ValidOk (roundedQty : Q).

Definition _validateOrder (M : FillModel) (qty : Q) (priceHint : option Q) : Validation :=
  let c := constraints M in
  let roundedQty := roundToLot qty (stepSize c) in
  if Qle_bool roundedQty 0 then Invalid (_buildReject "invalid_qty" None None None)
  else if match minQty c with Some m => Qlt_bool roundedQty m | None => false end
  then Invalid (_buildReject "min_qty_violation" (Some roundedQty) None None)
  else if match maxQty c with Some m => Qlt_bool m roundedQty | None => false end
  then Invalid (_buildReject "max_qty_violation" (Some roundedQty) None None)
  else
    match priceHint, minNotional c with
    | Some hint, Some mn =>
        let notional := roundedQty * hint in
        if Qlt_bool notional mn
        then Invalid (_buildReject "min_notional_violation"
                        (Some roundedQty) (Some notional) None)
        else ValidOk roundedQty
    | _, _ => ValidOk roundedQty
    end.

Record Book : Type := mkBook {
  asks : option (list Level);
  bids : option (list Level);
}.

(** The levels [_bookFill] walks: asks ascending for a buy, bids descending
    otherwise. *)
Definition bookLevels (side : string) (book : option Book) : list Level :=
  if String.eqb side "buy"
  then normalizeBookSide (match book with Some b => asks b | None => None end)
  else js_sort (fun a b => Qlt_bool (l_price b - l_price a) 0)
         (normalizeBookSide (match book with Some b => bids b | None => None end)).

Definition priceMatch (side : string) (limitPrice : option Q) (level : Level) : bool :=
  if String.eqb side "buy"
  then match limitPrice with None => true | Some lp => Qle_bool (l_price level) lp end
  else match limitPrice with None => true | Some lp => Qle_bool lp (l_price level) end.

(** The loop of [_bookFill] over the sorted levels; the accumulator carries
    the ledger, the remaining quantity and the fills pushed so far. *)
Fixpoint bookFill_loop (c : Constraints) (fs : Fees)
    (side : string) (limitPrice : option Q) (timestamp : Z) (orderId : string)
    (forceTaker : bool) (levels : list Level)
    (L : PositionLedger) (remaining : Q) (fills : list Fill)
  : PositionLedger * list Fill * Q :=
  match levels with
  | [] => (L, fills, remaining)
  | level :: rest =>
      if negb (priceMatch side limitPrice level) || Qle_bool remaining 0 then
        bookFill_loop c fs side limitPrice timestamp orderId forceTaker rest L remaining fills
      else
        let executedQty := Qmin_js remaining (l_qty level) in
        let executedPrice := roundToTick (l_price level) (tickSize c) in
        let executedNotional := executedQty * executedPrice in
        let feeRate := if forceTaker then taker fs else maker fs in
        let fee := executedNotional * feeRate in
        let '(L', realizedPnlDelta) := applyFill L side executedQty executedPrice fee in
        let fill :=
          {| f_orderId := orderId; f_timestamp := timestamp; f_side := side;
             f_qty := executedQty; f_price := executedPrice;
             f_executedNotional := executedNotional; f_fee := fee; f_feeRate := feeRate;
             f_liquidity := if forceTaker then "taker" else "maker";
             f_realizedPnlDelta := realizedPnlDelta |} in
        bookFill_loop c fs side limitPrice timestamp orderId forceTaker rest
          L' (remaining - executedQty) (fills ++ [fill])
  end.

Definition _bookFill (M : FillModel) (side : string) (qty : Q) (book : option Book)
    (limitPrice : option Q) (timestamp : Z) (orderId : string) (forceTaker : bool)
  : FillModel * list Fill * Q :=
  let '(L, fills, remaining) :=
    bookFill_loop (constraints M) (fees M) side limitPrice timestamp orderId forceTaker
      (bookLevels side book) (ledger M) qty [] in
  (set_ledger M L, fills, remaining).

Record Market : Type := mkMarket {
  lastPrice : option Q;
  midPrice : option Q;
  m_price : option Q;
  spread : option Q;
  avgVolume : option Q;
}.

Definition opt_or {A} (a b : option A) : option A :=
  match a with Some _ => a | None => b end.

(** [market?.lastPrice ?? market?.midPrice ?? market?.price] *)
Definition referencePrice (market : option Market) : option Q :=
  match market with
  | None => None
  | Some m => opt_or (lastPrice m) (opt_or (midPrice m) (m_price m))
  end.

Definition _booklessFill (M : FillModel) (side : string) (qty : Q)
    (market : option Market) (orderId : string) (timestamp : Z)
    (model : option SlippageModel)
  : FillModel * list Fill * Q :=
  match referencePrice market with
  | None => (M, [], qty)
  | Some refPrice =>
      let spread := opt_default (match market with Some m => spread m | None => None end) 0 in
      let avgVolume :=
        opt_default (match market with Some m => avgVolume m | None => None end) qty in
      let slip :=
        slippageImpact
          (Some (match model with Some m => m | None => defaultSlippageModel M end))
          side spread qty avgVolume in
      let executedPrice := roundToTick (refPrice + slip) (tickSize (constraints M)) in
      let executedNotional := executedPrice * qty in
      let fee := executedNotional * taker (fees M) in
      let '(L', realizedPnlDelta) := applyFill (ledger M) side qty executedPrice fee in
      (set_ledger M L',
       [ {| f_orderId := orderId; f_timestamp := timestamp; f_side := side;
            f_qty := qty; f_price := executedPrice;
            f_executedNotional := executedNotional; f_fee := fee;
            f_feeRate := taker (fees M); f_liquidity := "taker";
            f_realizedPnlDelta := realizedPnlDelta |} ],
       0)
  end.

Record Execution : Type := mkExecution {
  x_status : string;
  x_orderId : string;
  x_requestedQty : Q;
  x_filledQty : Q;
  x_remainingQty : Q;
  x_fills : list Fill;
}.

Inductive MarketResult : Type :=
| Rejected (r : Reject)
| Executed (x : Execution).

(** [orderId || `prefix-${this._id++}`] *)
Definition allocId (M : FillModel) (orderId : option string) (prefix : string)
  : FillModel * string :=
  match orderId with
  | Some s => if String.eqb s EmptyString then
                (set_id M (_id M + 1)%Z, (prefix ++ string_of_Z (_id M))%string)
              else (M, s)
  | None => (set_id M (_id M + 1)%Z, (prefix ++ string_of_Z (_id M))%string)
  end.

Definition executeMarketOrder (M : FillModel) (side : string) (qty : Q) (timestamp : Z)
    (orderId : option string) (orderbook : option Book) (market : option Market)
    (slippageModel : option SlippageModel)
  : FillModel * MarketResult :=
  match _validateOrder M qty (referencePrice market) with
  | Invalid r => (M, Rejected r)
  | ValidOk roundedQty =>
      let '(M1, id) := allocId M orderId "mkt-" in
      let '(M2, bookFills, bookRemaining) :=
        _bookFill M1 side roundedQty orderbook None timestamp id true in
      let '(M3, fills, remaining) :=
        if Qlt_bool 0 bookRemaining then
          let '(M3, fallbackFills, fallbackRemaining) :=
            _booklessFill M2 side bookRemaining market id timestamp slippageModel in
          (M3, bookFills ++ fallbackFills, fallbackRemaining)
        else (M2, bookFills, bookRemaining) in
      (M3,
       Executed
         {| x_status := if Qeq_bool remaining 0 then "filled" else "partial";
            x_orderId := id;
            x_requestedQty := roundedQty;
            x_filledQty := roundedQty - remaining;
            x_remainingQty := remaining;
            x_fills := fills |})
  end.

(** [Map.prototype.set]: an existing key keeps its place. *)
Fixpoint map_set {V : Type} (m : list (string * V)) (k : string) (v : V)
  : list (string * V) :=
  match m with
  | [] => [(k, v)]
  | (k', v') :: m' =>
      if String.eqb k' k then (k, v) :: m' else (k', v') :: map_set m' k v
  end.

Fixpoint map_get {V : Type} (m : list (string * V)) (k : string) : option V :=
  match m with
  | [] => None
  | (k', v') :: m' => if String.eqb k' k then Some v' else map_get m' k
  end.

Inductive SubmitResult : Type :=
| SubmitRejected (r : Reject)
| Accepted (orderId : string) (order : Order).

Definition submitLimitOrder (M : FillModel) (side : string) (qty price : Q)
    (mode : option string) (ttlMs : option Z) (timestamp : Z) (orderId : option string)
  : FillModel * SubmitResult :=
  let mode := opt_default mode "passive"%string in
  let roundedPrice := roundToTick price (tickSize (constraints M)) in
  match _validateOrder M qty (Some roundedPrice) with
  | Invalid r => (M, SubmitRejected r)
  | ValidOk roundedQty =>
      let '(M1, id) := allocId M orderId "lmt-" in
      let order :=
        {| o_orderId := id; o_side := side; o_qty := roundedQty;
           o_remainingQty := roundedQty; o_price := roundedPrice; o_mode := mode;
           o_status := "open"; o_createdAt := timestamp;
           o_activeAt := (timestamp + orderLatencyMs M1)%Z;
           o_expiresAt := match ttlMs with Some t => Some (timestamp + t)%Z | None => None end;
           o_cancelRequestedAt := None; o_cancelEffectiveAt := None;
           o_fills := [] |} in
      (set_orders M1 (map_set (orders M1) id order), Accepted id order)
  end.

Definition set_cancel (o : Order) (requestedAt effectiveAt : Z) : Order :=
  {| o_orderId := o_orderId o; o_side := o_side o; o_qty := o_qty o;
     o_remainingQty := o_remainingQty o; o_price := o_price o; o_mode := o_mode o;
     o_status := o_status o; o_createdAt := o_createdAt o; o_activeAt := o_activeAt o;
     o_expiresAt := o_expiresAt o;
     o_cancelRequestedAt := Some requestedAt; o_cancelEffectiveAt := Some effectiveAt;
     o_fills := o_fills o |}.

Definition set_status (o : Order) (status : string) : Order :=
  {| o_orderId := o_orderId o; o_side := o_side o; o_qty := o_qty o;
     o_remainingQty := o_remainingQty o; o_price := o_price o; o_mode := o_mode o;
     o_status := status; o_createdAt := o_createdAt o; o_activeAt := o_activeAt o;
     o_expiresAt := o_expiresAt o;
     o_cancelRequestedAt := o_cancelRequestedAt o;
     o_cancelEffectiveAt := o_cancelEffectiveAt o;
     o_fills := o_fills o |}.

Definition add_fills (o : Order) (fills : list Fill) (remainingQty : Q) : Order :=
  {| o_orderId := o_orderId o; o_side := o_side o; o_qty := o_qty o;
     o_remainingQty := remainingQty; o_price := o_price o; o_mode := o_mode o;
     o_status := if Qle_bool remainingQty 0 then "filled" else o_status o;
     o_createdAt := o_createdAt o; o_activeAt := o_activeAt o;
     o_expiresAt := o_expiresAt o;
     o_cancelRequestedAt := o_cancelRequestedAt o;
     o_cancelEffectiveAt := o_cancelEffectiveAt o;
     o_fills := o_fills o ++ fills |}.

Inductive CancelResult : Type :=
| CancelRejected (r : Reject)
| CancelRequested (orderId : string) (effectiveAt : Z).

Definition requestCancel (M : FillModel) (orderId : string) (timestamp : Z)
    (latencyMs : option Z) : FillModel * CancelResult :=
  let latencyMs := opt_default latencyMs (defaultCancelLatencyMs M) in
  match map_get (orders M) orderId with
  | None => (M, CancelRejected (_buildReject "order_not_open" None None (Some orderId)))
  | Some order =>
      if negb (String.eqb (o_status order) "open") then
        (M, CancelRejected (_buildReject "order_not_open" None None (Some orderId)))
      else
        let effectiveAt := (timestamp + Z.max 0 latencyMs)%Z in
        (set_orders M (map_set (orders M) orderId (set_cancel order timestamp effectiveAt)),
         CancelRequested orderId effectiveAt)
  end.

Record MarketEvent : Type := mkMarketEvent {
  me_timestamp : Z;
  me_bestAsk : option Q;
  me_bestBid : option Q;
  me_orderbook : option Book;
  me_asks : option (list Level);
  me_bids : option (list Level);
}.

(** [Number(marketEvent.bestAsk) <= order.price] and its mirror *)
Definition crossed (order : Order) (marketEvent : MarketEvent) : bool :=
  if String.eqb (o_side order) "buy"
  then match me_bestAsk marketEvent with
       | Some a => Qle_bool a (o_price order) | None => false end
  else match me_bestBid marketEvent with
       | Some b => Qle_bool (o_price order) b | None => false end.

Definition _executeLimitOrder (M : FillModel) (order : Order) (marketEvent : MarketEvent)
  : FillModel * Order * list Fill :=
  if negb (crossed order marketEvent) && String.eqb (o_mode order) "passive" then
    (M, order, [])
  else
    let book :=
      match me_orderbook marketEvent with
      | Some b => b
      | None => {| asks := me_asks marketEvent; bids := me_bids marketEvent |}
      end in
    let '(M', fills, remainingQty) :=
      _bookFill M (o_side order) (o_remainingQty order) (Some book)
        (Some (o_price order)) (me_timestamp marketEvent) (o_orderId order)
        (String.eqb (o_mode order) "aggressive") in
    match fills with
    | [] => (M', order, fills)
    | _ :: _ => (M', add_fills order fills remainingQty, fills)
    end.

Record Cancellation : Type := mkCancellation {
  c_orderId : string;
  c_reason : string;
  c_timestamp : Z;
}.

Definition reached (deadline : option Z) (now : Z) : bool :=
  match deadline with Some t => (t <=? now)%Z | None => false end.

(** One iteration of the loop of [processMarketEvent] over [orders.values()]. *)
Definition evaluateOrder (M : FillModel) (order : Order) (marketEvent : MarketEvent)
  : FillModel * Order * list Fill * list Cancellation :=
  if negb (String.eqb (o_status order) "open") then (M, order, [], [])
  else if (me_timestamp marketEvent <? o_activeAt order)%Z then (M, order, [], [])
  else if reached (o_cancelEffectiveAt order) (me_timestamp marketEvent) then
    (M, set_status order "cancelled", [],
     [ mkCancellation (o_orderId order) "user_cancel" (me_timestamp marketEvent) ])
  else if reached (o_expiresAt order) (me_timestamp marketEvent) then
    (M, set_status order "cancelled", [],
     [ mkCancellation (o_orderId order) "ttl_timeout" (me_timestamp marketEvent) ])
  else
    let '(M', order', fills) := _executeLimitOrder M order marketEvent in
    (M', order', fills, []).

Fixpoint processOrders (M : FillModel) (pending : list (string * Order))
    (marketEvent : MarketEvent)
  : FillModel * list (string * Order) * list Fill * list Cancellation :=
  match pending with
  | [] => (M, [], [], [])
  | (k, order) :: rest =>
      let '(M1, order', fills, cancellations) := evaluateOrder M order marketEvent in
      let '(M2, rest', fills', cancellations') := processOrders M1 rest marketEvent in
      (M2, (k, order') :: rest', fills ++ fills', cancellations ++ cancellations')
  end.

Definition processMarketEvent (M : FillModel) (marketEvent : MarketEvent)
  : FillModel * list Fill * list Cancellation :=
  let '(M', orders', fills, cancellations) := processOrders M (orders M) marketEvent in
  (set_orders M' orders', fills, cancellations).

End Fill.

(* ================================================================== *)
(** ** engine/index.js: seeded random source *)
(* ================================================================== *)

Module Rng.

Local Open Scope Z_scope.

(** [ToUint32] *)
Definition u32 (x : Z) : Z := x mod 4294967296.

(** [Math.imul(a, b)], as the unsigned representative of the 32-bit result *)
Definition imul (a b : Z) : Z := u32 (a * b).

(** The loop of [hashSeed] over [stringValue.charCodeAt(i)]; the characters
    of [String(seed)] are ASCII, one byte each. *)
Fixpoint hash_chars (s : string) (h : Z) : Z :=
  match s with
  | EmptyString => h
  | String c s' =>
      hash_chars s' (imul (Z.lxor h (Z.of_N (N_of_ascii c))) 16777619)
  end.

(** [hashSeed(seed)]: FNV-1a over the characters of [String(seed)] *)
Definition hashSeed (seed : Z) : Z :=
  u32 (hash_chars (string_of_Z seed) 2166136261).

(** [createSeededRng(seed)]: the initial value of the closure's [state].
    [hashSeed(seed) || 0x9e3779b9] *)
Definition createSeededRng (seed : Z) : Z :=
  let h := hashSeed seed in
  if h =? 0 then 2654435769 else h.

(** One call of the closure [random()]: the number returned and the new
    [state].  [state] is a JavaScript number that the closure never wraps;
    it stays an exact integer for the first 2^53 / 0x6d2b79f5 (about 4.9
    million) calls, which is the range this definition describes. *)
Definition random (state : Z) : Q * Z :=
  let state := state + 1831565813 in
  let t := u32 state in
  let t := imul (Z.lxor t (Z.shiftr t 15)) (Z.lor t 1) in
  let t := Z.lxor t (u32 (t + imul (Z.lxor t (Z.shiftr t 7)) (Z.lor t 61))) in
  ((inject_Z (Z.lxor t (Z.shiftr t 14)) / 4294967296)%Q, state).

End Rng.

(* ================================================================== *)
(** ** engine/index.js: events, account state, run parameters *)
(* ================================================================== *)

(** The kind-specific fields of an event object.  An absent numeric field
    is [Undefined]; an absent string field is [None]. *)
Record Payload : Type := mkPayload {
  price : jsval;
  close : jsval;
  mark_price : jsval;
  markPrice : jsval;
  side : option string;
  ev_qty : jsval;
  order_id : option string;
  reason : option string;
  amount : jsval;
  funding_rate : jsval;
  interval_multiplier : jsval;
  position_notional : jsval;
  initial_margin : jsval;
  margin : jsval;
  maintenance_margin : jsval;
  unrealized_pnl : jsval;
  trigger : option string;
  penalty : jsval;
}.

Definition emptyPayload : Payload :=
  mkPayload Undefined Undefined Undefined Undefined None Undefined None None
            Undefined Undefined Undefined Undefined Undefined Undefined Undefined
            Undefined None Undefined.

(** An event as a collaborator or the adapter hands it over. *)
Record RawEvent : Type := mkRawEvent {
  raw_type : option string;
  raw_timestamp : option Z;
  raw_payload : Payload;
}.

(** An event after [normalizeEvent]; [_seq] is set by [enqueueEvents]. *)
Record Event : Type := mkEvent {
  type_ : string;
  timestamp : Z;
  priority : Property;
  _seq : option Z;
  payload : Payload;
}.

(** An event object passed to [enqueueEvents] a second time. *)
Definition to_raw (ev : Event) : RawEvent :=
  {| raw_type := Some (type_ ev); raw_timestamp := Some (timestamp ev);
     raw_payload := payload ev |}.

Record State : Type := mkState {
  cash : jsval;
  equity : jsval;
  s_margin : jsval;
  maintenanceMargin : jsval;
  unrealizedPnl : jsval;
  lastPrice : jsval;
  s_markPrice : jsval;
  position : Position;
  liquidated : bool;
}.

Record Params : Type := mkParams {
  symbol : option string;
  timeframe : option string;
  market_type : option string;
  start_date : option Z;
  end_date : option Z;
  initial_cash : jsval;
  random_seed : option Z;
  cfg_funding_rate : jsval;
  funding_interval_ms : option Z;
  initial_margin_rate : jsval;
  maintenance_margin_rate : jsval;
  liquidation_penalty_rate : jsval;
}.

(** Entries of the trade log, one shape per handler. *)
Inductive LogEntry : Type :=
| LogOrderSubmitted (timestamp : Z) (type : string) (order_id side : option string)
    (qty price : jsval)
| LogOrderFilled (timestamp : Z) (type : string) (order_id side : option string)
    (qty price cash_after : jsval) (position_after : Position)
| LogOrderCancelled (timestamp : Z) (type : string) (order_id reason : option string)
| LogFundingPayment (timestamp : Z) (type : string)
    (amount funding_rate interval_multiplier : jsval)
| LogMarginUpdate (timestamp : Z) (type : string)
    (margin initial_margin maintenance_margin unrealized_pnl mark_price : jsval)
    (trigger : option string)
| LogLiquidated (timestamp : Z) (type : string) (reason : option string) (penalty : jsval).

Record EquityEntry : Type := mkEquityEntry {
  eq_timestamp : Z;
  eq_equity : jsval;
  eq_cash : jsval;
  eq_margin : jsval;
  eq_maintenance_margin : jsval;
  position_qty : jsval;
  position_avg_price : jsval;
  last_price : jsval;
  eq_mark_price : jsval;
}.

(** [try]-less exceptions: a thrown [Error] aborts the run. *)
Inductive result (A : Type) : Type :=
| Ok (a : A)
| Throw (message : string).
Arguments Ok {A} a.
Arguments Throw {A} message.

Definition bind {A B} (r : result A) (k : A -> result B) : result B :=
  match r with
  | Ok a => k a
  | Throw m => Throw m
  end.

Notation "x <- r ;; k" := (bind r (fun x => k))
  (at level 61, r at next level, right associativity).

(** What a collaborator may do with its context besides reading it: draw
    from [ctx.random()] and call [ctx.queueEvent(event)]. *)
Inductive Collab (A : Type) : Type :=
| Ret (a : A)
| CallRandom (k : Q -> Collab A)
| QueueEvent (event : RawEvent) (k : Collab A).
Arguments Ret {A} a.
Arguments CallRandom {A} k.
Arguments QueueEvent {A} event k.

Record Context : Type := mkContext {
  ctx_state : State;
  ctx_config : option Params;
  ctx_timestamp : Z;
  ctx_markPrice : jsval;
}.

(** A strategy with private state [S]: [onEvent(event, ctx)]. *)
Record Strategy (S : Type) : Type := mkStrategy {
  onEvent : S -> Event -> Context -> Collab (S * list RawEvent);
}.
Arguments onEvent {S} _ _ _ _.

(** An execution model with private state [X]. *)
Record ExecutionModel (X : Type) : Type := mkExecutionModel {
  onSignal : X -> Event -> Context -> Collab (X * list RawEvent);
  onMarketEvent : X -> Event -> Context -> Collab (X * list RawEvent);
}.
Arguments onSignal {X} _ _ _ _.
Arguments onMarketEvent {X} _ _ _ _.

(** The own properties of the object literal [EVENT_PRIORITY]; the code
    reads it as [EVENT_PRIORITY[event.type]], here [getProperty
    EVENT_PRIORITY type]. *)
Definition EVENT_PRIORITY (type : string) : option Z :=
  if String.eqb type "tick" then Some 10%Z
  else if String.eqb type "candle" then Some 10%Z
  else if String.eqb type "signal_generated" then Some 20%Z
  else if String.eqb type "order_submitted" then Some 30%Z
  else if String.eqb type "order_filled" then Some 40%Z
  else if String.eqb type "order_cancelled" then Some 50%Z
  else if String.eqb type "funding_payment" then Some 60%Z
  else if String.eqb type "margin_update" then Some 70%Z
  else if String.eqb type "liquidated" then Some 80%Z
  else None.

Definition VALID_MARKET_TYPES : list string :=
  [ "spot"; "futures"; "perpetual" ]%string.

(** Timestamps are numbers here, so [normalizeTimestamp] is the identity;
    date strings are outside the model. *)
Definition normalizeTimestamp (timestamp : Z) : Z := timestamp.

(** The character [U+0022] *)
Definition dquote : string :=
  String (Ascii false true false false false true false false) EmptyString.

(** The text of the [Error] thrown for a missing, empty or non-string
    [type]: the word [type] stands between double quotes. *)
Definition type_required : string :=
  ("each event must include string " ++ dquote ++ "type" ++ dquote)%string.

(** [priority: EVENT_PRIORITY[event.type] ?? 90]: the read finds the
    inherited members too, so an event whose type is one of their names
    carries that member as its priority. *)
Definition normalizeEvent (event : RawEvent) : result Event :=
  match raw_type event with
  | None => Throw type_required
  | Some type =>
      if String.eqb type EmptyString then Throw type_required
      else
        match raw_timestamp event with
        | None => Throw "each event must include timestamp"
        | Some ts =>
            Ok {| type_ := type;
                  timestamp := normalizeTimestamp ts;
                  priority := opt_default (getProperty EVENT_PRIORITY type) 90%Z;
                  _seq := None;
                  payload := raw_payload event |}
        end
  end.

(** [compareEvents(a, b)]; [None] stands for NaN, the difference of two
    priorities of which one is no number. *)
Definition compareEvents (a b : Event) : option Z :=
  if negb (timestamp a =? timestamp b)%Z then Some (timestamp a - timestamp b)%Z
  else if negb (Property_eqb (priority a) (priority b))
       then Property_sub (priority a) (priority b)
  else Some (opt_default (_seq a) 0 - opt_default (_seq b) 0)%Z.

Definition isMarginMarket (marketType : option string) : bool :=
  match marketType with
  | Some m => String.eqb m "futures" || String.eqb m "perpetual"
  | None => false
  end.

(* ================================================================== *)
(** ** engine/index.js: BacktestEngine *)
(* ================================================================== *)

(** The instance fields of [BacktestEngine], for a strategy with private
    state [S] and an execution model with private state [X].  [history] is
    not a field of the JavaScript object: it records, oldest first, every
    event handed to [processEvent] by the loop of [run] together with the
    queue as that call left it. *)
Record Engine (S X : Type) : Type := mkEngine {
  randomSeed : Z;
  _rng : Z;
  state : State;
  _eventQueue : list Event;
  seq_counter : Z;
  _tradeLogs : list LogEntry;
  _equitySeries : list EquityEntry;
  _orders : list (option string * (Event * string));
  _currentConfig : option Params;
  _nextFundingTimestamp : option Z;
  strategyState : S;
  executionState : X;
  history : list (Event * list Event);
}.
Arguments mkEngine {S X}.
Arguments randomSeed {S X} _.
Arguments _rng {S X} _.
Arguments state {S X} _.
Arguments _eventQueue {S X} _.
Arguments seq_counter {S X} _.
Arguments _tradeLogs {S X} _.
Arguments _equitySeries {S X} _.
Arguments _orders {S X} _.
Arguments _currentConfig {S X} _.
Arguments _nextFundingTimestamp {S X} _.
Arguments strategyState {S X} _.
Arguments executionState {S X} _.
Arguments history {S X} _.

Inductive Outcome (A : Type) : Type :=
| Done (a : A)
| Failed (message : string)
| OutOfFuel (a : A).
Arguments Done {A} a.
Arguments Failed {A} message.
Arguments OutOfFuel {A} a.

Record RunResult : Type := mkRunResult {
  tradeLogs : list LogEntry;
  equitySeries : list EquityEntry;
  finalState : State;
}.

(** *** Updates of the account state *)

Definition initialState : State :=
  {| cash := Num 0; equity := Num 0; s_margin := Num 0; maintenanceMargin := Num 0;
     unrealizedPnl := Num 0; lastPrice := Null; s_markPrice := Null;
     position := {| qty := Num 0; avgPrice := Num 0 |};
     liquidated := false |}.

Definition with_cash (st : State) (c : jsval) : State :=
  {| cash := c; equity := equity st; s_margin := s_margin st;
     maintenanceMargin := maintenanceMargin st; unrealizedPnl := unrealizedPnl st;
     lastPrice := lastPrice st; s_markPrice := s_markPrice st;
     position := position st; liquidated := liquidated st |}.

Definition with_prices (st : State) (last mark : jsval) : State :=
  {| cash := cash st; equity := equity st; s_margin := s_margin st;
     maintenanceMargin := maintenanceMargin st; unrealizedPnl := unrealizedPnl st;
     lastPrice := last; s_markPrice := mark;
     position := position st; liquidated := liquidated st |}.

Definition with_position (st : State) (p : Position) : State :=
  {| cash := cash st; equity := equity st; s_margin := s_margin st;
     maintenanceMargin := maintenanceMargin st; unrealizedPnl := unrealizedPnl st;
     lastPrice := lastPrice st; s_markPrice := s_markPrice st;
     position := p; liquidated := liquidated st |}.

Definition with_margins (st : State) (m mm upnl : jsval) : State :=
  {| cash := cash st; equity := equity st; s_margin := m;
     maintenanceMargin := mm; unrealizedPnl := upnl;
     lastPrice := lastPrice st; s_markPrice := s_markPrice st;
     position := position st; liquidated := liquidated st |}.

Definition with_liquidated (st : State) : State :=
  {| cash := cash st; equity := equity st; s_margin := s_margin st;
     maintenanceMargin := maintenanceMargin st; unrealizedPnl := unrealizedPnl st;
     lastPrice := lastPrice st; s_markPrice := s_markPrice st;
     position := position st; liquidated := true |}.

Definition with_equity (st : State) (eq upnl : jsval) : State :=
  {| cash := cash st; equity := eq; s_margin := s_margin st;
     maintenanceMargin := maintenanceMargin st; unrealizedPnl := upnl;
     lastPrice := lastPrice st; s_markPrice := s_markPrice st;
     position := position st; liquidated := liquidated st |}.

Section BacktestEngine.

Context {S X : Type}.
Variable strategy : Strategy S.
Variable execution : ExecutionModel X.

Local Abbreviation Engine := (Engine S X).

(** *** Updates of the instance fields *)

Definition set_state (e : Engine) (st : State) : Engine :=
  mkEngine (randomSeed e) (_rng e) st (_eventQueue e) (seq_counter e) (_tradeLogs e)
    (_equitySeries e) (_orders e) (_currentConfig e) (_nextFundingTimestamp e)
    (strategyState e) (executionState e) (history e).

Definition set_rng (e : Engine) (r : Z) : Engine :=
  mkEngine (randomSeed e) r (state e) (_eventQueue e) (seq_counter e) (_tradeLogs e)
    (_equitySeries e) (_orders e) (_currentConfig e) (_nextFundingTimestamp e)
    (strategyState e) (executionState e) (history e).

Definition set_queue (e : Engine) (q : list Event) (n : Z) : Engine :=
  mkEngine (randomSeed e) (_rng e) (state e) q n (_tradeLogs e)
    (_equitySeries e) (_orders e) (_currentConfig e) (_nextFundingTimestamp e)
    (strategyState e) (executionState e) (history e).

Definition push_log (e : Engine) (entry : LogEntry) : Engine :=
  mkEngine (randomSeed e) (_rng e) (state e) (_eventQueue e) (seq_counter e)
    (_tradeLogs e ++ [entry])
    (_equitySeries e) (_orders e) (_currentConfig e) (_nextFundingTimestamp e)
    (strategyState e) (executionState e) (history e).

Definition push_equity (e : Engine) (entry : EquityEntry) : Engine :=
  mkEngine (randomSeed e) (_rng e) (state e) (_eventQueue e) (seq_counter e) (_tradeLogs e)
    (_equitySeries e ++ [entry]) (_orders e) (_currentConfig e) (_nextFundingTimestamp e)
    (strategyState e) (executionState e) (history e).

Definition set_orders (e : Engine) (os : list (option string * (Event * string))) : Engine :=
  mkEngine (randomSeed e) (_rng e) (state e) (_eventQueue e) (seq_counter e) (_tradeLogs e)
    (_equitySeries e) os (_currentConfig e) (_nextFundingTimestamp e)
    (strategyState e) (executionState e) (history e).

Definition set_nextFunding (e : Engine) (t : option Z) : Engine :=
  mkEngine (randomSeed e) (_rng e) (state e) (_eventQueue e) (seq_counter e) (_tradeLogs e)
    (_equitySeries e) (_orders e) (_currentConfig e) t
    (strategyState e) (executionState e) (history e).

Definition set_strategyState (e : Engine) (s : S) : Engine :=
  mkEngine (randomSeed e) (_rng e) (state e) (_eventQueue e) (seq_counter e) (_tradeLogs e)
    (_equitySeries e) (_orders e) (_currentConfig e) (_nextFundingTimestamp e)
    s (executionState e) (history e).

Definition set_executionState (e : Engine) (x : X) : Engine :=
  mkEngine (randomSeed e) (_rng e) (state e) (_eventQueue e) (seq_counter e) (_tradeLogs e)
    (_equitySeries e) (_orders e) (_currentConfig e) (_nextFundingTimestamp e)
    (strategyState e) x (history e).

Definition push_history (e : Engine) (h : Event * list Event) : Engine :=
  mkEngine (randomSeed e) (_rng e) (state e) (_eventQueue e) (seq_counter e) (_tradeLogs e)
    (_equitySeries e) (_orders e) (_currentConfig e) (_nextFundingTimestamp e)
    (strategyState e) (executionState e) (history e ++ [h]).

(** [new BacktestEngine(options)] with a strategy and an execution model
    in their initial states. *)
Definition new_BacktestEngine (options_random_seed : option Z) (s0 : S) (x0 : X) : Engine :=
  let seed := opt_default options_random_seed 1%Z in
  mkEngine seed (Rng.createSeededRng seed) initialState [] 0%Z [] [] [] None None
    s0 x0 [].

(** [reset()] *)
Definition reset (e : Engine) : Engine :=
  mkEngine (randomSeed e) (_rng e) initialState [] 0%Z [] [] [] None None
    (strategyState e) (executionState e) [].

(** *** The scheduler *)

Definition with_seq (ev : Event) (n : Z) : Event :=
  {| type_ := type_ ev; timestamp := timestamp ev; priority := priority ev;
     _seq := Some n; payload := payload ev |}.

(** [compareEvents(a, b) < 0], which is false of NaN *)
Definition before (a b : Event) : bool :=
  match compareEvents a b with
  | Some c => (c <? 0)%Z
  | None => false
  end.

(** The [for] loop of [enqueueEvents]. *)
Fixpoint push_events (q : list Event) (n : Z) (events : list RawEvent)
  : result (list Event * Z) :=
  match events with
  | [] => Ok (q, n)
  | event :: rest =>
      normalizedEvent <- normalizeEvent event ;;
      push_events (q ++ [with_seq normalizedEvent n]) (n + 1)%Z rest
  end.

Definition enqueueEvents (e : Engine) (events : list RawEvent) : result Engine :=
  qn <- push_events (_eventQueue e) (seq_counter e) events ;;
  Ok (set_queue e (js_sort before (fst qn)) (snd qn)).

(** *** Collaborators *)

Definition config_market_type (e : Engine) : option string :=
  match _currentConfig e with Some cfg => market_type cfg | None => None end.

Definition getRiskPrice (e : Engine) : jsval :=
  let st := state e in
  if isMarginMarket (config_market_type e)
  then nullish (s_markPrice st) (nullish (lastPrice st) (avgPrice (position st)))
  else nullish (lastPrice st) (avgPrice (position st)).

Definition createContext (e : Engine) (timestamp : Z) : Context :=
  {| ctx_state := state e; ctx_config := _currentConfig e;
     ctx_timestamp := timestamp; ctx_markPrice := getRiskPrice e |}.

(** Running a collaborator call against the engine: [ctx.random()] advances
    [_rng], [ctx.queueEvent(event)] is [enqueueEvents([event])]. *)
Fixpoint interp {A : Type} (c : Collab A) (e : Engine) : result (A * Engine) :=
  match c with
  | Ret a => Ok (a, e)
  | CallRandom k =>
      let '(r, rng') := Rng.random (_rng e) in
      interp (k r) (set_rng e rng')
  | QueueEvent event k =>
      e' <- enqueueEvents e [event] ;;
      interp k e'
  end.

(** *** Funding and risk events *)

Definition fundingEvent (timestamp : Z) (amount : jsval) (fundingRate : Q)
    (notional : jsval) : RawEvent :=
  {| raw_type := Some "funding_payment"%string;
     raw_timestamp := Some timestamp;
     raw_payload :=
       {| price := Undefined; close := Undefined; mark_price := Undefined;
          markPrice := Undefined; side := None; ev_qty := Undefined;
          order_id := None; reason := None;
          amount := amount; funding_rate := Num fundingRate;
          interval_multiplier := Num 1; position_notional := notional;
          initial_margin := Undefined; margin := Undefined;
          maintenance_margin := Undefined; unrealized_pnl := Undefined;
          trigger := None; penalty := Undefined |} |}.

(** [-notional * fundingRate] for the position and risk price of [e] *)
Definition fundingNotional (e : Engine) : jsval :=
  Js.mul (Js.abs (qty (position (state e)))) (Js.abs (getRiskPrice e)).

Definition fundingAmount (e : Engine) (fundingRate : Q) : jsval :=
  Js.mul (Js.neg (fundingNotional e)) (Num fundingRate).

(** The [while] loop of [queueFundingEventsUntil]; [next] is
    [_nextFundingTimestamp].  With [intervalMs > 0] the loop body runs at
    most [timestamp - next + 1] times, which is the fuel its caller passes. *)
Fixpoint fundingLoop (fuel : nat) (e : Engine) (timestamp : Z) (fundingRate : Q)
    (intervalMs : Z) (next : Z) : result Engine :=
  match fuel with
  | O => Ok (set_nextFunding e (Some next))
  | Datatypes.S fuel' =>
      if (next <=? timestamp)%Z then
        let notional := fundingNotional e in
        let amount := fundingAmount e fundingRate in
        e' <- enqueueEvents e [fundingEvent next amount fundingRate notional] ;;
        fundingLoop fuel' e' timestamp fundingRate intervalMs (next + intervalMs)%Z
      else Ok (set_nextFunding e (Some next))
  end.

Definition queueFundingEventsUntil (e : Engine) (timestamp : Z) : result Engine :=
  let fundingRate :=
    match _currentConfig e with
    | Some cfg => number_or_0 (cfg_funding_rate cfg) | None => 0 end in
  let intervalMs :=
    match _currentConfig e with
    | Some cfg => opt_default (funding_interval_ms cfg) 0%Z | None => 0%Z end in
  if Qeq_bool fundingRate 0 || (intervalMs <=? 0)%Z
     || strict_eq (qty (position (state e))) (Num 0)
  then Ok e
  else
    match _nextFundingTimestamp e with
    | None => Ok (set_nextFunding e (Some (timestamp + intervalMs)%Z))
    | Some next =>
        fundingLoop (Z.to_nat (timestamp - next + 1)) e timestamp fundingRate intervalMs next
    end.

Definition marginUpdateEvent (timestamp : Z) (snapshot : Margin.Snapshot)
    (trigger : string) : RawEvent :=
  {| raw_type := Some "margin_update"%string;
     raw_timestamp := Some timestamp;
     raw_payload :=
       {| price := Undefined; close := Undefined;
          mark_price := Num (Margin.markPrice snapshot);
          markPrice := Undefined; side := None; ev_qty := Undefined;
          order_id := None; reason := None;
          amount := Undefined; funding_rate := Undefined;
          interval_multiplier := Undefined; position_notional := Undefined;
          initial_margin := Num (Margin.initialMargin snapshot); margin := Undefined;
          maintenance_margin := Num (Margin.maintenanceMargin snapshot);
          unrealized_pnl := Num (Margin.unrealizedPnl snapshot);
          trigger := Some trigger; penalty := Undefined |} |}.

Definition liquidatedEvent (timestamp : Z) (snapshot : Margin.Snapshot)
    (penalty : Q) : RawEvent :=
  {| raw_type := Some "liquidated"%string;
     raw_timestamp := Some timestamp;
     raw_payload :=
       {| price := Num (Margin.markPrice snapshot); close := Undefined;
          mark_price := Undefined;
          markPrice := Undefined; side := None; ev_qty := Undefined;
          order_id := None; reason := Some "maintenance_margin_breach"%string;
          amount := Undefined; funding_rate := Undefined;
          interval_multiplier := Undefined; position_notional := Undefined;
          initial_margin := Undefined; margin := Undefined;
          maintenance_margin := Undefined; unrealized_pnl := Undefined;
          trigger := None; penalty := Num penalty |} |}.

Definition cfg_number (e : Engine) (field : Params -> jsval) : Q :=
  match _currentConfig e with
  | Some cfg => number_or_0 (field cfg)
  | None => 0
  end.

Definition queueRiskEvents (e : Engine) (timestamp : Z) (trigger : string)
  : result Engine :=
  if negb (isMarginMarket (config_market_type e)) then Ok e
  else
    let snapshot :=
      Margin.calculateMarginSnapshot (position (state e)) (getRiskPrice e)
        (cfg_number e initial_margin_rate) (cfg_number e maintenance_margin_rate) in
    e1 <- enqueueEvents e [marginUpdateEvent timestamp snapshot trigger] ;;
    let projectedEquity := Js.add (cash (state e1)) (Num (Margin.unrealizedPnl snapshot)) in
    if Js.gt (Js.abs (qty (position (state e1)))) (Num 0)
       && Js.lt projectedEquity (Num (Margin.maintenanceMargin snapshot))
    then
      let penaltyRate := Qmax_js 0 (cfg_number e1 liquidation_penalty_rate) in
      let penalty := Margin.positionNotional snapshot * penaltyRate in
      enqueueEvents e1 [liquidatedEvent timestamp snapshot penalty]
    else Ok e1.

(** *** Event handlers *)

Definition run_strategy (e : Engine) (event : Event) : result Engine :=
  r <- interp (onEvent strategy (strategyState e) event (createContext e (timestamp event))) e ;;
  let '((s', strategyEvents), e') := r in
  enqueueEvents (set_strategyState e' s') strategyEvents.

Definition run_onMarketEvent (e : Engine) (event : Event) : result Engine :=
  r <- interp (onMarketEvent execution (executionState e) event
                 (createContext e (timestamp event))) e ;;
  let '((x', executionEvents), e') := r in
  enqueueEvents (set_executionState e' x') executionEvents.

Definition handleMarketEvent (e : Engine) (event : Event) : result Engine :=
  let st := state e in
  let p := payload event in
  let last := nullish (price p) (nullish (close p) (lastPrice st)) in
  let mark := nullish (mark_price p) (nullish (markPrice p) (nullish (s_markPrice st) last)) in
  let e := set_state e (with_prices st last mark) in
  e <- run_strategy e event ;;
  e <- run_onMarketEvent e event ;;
  e <- queueFundingEventsUntil e (timestamp event) ;;
  queueRiskEvents e (timestamp event) "market".

Definition handleSignal (e : Engine) (event : Event) : result Engine :=
  r <- interp (onSignal execution (executionState e) event
                 (createContext e (timestamp event))) e ;;
  let '((x', executionEvents), e') := r in
  enqueueEvents (set_executionState e' x') executionEvents.

Definition opt_string_eqb (a b : option string) : bool :=
  match a, b with
  | Some x, Some y => String.eqb x y
  | None, None => true
  | _, _ => false
  end.

(** [Map.prototype.set] on [_orders] *)
Fixpoint orders_set (m : list (option string * (Event * string)))
    (k : option string) (v : Event * string) : list (option string * (Event * string)) :=
  match m with
  | [] => [(k, v)]
  | (k', v') :: m' =>
      if opt_string_eqb k' k then (k, v) :: m' else (k', v') :: orders_set m' k v
  end.

Fixpoint orders_get (m : list (option string * (Event * string))) (k : option string)
  : option (Event * string) :=
  match m with
  | [] => None
  | (k', v') :: m' => if opt_string_eqb k' k then Some v' else orders_get m' k
  end.

Definition handleOrderSubmitted (e : Engine) (event : Event) : result Engine :=
  let p := payload event in
  let e := set_orders e (orders_set (_orders e) (order_id p) (event, "submitted"%string)) in
  Ok (push_log e
        (LogOrderSubmitted (timestamp event) (type_ event) (order_id p) (side p)
           (ev_qty p) (price p))).

Definition signedQtyOf (p : Payload) : jsval :=
  if opt_string_eqb (side p) (Some "sell"%string)
  then Js.neg (Js.abs (ev_qty p)) else Js.abs (ev_qty p).

(** The new average price chosen by [handleOrderFilled]. *)
Definition newAvgPrice (prevAvg prevQty newQty fillPrice signedQty : jsval) : jsval :=
  if strict_eq newQty (Num 0) then Num 0
  else if strict_eq (Js.sign prevQty) (Js.sign newQty) || strict_eq prevQty (Num 0) then
    let totalCost := Js.add (Js.mul prevAvg prevQty) (Js.mul fillPrice signedQty) in
    Js.div totalCost newQty
  else if negb (strict_eq (Js.sign prevQty) (Js.sign newQty)) then fillPrice
  else prevAvg.

Definition handleOrderFilled (e : Engine) (event : Event) : result Engine :=
  let st := state e in
  let p := payload event in
  let fillPrice := nullish (price p) (lastPrice st) in
  let signedQty := signedQtyOf p in
  let value := Js.mul signedQty fillPrice in
  let prevQty := qty (position st) in
  let newQty := Js.add prevQty signedQty in
  let cash' := Js.sub (cash st) value in
  let avg' := newAvgPrice (avgPrice (position st)) prevQty newQty fillPrice signedQty in
  let position' := {| qty := newQty; avgPrice := avg' |} in
  let e := set_state e (with_position (with_cash st cash') position') in
  let e := set_orders e (orders_set (_orders e) (order_id p) (event, "filled"%string)) in
  let e := push_log e
             (LogOrderFilled (timestamp event) (type_ event) (order_id p) (side p)
                (ev_qty p) fillPrice cash' position') in
  queueRiskEvents e (timestamp event) "fill".

Definition handleOrderCancelled (e : Engine) (event : Event) : result Engine :=
  let p := payload event in
  let e :=
    match orders_get (_orders e) (order_id p) with
    | Some (stored, _) =>
        set_orders e (orders_set (_orders e) (order_id p) (stored, "cancelled"%string))
    | None => e
    end in
  Ok (push_log e
        (LogOrderCancelled (timestamp event) (type_ event) (order_id p) (reason p))).

Definition handleFundingPayment (e : Engine) (event : Event) : result Engine :=
  let p := payload event in
  let e := set_state e (with_cash (state e) (Js.add (cash (state e)) (amount p))) in
  let e := push_log e
             (LogFundingPayment (timestamp event) (type_ event) (amount p)
                (funding_rate p) (interval_multiplier p)) in
  queueRiskEvents e (timestamp event) "funding".

Definition handleMarginUpdate (e : Engine) (event : Event) : result Engine :=
  let st := state e in
  let p := payload event in
  let m := nullish (initial_margin p) (nullish (margin p) (nullish (amount p) (s_margin st))) in
  let mm := nullish (maintenance_margin p) (maintenanceMargin st) in
  let upnl := nullish (unrealized_pnl p) (unrealizedPnl st) in
  let e := set_state e (with_margins st m mm upnl) in
  Ok (push_log e
        (LogMarginUpdate (timestamp event) (type_ event) m m mm upnl (mark_price p)
           (trigger p))).

(** The order-filled event [handleLiquidation] synthesizes:
    [{ ...event, type: 'order_filled', side, qty, price, order_id }]. *)
Definition closeoutEvent (event : Event) (closeSide : string) (closeQty liquidationPrice : jsval)
  : Event :=
  let p := payload event in
  {| type_ := "order_filled";
     timestamp := timestamp event;
     priority := priority event;
     _seq := _seq event;
     payload :=
       {| price := liquidationPrice; close := close p; mark_price := mark_price p;
          markPrice := markPrice p; side := Some closeSide; ev_qty := closeQty;
          order_id :=
            nullish_s (order_id p)
              (Some ("liq-" ++ string_of_Z (timestamp event))%string);
          reason := reason p; amount := amount p; funding_rate := funding_rate p;
          interval_multiplier := interval_multiplier p;
          position_notional := position_notional p;
          initial_margin := initial_margin p; margin := margin p;
          maintenance_margin := maintenance_margin p;
          unrealized_pnl := unrealized_pnl p; trigger := trigger p;
          penalty := penalty p |} |}.

Definition liquidationPrice (e : Engine) (event : Event) : jsval :=
  nullish (price (payload event))
    (nullish (lastPrice (state e)) (avgPrice (position (state e)))).

Definition closeSide (e : Engine) : string :=
  if Js.gt (qty (position (state e))) (Num 0) then "sell" else "buy".

Definition handleLiquidation (e : Engine) (event : Event) : result Engine :=
  let e := set_state e (with_liquidated (state e)) in
  e <- (if negb (strict_eq (qty (position (state e))) (Num 0)) then
          handleOrderFilled e
            (closeoutEvent event (closeSide e) (Js.abs (qty (position (state e))))
               (liquidationPrice e event))
        else Ok e) ;;
  let pen := penalty (payload event) in
  let e := if truthy pen
           then set_state e (with_cash (state e) (Js.sub (cash (state e)) (Js.abs pen)))
           else e in
  Ok (push_log e
        (LogLiquidated (timestamp event) (type_ event) (reason (payload event))
           (nullish pen (Num 0)))).

Definition updateEquity (e : Engine) (timestamp : Z) : Engine :=
  let markPrice := getRiskPrice e in
  let unrealizedPnl := Margin.calculateUnrealizedPnl (position (state e)) markPrice in
  let equity := Js.add (cash (state e)) (Num unrealizedPnl) in
  let e := set_state e (with_equity (state e) equity (Num unrealizedPnl)) in
  let st := state e in
  push_equity e
    {| eq_timestamp := timestamp; eq_equity := equity; eq_cash := cash st;
       eq_margin := s_margin st; eq_maintenance_margin := maintenanceMargin st;
       position_qty := qty (position st);
       position_avg_price := avgPrice (position st);
       last_price := lastPrice st; eq_mark_price := markPrice |}.

Definition processEvent (e : Engine) (event : Event) : result Engine :=
  let type := type_ event in
  e <- (if String.eqb type "tick" || String.eqb type "candle" then handleMarketEvent e event
        else if String.eqb type "signal_generated" then handleSignal e event
        else if String.eqb type "order_submitted" then handleOrderSubmitted e event
        else if String.eqb type "order_filled" then handleOrderFilled e event
        else if String.eqb type "order_cancelled" then handleOrderCancelled e event
        else if String.eqb type "funding_payment" then handleFundingPayment e event
        else if String.eqb type "margin_update" then handleMarginUpdate e event
        else if String.eqb type "liquidated" then handleLiquidation e event
        else Throw ("Unknown event type: " ++ type)) ;;
  Ok (updateEquity e (timestamp event)).

(** *** Run parameters *)

(** A string stands for the JavaScript string it encodes in UTF-8, which
    is how a string literal is read here.  [trim] strips white space and
    line terminators: U+0009 to U+000D and U+0020, of one byte each (a byte
    160 where a character begins encodes no character; it is read as
    U+00A0 written in one byte); *)
Definition is_space (c : ascii) : bool :=
  let n := nat_of_ascii c in
  ((9 <=? n) && (n <=? 13))%nat || (n =? 32)%nat || (n =? 160)%nat.

(** U+00A0, in two bytes; *)
Definition is_space2 (c1 c2 : ascii) : bool :=
  ((nat_of_ascii c1 =? 194) && (nat_of_ascii c2 =? 160))%nat.

(** and, in three bytes, U+1680, U+2000 to U+200A, U+2028, U+2029, U+202F,
    U+205F, U+3000 and U+FEFF. *)
Definition is_space3 (c1 c2 c3 : ascii) : bool :=
  let a := nat_of_ascii c1 in
  let b := nat_of_ascii c2 in
  let c := nat_of_ascii c3 in
  ((a =? 225) && (b =? 154) && (c =? 128)
   || (a =? 226) && (b =? 128)
      && ((128 <=? c) && (c <=? 138) || (c =? 168) || (c =? 169) || (c =? 175))
   || (a =? 226) && (b =? 129) && (c =? 159)
   || (a =? 227) && (b =? 128) && (c =? 128)
   || (a =? 239) && (b =? 187) && (c =? 191))%nat.

(** [s.trim() === '']: [s] is made of white space only *)
Fixpoint is_blank (s : string) : bool :=
  match s with
  | EmptyString => true
  | String c1 s1 =>
      if is_space c1 then is_blank s1
      else
        match s1 with
        | EmptyString => false
        | String c2 s2 =>
            if is_space2 c1 c2 then is_blank s2
            else
              match s2 with
              | EmptyString => false
              | String c3 s3 => is_space3 c1 c2 c3 && is_blank s3
              end
        end
  end.

(** [new Date(value).getTime()] for a number of milliseconds: NaN, here
    [None], beyond 8.64e15 ms on either side of the epoch. *)
Definition getTime (value : Z) : option Z :=
  if (Z.abs value <=? 8640000000000000)%Z then Some value else None.

Definition requiredString (name : string) (field : option string) : result unit :=
  match field with
  | Some s =>
      if is_blank s
      then Throw (name ++ " is required and must be a non-empty string")
      else Ok tt
  | None => Throw (name ++ " is required and must be a non-empty string")
  end.

Definition validateRunParams (params : Params) : result unit :=
  _ <- requiredString "symbol" (symbol params) ;;
  _ <- requiredString "timeframe" (timeframe params) ;;
  _ <- requiredString "market_type" (market_type params) ;;
  if negb (existsb (fun m => opt_string_eqb (market_type params) (Some m)) VALID_MARKET_TYPES)
  then Throw "market_type must be one of: spot, futures, perpetual"
  else
    match start_date params, end_date params with
    | Some startDate, Some endDate =>
        match getTime startDate, getTime endDate with
        | Some start, Some end_ =>
            if (end_ <? start)%Z
            then Throw "start_date must be less than or equal to end_date"
            else
              if match initial_cash params with
                 | Undefined | Null => false
                 | NaN => true
                 | Num c => Qlt_bool c 0
                 end
              then Throw "initial_cash must be a non-negative number"
              else Ok tt
        | _, _ => Throw "start_date and end_date must be valid date values"
        end
    | _, _ => Throw "start_date and end_date are required"
    end.

(** [events.map((event) => normalizeEvent(event))] *)
Fixpoint normalizeAll (events : list RawEvent) : result (list Event) :=
  match events with
  | [] => Ok []
  | event :: rest =>
      ev <- normalizeEvent event ;;
      evs <- normalizeAll rest ;;
      Ok (ev :: evs)
  end.

(** [loadData(params)], given the array [adapter.load(params)] resolved to *)
Definition loadData (params : Params) (loaded : list RawEvent) : result (list Event) :=
  _ <- validateRunParams params ;;
  normalizeAll loaded.

(** *** The processing loop of [run] *)

Definition shift (e : Engine) (rest : list Event) : Engine :=
  set_queue e rest (seq_counter e).

Fixpoint run_loop (fuel : nat) (e : Engine) : Outcome Engine :=
  match _eventQueue e with
  | [] => Done e
  | nextEvent :: rest =>
      match fuel with
      | O => OutOfFuel e
      | Datatypes.S fuel' =>
          match processEvent (shift e rest) nextEvent with
          | Throw message => Failed message
          | Ok e' =>
              let e' := push_history e' (nextEvent, _eventQueue e') in
              if liquidated (state e') then Done e' else run_loop fuel' e'
          end
      end
  end.

(** The statements of [run] up to its loop. *)
Definition prepare (e : Engine) (params : Params) (loaded : list RawEvent)
  : result Engine :=
  _ <- validateRunParams params ;;
  let e := reset e in
  let e :=
    mkEngine (randomSeed e) (_rng e) (state e) (_eventQueue e) (seq_counter e)
      (_tradeLogs e) (_equitySeries e) (_orders e) (Some params)
      (_nextFundingTimestamp e) (strategyState e) (executionState e) (history e) in
  let e :=
    match initial_cash params with
    | Undefined | Null => e
    | c => set_state e (with_equity (with_cash (state e) c) c (unrealizedPnl (state e)))
    end in
  let e :=
    match random_seed params with
    | Some seed =>
        mkEngine seed (Rng.createSeededRng seed) (state e) (_eventQueue e) (seq_counter e)
          (_tradeLogs e) (_equitySeries e) (_orders e) (_currentConfig e)
          (_nextFundingTimestamp e) (strategyState e) (executionState e) (history e)
    | None => e
    end in
  events <- loadData params loaded ;;
  enqueueEvents e (map to_raw events).

Definition run_engine (fuel : nat) (e : Engine) (params : Params)
    (loaded : list RawEvent) : Outcome Engine :=
  match prepare e params loaded with
  | Throw message => Failed message
  | Ok e => run_loop fuel e
  end.

Definition resultOf (e : Engine) : RunResult :=
  {| tradeLogs := _tradeLogs e; equitySeries := _equitySeries e;
     finalState := state e |}.

Definition map_outcome {A B} (f : A -> B) (o : Outcome A) : Outcome B :=
  match o with
  | Done a => Done (f a)
  | Failed m => Failed m
  | OutOfFuel a => OutOfFuel (f a)
  end.

(** [run(params)] on an engine whose adapter resolves to [loaded].  [fuel]
    bounds the number of events the loop may dispatch. *)
Definition run (fuel : nat) (e : Engine) (params : Params) (loaded : list RawEvent)
  : Outcome RunResult :=
  map_outcome resultOf (run_engine fuel e params loaded).

End BacktestEngine.

Arguments run_loop {S X} strategy execution fuel e.
Arguments run {S X} strategy execution fuel e params loaded.

(** *** The default collaborators *)

(** A strategy that never emits an event, as the unit tests use. *)
Definition noopStrategy : Strategy unit :=
  {| onEvent := fun s _ _ => Ret (s, []) |}.

Definition orderEvent (type : string) (timestamp : Z) (orderId : string)
    (side : option string) (qty price : jsval) : RawEvent :=
  {| raw_type := Some type;
     raw_timestamp := Some timestamp;
     raw_payload :=
       {| price := price; close := Undefined; mark_price := Undefined;
          markPrice := Undefined; side := side; ev_qty := qty;
          order_id := Some orderId; reason := None;
          amount := Undefined; funding_rate := Undefined;
          interval_multiplier := Undefined; position_notional := Undefined;
          initial_margin := Undefined; margin := Undefined;
          maintenance_margin := Undefined; unrealized_pnl := Undefined;
          trigger := None; penalty := Undefined |} |}.

(** [createDefaultExecution()]; the private state is [orderCounter]. *)
Definition createDefaultExecution : ExecutionModel Z :=
  {| onSignal := fun orderCounter signal ctx =>
       let p := payload signal in
       if match side p with Some s => String.eqb s EmptyString | None => true end
          || negb (truthy (ev_qty p))
       then Ret (orderCounter, [])
       else
         let orderCounter := (orderCounter + 1)%Z in
         let orderId := ("order-" ++ string_of_Z orderCounter)%string in
         CallRandom (fun r1 =>
         CallRandom (fun r2 =>
           let latencyMs := Math_floor (r1 * 100) in
           let slippageBps := (r2 - (1 # 2)) * 10 in
           let refPrice := nullish (price p) (nullish (lastPrice (ctx_state ctx)) (Num 0)) in
           let fillPrice := Js.mul refPrice (Num (1 + slippageBps / 10000)) in
           let baseTimestamp := normalizeTimestamp (timestamp signal) in
           Ret (orderCounter,
                [ orderEvent "order_submitted" baseTimestamp orderId (side p)
                    (ev_qty p) refPrice;
                  orderEvent "order_filled" (baseTimestamp + latencyMs)%Z orderId (side p)
                    (ev_qty p) fillPrice ])));
     onMarketEvent := fun orderCounter _ _ => Ret (orderCounter, []) |}.

(* ================================================================== *)
(** ** Vocabulary of the statements *)
(* ================================================================== *)

(** A deadline that is set and has been reached at [now]. *)
Definition due (deadline : option Z) (now : Z) : Prop :=
  exists t, deadline = Some t /\ (t <= now)%Z.

(** [price] is a multiple of the tick size, or there is no usable tick. *)
Definition on_tick_grid (price : Q) (tickSize : option Q) : Prop :=
  match tickSize with
  | Some s => s <= 0 \/ exists k : Z, price == inject_Z k * s
  | None => True
  end.

(** What every fill pushed by the loop of [_bookFill] looks like. *)
Definition book_fill_ok (c : Fill.Constraints) (fs : Fill.Fees) (side : string)
    (limitPrice : option Q) (orderId : string) (forceTaker : bool)
    (all : list Fill.Level) (f : Fill.Fill) : Prop :=
  Fill.f_orderId f = orderId
  /\ Fill.f_side f = side
  /\ (exists level, In level all
                    /\ Fill.priceMatch side limitPrice level = true
                    /\ Fill.f_price f = Fill.roundToTick (Fill.l_price level) (Fill.tickSize c))
  /\ Fill.f_fee f = Fill.f_executedNotional f * Fill.f_feeRate f
  /\ Fill.f_feeRate f = (if forceTaker then Fill.taker fs else Fill.maker fs)
  /\ Fill.f_liquidity f = (if forceTaker then "taker" else "maker")%string.


(** The reasons [_validateOrder] rejects with. *)
Definition validation_reasons : list string :=
  [ "invalid_qty"; "min_qty_violation"; "max_qty_violation"; "min_notional_violation" ]%string.

(** The quantity checks of [_validateOrder] pass for [rounded]. *)
Definition quantity_accepted (c : Fill.Constraints) (rounded : Q) : Prop :=
  0 < rounded
  /\ (forall m, Fill.minQty c = Some m -> m <= rounded)
  /\ (forall m, Fill.maxQty c = Some m -> rounded <= m).

(** The scheduling key of an event: (timestamp, priority, sequence). *)
Definition seq_of (ev : Event) : Z := opt_default (_seq ev) 0%Z.

Definition event_key (ev : Event) : Z * Property * Z :=
  (timestamp ev, priority ev, seq_of ev).

(** Priorities are ordered as numbers; an inherited member is below or
    above none. *)
Definition priority_lt (a b : Property) : Prop :=
  match a, b with
  | Numeric x, Numeric y => (x < y)%Z
  | _, _ => False
  end.


(** [a]'s key is less than or equal to [b]'s, lexicographically. *)
Definition key_le (a b : Event) : Prop :=
  (timestamp a < timestamp b)%Z
  \/ (timestamp a = timestamp b
      /\ (priority_lt (priority a) (priority b)
          \/ (priority a = priority b /\ (seq_of a <= seq_of b)%Z))).


(** The priority of the event is a number: its type is a key of the
    priority table or names no member of [Object.prototype]. *)
Definition numbered (ev : Event) : bool :=
  match priority ev with
  | Numeric _ => true
  | Inherited _ => false
  end.

(** The events the loop of [run] has dispatched, oldest first. *)
Definition dispatched {S X : Type} (e : Engine S X) : list Event :=
  map fst (history e).


(** A flat position carries a zero average price. *)
Definition flat_means_zero_avg (qty avgPrice : jsval) : Prop :=
  strict_eq qty (Num 0) = true -> strict_eq avgPrice (Num 0) = true.

Definition equity_entry_ok (entry : EquityEntry) : Prop :=
  flat_means_zero_avg (position_qty entry) (position_avg_price entry).

(** [e'] differs from [e] at most in the queue, the sequence counter, the
    random source, the funding boundary and the collaborators' private
    state: the account, the logs and the run configuration are the same. *)
Definition same_account {S X : Type} (e e' : Engine S X) : Prop :=
  state e' = state e
  /\ _tradeLogs e' = _tradeLogs e
  /\ _equitySeries e' = _equitySeries e
  /\ _orders e' = _orders e
  /\ _currentConfig e' = _currentConfig e
  /\ history e' = history e.

(** An event object that [normalizeEvent] accepts. *)
Definition well_formed (event : RawEvent) : Prop :=
  (exists type, raw_type event = Some type /\ type <> EmptyString)
  /\ (exists ts, raw_timestamp event = Some ts).

(** A finished or interrupted run that reached the engine [e']. *)
Definition reaches {A : Type} (o : Outcome A) (a : A) : Prop :=
  o = Done a \/ o = OutOfFuel a.

(** The normalized event [ev] was made from the event object [raw]. *)
Definition comes_from (raw : RawEvent) (ev : Event) : Prop :=
  raw_type raw = Some (type_ ev)
  /\ raw_timestamp raw = Some (timestamp ev)
  /\ raw_payload raw = payload ev.

Definition queue_sorted {S X : Type} (e : Engine S X) : Prop :=
  StronglySorted key_le (_eventQueue e).

(** What [enqueueEvents] keeps whatever it is given: the queue is in key
    order if the priority of every pending event is a number. *)
Definition queue_ordered {S X : Type} (e : Engine S X) : Prop :=
  forallb numbered (_eventQueue e) = true -> queue_sorted e.

Definition position_ok (st : State) : Prop :=
  flat_means_zero_avg (qty (position st)) (avgPrice (position st)).

(** What every handler and every scheduling step keeps: a queue in key
    order, as far as the priorities are numbers, stays so; the dispatch
    history, the equity series and the run configuration are untouched;
    and a flat position keeps a zero average price. *)
Definition step_facts {S X : Type} (e e' : Engine S X) : Prop :=
  (queue_ordered e -> queue_ordered e')
  /\ history e' = history e
  /\ _equitySeries e' = _equitySeries e
  /\ _currentConfig e' = _currentConfig e
  /\ (position_ok (state e) -> position_ok (state e')).

(** Steps that leave the account alone and keep the queue in order. *)
Definition quiet {S X : Type} (e e' : Engine S X) : Prop :=
  same_account e e' /\ (queue_ordered e -> queue_ordered e').

(** What a liquidated event takes from cash: [|penalty|] when the event
    carries a non-zero penalty, nothing otherwise. *)
Definition penalty_due (penalty : jsval) : Q :=
  if truthy penalty then Qabs (number_or_0 penalty) else 0.

(** The value a run ended with, or [default] for a failed run. *)
Definition outcome_value {A : Type} (default : A) (o : Outcome A) : A :=
  match o with
  | Done a => a
  | OutOfFuel a => a
  | Failed _ => default
  end.

(* ================================================================== *)
(** ** Inputs of the worked examples *)
(* ================================================================== *)

Definition tickEvent (timestamp : Z) (price : Q) : RawEvent :=
  {| raw_type := Some "tick"%string;
     raw_timestamp := Some timestamp;
     raw_payload :=
       mkPayload (Num price) Undefined Undefined Undefined None Undefined None None
         Undefined Undefined Undefined Undefined Undefined Undefined Undefined
         Undefined None Undefined |}.

Definition candleEvent (timestamp : Z) (close : Q) : RawEvent :=
  {| raw_type := Some "candle"%string;
     raw_timestamp := Some timestamp;
     raw_payload :=
       mkPayload Undefined (Num close) Undefined Undefined None Undefined None None
         Undefined Undefined Undefined Undefined Undefined Undefined Undefined
         Undefined None Undefined |}.

Definition marginInput (timestamp : Z) (margin : Q) : RawEvent :=
  {| raw_type := Some "margin_update"%string;
     raw_timestamp := Some timestamp;
     raw_payload :=
       mkPayload Undefined Undefined Undefined Undefined None Undefined None None
         Undefined Undefined Undefined Undefined Undefined (Num margin) Undefined
         Undefined None Undefined |}.

Definition liquidationInput (timestamp : Z) (price : Q) : RawEvent :=
  {| raw_type := Some "liquidated"%string;
     raw_timestamp := Some timestamp;
     raw_payload :=
       mkPayload (Num price) Undefined Undefined Undefined None Undefined None
         (Some "maintenance_margin_breach"%string)
         Undefined Undefined Undefined Undefined Undefined Undefined Undefined
         Undefined None Undefined |}.

Definition signalEvent (timestamp : Z) (side : string) (qty price : Q) : RawEvent :=
  {| raw_type := Some "signal_generated"%string;
     raw_timestamp := Some timestamp;
     raw_payload :=
       mkPayload (Num price) Undefined Undefined Undefined (Some side) (Num qty) None None
         Undefined Undefined Undefined Undefined Undefined Undefined Undefined
         Undefined None Undefined |}.

(** Run parameters of the unit tests: a spot market, initial cash 1000. *)
Definition spotParams : Params :=
  mkParams (Some "BTC/USDT"%string) (Some "1m"%string) (Some "spot"%string)
    (Some 0%Z) (Some 100%Z) (Num 1000) None Undefined None Undefined Undefined Undefined.

(** A perpetual market with seed 42, funding of 0.01 every 10 ms, margin
    rates 0.1 and 0.05 and a liquidation penalty rate of 0.01. *)
Definition perpetualParams : Params :=
  mkParams (Some "BTC/USDT"%string) (Some "1m"%string) (Some "perpetual"%string)
    (Some 0%Z) (Some 1000%Z) (Num 1000) (Some 42%Z) (Num (1 # 100)) (Some 10%Z)
    (Num (1 # 10)) (Num (5 # 100)) (Num (1 # 100)).

(** A fresh engine with the default execution model and no strategy state. *)
Definition freshEngine : Engine unit Z := new_BacktestEngine None tt 0%Z.

(** The events of the unit test on liquidation close-out. *)
Definition closeoutEvents : list RawEvent :=
  [ candleEvent 1 100;
    orderEvent "order_filled" 2 "x1" (Some "buy"%string) (Num 1) (Num 100);
    marginInput 3 50;
    liquidationInput 4 90 ].

(** A candle and a buy signal at time 1, then ticks 10 ms apart: the
    default execution model fills the order, and funding and margin events
    are enqueued as the ticks are processed. *)
Definition steadyEvents : list RawEvent :=
  [ candleEvent 1 100;
    signalEvent 1 "buy" (1 # 10) 100;
    tickEvent 100 101;
    tickEvent 110 102;
    tickEvent 120 103 ].


(** Buying 2 at 100, then selling 1 at 200. *)
Definition reducingFills : list RawEvent :=
  [ orderEvent "order_filled" 0 "x1" (Some "buy"%string) (Num 2) (Num 100);
    orderEvent "order_filled" 1 "x2" (Some "sell"%string) (Num 1) (Num 200) ].

(** An engine in mid-run: long 1 @ 100 with cash 900, a liquidated event
    at the head of the queue and a tick pending behind it. *)
Definition engineBeforeLiquidation : Engine unit Z :=
  let liq :=
    mkEvent "liquidated" 4 80 (Some 3%Z) (raw_payload (liquidationInput 4 90)) in
  let tick := mkEvent "tick" 5 10 (Some 4%Z) (raw_payload (tickEvent 5 95)) in
  mkEngine 1%Z (Rng.createSeededRng 1)
    {| cash := Num 900; equity := Num 900; s_margin := Num 0;
       maintenanceMargin := Num 0; unrealizedPnl := Num 0;
       lastPrice := Num 100; s_markPrice := Num 100;
       position := {| qty := Num 1; avgPrice := Num 100 |};
       liquidated := false |}
    [liq; tick] 5%Z [] [] [] (Some spotParams) None tt 0%Z [].


Definition markedTick (timestamp : Z) (price mark : Q) : RawEvent :=
  {| raw_type := Some "tick"%string;
     raw_timestamp := Some timestamp;
     raw_payload :=
       mkPayload (Num price) Undefined (Num mark) Undefined None Undefined None None
         Undefined Undefined Undefined Undefined Undefined Undefined Undefined
         Undefined None Undefined |}.

(** A long of 9 @ 100 bought with cash 1000, then the mark price falls to
    90: cash 100 plus the unrealized loss of 90 is below the maintenance
    margin of 40.5.  A further tick follows. *)
Definition marginCallEvents : list RawEvent :=
  [ markedTick 1 100 100;
    orderEvent "order_filled" 2 "x1" (Some "buy"%string) (Num 9) (Num 100);
    markedTick 3 90 90;
    markedTick 4 95 95 ].

Definition log_kind (entry : LogEntry) : Z * string :=
  match entry with
  | LogOrderSubmitted t ty _ _ _ _ => (t, ty)
  | LogOrderFilled t ty _ _ _ _ _ _ => (t, ty)
  | LogOrderCancelled t ty _ _ => (t, ty)
  | LogFundingPayment t ty _ _ _ => (t, ty)
  | LogMarginUpdate t ty _ _ _ _ _ _ => (t, ty)
  | LogLiquidated t ty _ _ => (t, ty)
  end.

(* ================================================================== *)
(** ** Vocabulary of the fill model's accounting *)
(* ================================================================== *)



(** [a] is at least as good a price as [b] for the taker of [side]. *)
Definition price_priority (side : string) (a b : Q) : Prop :=
  if String.eqb side "buy" then a <= b else b <= a.

(** The side of the book an order of [side] executes against, as passed. *)
Definition opposite_levels (side : string) (book : option Fill.Book) : list Fill.Level :=
  match book with
  | Some b => opt_default (if String.eqb side "buy" then Fill.asks b else Fill.bids b) []
  | None => []
  end.



(** A call of one of the public methods of [FillModel]. *)
Inductive Call : Type :=
| CallMarketOrder (side : string) (qty : Q) (timestamp : Z) (orderId : option string)
    (orderbook : option Fill.Book) (market : option Fill.Market)
    (slippageModel : option Fill.SlippageModel)
| CallLimitOrder (side : string) (qty price : Q) (mode : option string)
    (ttlMs : option Z) (timestamp : Z) (orderId : option string)
| CallCancel (orderId : string) (timestamp : Z) (latencyMs : option Z)
| CallMarketEvent (marketEvent : Fill.MarketEvent).

(** The model after a call, whatever the call returned. *)
Definition serve (M : Fill.FillModel) (call : Call) : Fill.FillModel :=
  match call with
  | CallMarketOrder side qty timestamp orderId orderbook market slippageModel =>
      fst (Fill.executeMarketOrder M side qty timestamp orderId orderbook market
             slippageModel)
  | CallLimitOrder side qty price mode ttlMs timestamp orderId =>
      fst (Fill.submitLimitOrder M side qty price mode ttlMs timestamp orderId)
  | CallCancel orderId timestamp latencyMs =>
      fst (Fill.requestCancel M orderId timestamp latencyMs)
  | CallMarketEvent marketEvent => fst (fst (Fill.processMarketEvent M marketEvent))
  end.

(** The order, the fills and the cancellations one evaluation returns. *)
Definition evaluated_order (r : Fill.FillModel * Fill.Order * list Fill.Fill
                                * list Fill.Cancellation) : Fill.Order :=
  snd (fst (fst r)).

Definition evaluated_fills (r : Fill.FillModel * Fill.Order * list Fill.Fill
                                * list Fill.Cancellation) : list Fill.Fill :=
  snd (fst r).

Definition evaluated_cancellations (r : Fill.FillModel * Fill.Order * list Fill.Fill
                                        * list Fill.Cancellation)
  : list Fill.Cancellation :=
  snd r.

(** An order that a market event at time [now] evaluates: open and past
    its activation time. *)
Definition live (o : Fill.Order) (now : Z) : Prop :=
  Fill.o_status o = "open"%string /\ (Fill.o_activeAt o <= now)%Z.

(** A slippage model whose parameters are not negative. *)
Definition nonnegative_slippage (model : Fill.SlippageModel) : Prop :=
  0 <= opt_default (Fill.sm_fixed model) 0
  /\ 0 <= opt_default (Fill.sm_pct model) 0
  /\ 0 <= opt_default (Fill.sm_base model) 0
  /\ 0 <= opt_default (Fill.sm_k model) 0.

(* ================================================================== *)
(** ** Vocabulary of the scheduler's bookkeeping *)
(* ================================================================== *)

(** The sequence numbers [n], [n + 1], ... of [k] events. *)
Fixpoint seqs_from (n : Z) (k : nat) : list (option Z) :=
  match k with
  | O => []
  | Datatypes.S k' => Some n :: seqs_from (n + 1)%Z k'
  end.

(** [e'] is [e] after the events [news] were pushed, in this order, and the
    queue was sorted: the queue holds the old events and the new ones, which
    took the next sequence numbers. *)
Definition enqueued {S X : Type} (e e' : Engine S X) (news : list Event) : Prop :=
  Permutation (_eventQueue e') (_eventQueue e ++ news)
  /\ map _seq news = seqs_from (seq_counter e) (List.length news)
  /\ seq_counter e' = (seq_counter e + Z.of_nat (List.length news))%Z.

(** The events in [done] and the pending ones carry pairwise different
    sequence numbers, all below the counter. *)
Definition seqs_fresh {S X : Type} (e : Engine S X) (done : list Event) : Prop :=
  NoDup (map _seq (done ++ _eventQueue e))
  /\ Forall (fun ev => exists n, _seq ev = Some n /\ (0 <= n < seq_counter e)%Z)
            (done ++ _eventQueue e).

(** The last element of a list, if any. *)
Definition last_error {A : Type} (l : list A) : option A :=
  match rev l with
  | [] => None
  | x :: _ => Some x
  end.

(** An equity entry whose equity is its cash plus the unrealized P&L of
    the position it records, at the mark price it records. *)
Definition entry_balanced (entry : EquityEntry) : Prop :=
  eq_equity entry
  = Js.add (eq_cash entry)
      (Num (Margin.calculateUnrealizedPnl
              {| qty := position_qty entry; avgPrice := position_avg_price entry |}
              (eq_mark_price entry))).

(** The entry shows the account state [st]. *)
Definition entry_of_state (st : State) (entry : EquityEntry) : Prop :=
  eq_equity entry = equity st
  /\ eq_cash entry = cash st
  /\ eq_margin entry = s_margin st
  /\ eq_maintenance_margin entry = maintenanceMargin st
  /\ position_qty entry = qty (position st)
  /\ position_avg_price entry = avgPrice (position st)
  /\ last_price entry = lastPrice st.

Definition equity_shape {S X : Type} (e : Engine S X) : Prop :=
  map eq_timestamp (_equitySeries e) = map timestamp (dispatched e)
  /\ Forall entry_balanced (_equitySeries e)
  /\ forall entry, last_error (_equitySeries e) = Some entry ->
                   entry_of_state (state e) entry.

(** The funding boundaries [next], [next + interval], ..., [k] of them. *)
Fixpoint boundaries (next interval : Z) (k : nat) : list Z :=
  match k with
  | O => []
  | Datatypes.S k' => next :: boundaries (next + interval)%Z interval k'
  end.

(** [funding_interval_ms] of the run configuration, 0 when absent. *)
Definition cfg_interval {S X : Type} (e : Engine S X) : Z :=
  match _currentConfig e with
  | Some cfg => opt_default (funding_interval_ms cfg) 0%Z
  | None => 0%Z
  end.

(** The margin snapshot [queueRiskEvents] takes of the engine. *)
Definition riskSnapshot {S X : Type} (e : Engine S X) : Margin.Snapshot :=
  Margin.calculateMarginSnapshot (position (state e)) (getRiskPrice e)
    (cfg_number e initial_margin_rate) (cfg_number e maintenance_margin_rate).

(** A perpetual-market engine in mid-run: long 9 @ 100 with cash 100, mark
    price 90, the next funding boundary at time 11. *)
Definition engineUnderMargin : Engine unit Z :=
  mkEngine 42%Z (Rng.createSeededRng 42)
    {| cash := Num 100; equity := Num 10; s_margin := Num 0;
       maintenanceMargin := Num 0; unrealizedPnl := Num 0;
       lastPrice := Num 90; s_markPrice := Num 90;
       position := {| qty := Num 9; avgPrice := Num 100 |};
       liquidated := false |}
    [] 7%Z [] [] [] (Some perpetualParams) (Some 11%Z) tt 0%Z [].

(** An event of a type the engine does not know. *)
Definition heartbeatEvent (timestamp : Z) : RawEvent :=
  {| raw_type := Some "heartbeat"%string;
     raw_timestamp := Some timestamp;
     raw_payload := emptyPayload |}.

(** Run parameters that [validateRunParams] accepts: a symbol, a timeframe
    and a market type that are not blank, a known market type, dates within
    the range of [Date] with the start not after the end, and an initial
    cash that is absent or a number that is not negative. *)
Definition valid_params (params : Params) : Prop :=
  (exists s, symbol params = Some s /\ is_blank s = false)
  /\ (exists s, timeframe params = Some s /\ is_blank s = false)
  /\ (exists m, market_type params = Some m /\ In m VALID_MARKET_TYPES)
  /\ (exists a b, start_date params = Some a /\ end_date params = Some b
                   /\ (- 8640000000000000 <= a <= b)%Z
                   /\ (b <= 8640000000000000)%Z)
  /\ match initial_cash params with
     | Num c => 0 <= c
     | NaN => False
     | _ => True
     end.

(** The account a run starts from. *)
Definition openingState (params : Params) : State :=
  match initial_cash params with
  | Undefined | Null => initialState
  | c => with_equity (with_cash initialState c) c (Num 0)
  end.

(** The first [n] numbers drawn from the random source in [state]. *)
Fixpoint draws (state : Z) (n : nat) : list Q :=
  match n with
  | O => []
  | Datatypes.S n' =>
      let '(r, state') := Rng.random state in
      r :: draws state' n'
  end.

(** The character U+00A0, a no-break space, in UTF-8. *)
Definition nbsp : string := String "194"%char (String "160"%char EmptyString).

(** The run parameters of the unit tests with a symbol made of a no-break
    space and a blank, and with an end date one millisecond beyond the
    range of [Date]. *)
Definition blankSymbolParams : Params :=
  mkParams (Some (nbsp ++ " ")%string) (Some "1m"%string) (Some "spot"%string)
    (Some 0%Z) (Some 100%Z) (Num 1000) None Undefined None Undefined Undefined Undefined.

Definition lateEndParams : Params :=
  mkParams (Some "BTC/USDT"%string) (Some "1m"%string) (Some "spot"%string)
    (Some 0%Z) (Some 8640000000000001%Z) (Num 1000) None Undefined None Undefined
    Undefined Undefined.

(** An event whose type is the name of a member of [Object.prototype]. *)
Definition inheritedTypeEvent (timestamp : Z) : RawEvent :=
  {| raw_type := Some "constructor"%string;
     raw_timestamp := Some timestamp;
     raw_payload := emptyPayload |}.

(* ================================================================== *)
(** ** strategies/ema_cross.js *)
(* ================================================================== *)

(** The strategy the command-line runner hands to the engine.  The object's
    configuration and its moving averages are one record, which is the
    private state the engine threads through [onEvent]. *)

Module Ema.

(** [calcEma(prev, price, period)]; the constructor admits positive
    periods only, so [period + 1] is not zero. *)
Definition calcEma (prev : option Q) (price period : Q) : Q :=
  let alpha := 2 / (period + 1) in
  match prev with
  | None => price
  | Some prev => (price * alpha) + (prev * (1 - alpha))
  end.

(** [options.sizing] *)
Record Sizing : Type := mkSizing {
  sz_mode : option string;
  sz_amount : jsval;
  sz_percent : jsval;
  sz_risk_pct : jsval;
}.

Record Options : Type := mkOptions {
  short_period : jsval;
  long_period : jsval;
  stop_loss_pct : jsval;
  take_profit_pct : jsval;
  opt_sizing : option Sizing;
}.

(** The instance fields of [EmaCrossStrategy]. *)
Record EmaCrossStrategy : Type := mkEmaCrossStrategy {
  shortPeriod : Q;
  longPeriod : Q;
  stopLossPct : jsval;
  takeProfitPct : jsval;
  sizing : Sizing;
  fast : option Q;
  slow : option Q;
  prevFast : option Q;
  prevSlow : option Q;
  lastSignal : Z;
}.

(** [Number(v)] as a value: a number or [NaN] *)
Definition Number_ (v : jsval) : jsval := lift1 (fun x => x) v.

(** [a <= b]: false when either side is not a number *)
Definition le := cmp Qle_bool.

(** [new EmaCrossStrategy(options)] *)
Definition new_EmaCrossStrategy (options : Options) : result EmaCrossStrategy :=
  let shortPeriod := Number_ (nullish (short_period options) (Num 9)) in
  let longPeriod := Number_ (nullish (long_period options) (Num 21)) in
  let stopLossPct := Number_ (nullish (stop_loss_pct options) (Num 0)) in
  let takeProfitPct := Number_ (nullish (take_profit_pct options) (Num 0)) in
  let sizing :=
    opt_default (opt_sizing options)
      (mkSizing (Some "fixed_amount"%string) (Num 1) Undefined Undefined) in
  match shortPeriod, longPeriod with
  | Num s, Num l =>
      if Qle_bool s 0 || Qle_bool l 0 || Qle_bool l s
      then Throw "EMA periods must be positive and short_period < long_period"
      else Ok {| shortPeriod := s; longPeriod := l;
                 stopLossPct := stopLossPct; takeProfitPct := takeProfitPct;
                 sizing := sizing;
                 fast := None; slow := None; prevFast := None; prevSlow := None;
                 lastSignal := 0 |}
  | _, _ => Throw "EMA periods must be positive and short_period < long_period"
  end.

(** [_sizeForPrice(price, ctx)], for the finite price [onEvent] passes *)
Definition _sizeForPrice (this : EmaCrossStrategy) (px : Q) (ctx : Context) : jsval :=
  let st := ctx_state ctx in
  let equity := Number_ (nullish (equity st) (nullish (cash st) (Num 0))) in
  let cash := Number_ (nullish (cash st) (Num 0)) in
  let mode :=
    match sz_mode (sizing this) with
    | Some m => if String.eqb m EmptyString then "fixed_amount"%string else m
    | None => "fixed_amount"%string
    end in
  if String.eqb mode "fixed_amount" then
    Number_ (nullish (sz_amount (sizing this)) (Num 0))
  else if String.eqb mode "percent_equity" then
    let pct := Number_ (nullish (sz_percent (sizing this)) (Num 0)) in
    if Qle_bool px 0 then Num 0
    else Js.div (Js.mul equity pct) (Num px)
  else if String.eqb mode "risk_per_trade" then
    let riskPct := Number_ (nullish (sz_risk_pct (sizing this)) (Num 0)) in
    let stopPct := Number_ (stopLossPct this) in
    if Qle_bool px 0 || le stopPct (Num 0) then Num 0
    else
      let riskBudget :=
        lift1 (Qmax_js 0) (Js.mul (if truthy cash then cash else equity) riskPct) in
      let lossPerUnit := Js.mul (Num px) stopPct in
      Js.div riskBudget lossPerUnit
  else Num 0.

(** The event object both kinds of signal are built as. *)
Definition signal (timestamp : Z) (side : string) (qty : jsval) (reason : string) (px : Q)
  : RawEvent :=
  {| raw_type := Some "signal_generated"%string;
     raw_timestamp := Some timestamp;
     raw_payload :=
       mkPayload (Num px) Undefined Undefined Undefined (Some side) qty None (Some reason)
         Undefined Undefined Undefined Undefined Undefined Undefined Undefined
         Undefined None Undefined |}.

(** [_stopTakeSignal(price, timestamp, ctx)]; [None] is [null]. *)
Definition _stopTakeSignal (this : EmaCrossStrategy) (px : Q) (timestamp : Z)
    (ctx : Context) : option RawEvent :=
  let pos := position (ctx_state ctx) in
  if strict_eq (qty pos) (Num 0) || negb (isFinite (avgPrice pos)) then None
  else if Js.gt (qty pos) (Num 0) then
    let stop :=
      Js.gt (stopLossPct this) (Num 0)
      && le (Num px) (Js.mul (avgPrice pos) (Js.sub (Num 1) (stopLossPct this))) in
    let take :=
      Js.gt (takeProfitPct this) (Num 0)
      && le (Js.mul (avgPrice pos) (Js.add (Num 1) (takeProfitPct this))) (Num px) in
    if stop || take
    then Some (signal timestamp "sell" (Js.abs (qty pos))
                 (if stop then "stop_loss" else "take_profit") px)
    else None
  else if Js.lt (qty pos) (Num 0) then
    let stop :=
      Js.gt (stopLossPct this) (Num 0)
      && le (Js.mul (avgPrice pos) (Js.add (Num 1) (stopLossPct this))) (Num px) in
    let take :=
      Js.gt (takeProfitPct this) (Num 0)
      && le (Num px) (Js.mul (avgPrice pos) (Js.sub (Num 1) (takeProfitPct this))) in
    if stop || take
    then Some (signal timestamp "buy" (Js.abs (qty pos))
                 (if stop then "stop_loss" else "take_profit") px)
    else None
  else None.

Definition set_averages (this : EmaCrossStrategy)
    (fast' slow' prevFast' prevSlow' : option Q) : EmaCrossStrategy :=
  {| shortPeriod := shortPeriod this; longPeriod := longPeriod this;
     stopLossPct := stopLossPct this; takeProfitPct := takeProfitPct this;
     sizing := sizing this;
     fast := fast'; slow := slow'; prevFast := prevFast'; prevSlow := prevSlow';
     lastSignal := lastSignal this |}.

Definition set_lastSignal (this : EmaCrossStrategy) (direction : Z) : EmaCrossStrategy :=
  {| shortPeriod := shortPeriod this; longPeriod := longPeriod this;
     stopLossPct := stopLossPct this; takeProfitPct := takeProfitPct this;
     sizing := sizing this;
     fast := fast this; slow := slow this;
     prevFast := prevFast this; prevSlow := prevSlow this;
     lastSignal := direction |}.

(** [onEvent(event, ctx)]: the object after the call and the array
    returned. *)
Definition onEvent (this : EmaCrossStrategy) (event : Event) (ctx : Context)
  : EmaCrossStrategy * list RawEvent :=
  if negb (String.eqb (type_ event) "candle") && negb (String.eqb (type_ event) "tick")
  then (this, [])
  else
    match Number_ (nullish (close (payload event)) (price (payload event))) with
    | Num px =>
        if Qle_bool px 0 then (this, [])
        else
          match _stopTakeSignal this px (timestamp event) ctx with
          | Some stopTake => (this, [stopTake])
          | None =>
              let fast' := calcEma (fast this) px (shortPeriod this) in
              let slow' := calcEma (slow this) px (longPeriod this) in
              let this :=
                set_averages this (Some fast') (Some slow') (fast this) (slow this) in
              match prevFast this, prevSlow this with
              | Some pf, Some ps =>
                  let crossedUp := Qle_bool pf ps && Qlt_bool slow' fast' in
                  let crossedDown := Qle_bool ps pf && Qlt_bool fast' slow' in
                  if negb crossedUp && negb crossedDown then (this, [])
                  else
                    let direction := if crossedUp then 1%Z else (-1)%Z in
                    if (direction =? lastSignal this)%Z then (this, [])
                    else
                      let size := _sizeForPrice this px ctx in
                      if negb (isFinite size) || le size (Num 0) then (this, [])
                      else
                        (set_lastSignal this direction,
                         [ signal (timestamp event)
                             (if crossedUp then "buy" else "sell") size
                             (if crossedUp then "ema_cross_up" else "ema_cross_down")
                             px ])
              | _, _ => (this, [])
              end
          end
    | _ => (this, [])
    end.

End Ema.

(** The strategy as the engine calls it. *)
Definition emaCrossStrategy : Strategy Ema.EmaCrossStrategy :=
  {| onEvent := fun this event ctx => Ret (Ema.onEvent this event ctx) |}.

(** Vocabulary of the strategy's properties. *)

(** The signal comes from a crossing of the moving averages. *)
Definition is_cross (raw : RawEvent) : bool :=
  opt_string_eqb (reason (raw_payload raw)) (Some "ema_cross_up"%string)
  || opt_string_eqb (reason (raw_payload raw)) (Some "ema_cross_down"%string).

(** 1 for a buy signal, -1 for any other *)
Definition direction_of (raw : RawEvent) : Z :=
  if opt_string_eqb (side (raw_payload raw)) (Some "buy"%string) then 1%Z else (-1)%Z.

(** The strategy object after a sequence of calls of [onEvent], and the
    signals returned, in order. *)
Fixpoint feed (this : Ema.EmaCrossStrategy) (inputs : list (Event * Context))
  : Ema.EmaCrossStrategy * list RawEvent :=
  match inputs with
  | [] => (this, [])
  | (event, ctx) :: rest =>
      let '(this1, out) := Ema.onEvent this event ctx in
      let '(this2, outs) := feed this1 rest in
      (this2, out ++ outs)
  end.

(** No direction in [dirs] repeats the one before it, [last] being the one
    before the first. *)
Fixpoint alternating (last : Z) (dirs : list Z) : Prop :=
  match dirs with
  | [] => True
  | d :: rest => d <> last /\ alternating d rest
  end.

(** A signal the default execution model turns into an order: a signal
    event at [timestamp] with a side, a positive quantity and a positive
    price. *)
Definition tradable_signal (timestamp : Z) (raw : RawEvent) : Prop :=
  raw_type raw = Some "signal_generated"%string
  /\ raw_timestamp raw = Some timestamp
  /\ (side (raw_payload raw) = Some "buy"%string
      \/ side (raw_payload raw) = Some "sell"%string)
  /\ (exists q, ev_qty (raw_payload raw) = Num q /\ 0 < q)
  /\ (exists px, price (raw_payload raw) = Num px /\ 0 < px).

(** The configuration of the strategy object, which [onEvent] never
    changes. *)
Definition same_settings (a b : Ema.EmaCrossStrategy) : Prop :=
  Ema.shortPeriod b = Ema.shortPeriod a
  /\ Ema.longPeriod b = Ema.longPeriod a
  /\ Ema.stopLossPct b = Ema.stopLossPct a
  /\ Ema.takeProfitPct b = Ema.takeProfitPct a
  /\ Ema.sizing b = Ema.sizing a.

(* ================================================================== *)
(** ** data/utils/aggregate_candles.js *)
(* ================================================================== *)

(** Ticks are aggregated into the candles a run is fed with.  Timestamps
    are integer milliseconds, as in the engine; a missing timestamp is
    [None]. *)

Module Candles.

Record Tick : Type := mkTick {
  tk_timestamp : option Z;
  tk_price : jsval;
  tk_volume : jsval;
}.

(** A tick after [normalizeTick]. *)
Record NormalTick : Type := mkNormalTick {
  nt_timestamp : Z;
  nt_price : Q;
  nt_volume : Q;
}.

(** The timestamp of a candle is the start of its window, or NaN, here
    [None]. *)
Record Candle : Type := mkCandle {
  cd_timestamp : option Z;
  cd_open : Q;
  cd_high : Q;
  cd_low : Q;
  cd_close : Q;
  cd_volume : Q;
}.

(** The own properties of the object literal [TIMEFRAME_TO_MS]; the code
    reads it as [TIMEFRAME_TO_MS[timeframe]], here [getProperty
    TIMEFRAME_TO_MS timeframe]. *)
Definition TIMEFRAME_TO_MS (timeframe : string) : option Z :=
  if String.eqb timeframe "1m" then Some (60 * 1000)%Z
  else if String.eqb timeframe "5m" then Some (5 * 60 * 1000)%Z
  else if String.eqb timeframe "1h" then Some (60 * 60 * 1000)%Z
  else if String.eqb timeframe "1d" then Some (24 * 60 * 60 * 1000)%Z
  else None.

Definition normalizeTimestamp (timestamp : option Z) : result Z :=
  match timestamp with
  | Some t => Ok t
  | None => Throw "Invalid timestamp: undefined"
  end.

Definition normalizeTick (tick : Tick) : result NormalTick :=
  match tk_price tick with
  | Num price =>
      timestamp <- normalizeTimestamp (tk_timestamp tick) ;;
      let volume :=
        match tk_volume tick with
        | Undefined | Null => Num 0
        | v => v
        end in
      match volume with
      | Num volume =>
          if Qlt_bool volume 0
          then Throw "tick.volume must be a non-negative number when provided"
          else Ok {| nt_timestamp := timestamp; nt_price := price; nt_volume := volume |}
      | _ => Throw "tick.volume must be a non-negative number when provided"
      end
  | _ => Throw "tick.price must be a finite number"
  end.

(** [ticks.map(normalizeTick)]: the first tick that fails throws. *)
Fixpoint normalizeTicks (ticks : list Tick) : result (list NormalTick) :=
  match ticks with
  | [] => Ok []
  | tick :: rest =>
      t <- normalizeTick tick ;;
      ts <- normalizeTicks rest ;;
      Ok (t :: ts)
  end.

(** [Math.floor(tick.timestamp / windowMs) * windowMs], which is NaN for
    a [windowMs] that is no number *)
Definition bucketStart (windowMs : Property) (tick : NormalTick) : option Z :=
  match windowMs with
  | Numeric w => Some (nt_timestamp tick / w * w)%Z
  | Inherited _ => None
  end.

(** [current.timestamp !== bucketStart] negated: NaN differs from every
    value, itself included. *)
Definition same_bucket (a b : option Z) : bool :=
  match a, b with
  | Some x, Some y => (x =? y)%Z
  | _, _ => false
  end.

Definition openCandle (bucket : option Z) (tick : NormalTick) : Candle :=
  {| cd_timestamp := bucket;
     cd_open := nt_price tick; cd_high := nt_price tick; cd_low := nt_price tick;
     cd_close := nt_price tick; cd_volume := nt_volume tick |}.

(** The updates of [current] for a tick of its bucket. *)
Definition extend (current : Candle) (tick : NormalTick) : Candle :=
  {| cd_timestamp := cd_timestamp current;
     cd_open := cd_open current;
     cd_high := Qmax_js (cd_high current) (nt_price tick);
     cd_low := Qmin_js (cd_low current) (nt_price tick);
     cd_close := nt_price tick;
     cd_volume := cd_volume current + nt_volume tick |}.

(** The loop over the sorted ticks.  [current] is the candle pushed last,
    which the loop goes on updating in place: [candles] holds the candles
    pushed before it, and the array returned ends with [current]. *)
Fixpoint aggregate_loop (windowMs : Property) (ticks : list NormalTick)
    (candles : list Candle) (current : option Candle) : list Candle :=
  match ticks with
  | [] => candles ++ match current with Some c => [c] | None => [] end
  | tick :: rest =>
      let bucket := bucketStart windowMs tick in
      match current with
      | Some c =>
          if same_bucket (cd_timestamp c) bucket
          then aggregate_loop windowMs rest candles (Some (extend c tick))
          else aggregate_loop windowMs rest (candles ++ [c]) (Some (openCandle bucket tick))
      | None => aggregate_loop windowMs rest candles (Some (openCandle bucket tick))
      end
  end.

Definition aggregateCandlesFromTicks (ticks : list Tick) (timeframe : string)
  : result (list Candle) :=
  match getProperty TIMEFRAME_TO_MS timeframe with
  | None => Throw ("Unsupported timeframe: " ++ timeframe)
  | Some windowMs =>
      normalized <- normalizeTicks ticks ;;
      let sortedTicks :=
        js_sort (fun a b => (nt_timestamp a - nt_timestamp b <? 0)%Z) normalized in
      Ok (aggregate_loop windowMs sortedTicks [] None)
  end.

End Candles.

(** Vocabulary of the candle properties. *)

(** A candle whose open and close lie between its low and its high, with a
    volume that is not negative, at the start of a window. *)
Definition candle_ok (windowMs : Z) (c : Candles.Candle) : Prop :=
  Candles.cd_low c <= Candles.cd_open c <= Candles.cd_high c
  /\ Candles.cd_low c <= Candles.cd_close c <= Candles.cd_high c
  /\ 0 <= Candles.cd_volume c
  /\ exists start, Candles.cd_timestamp c = Some start /\ (start mod windowMs = 0)%Z.

(** The candle of the window the tick falls in, spanning its price. *)
Definition covers (windowMs : Z) (c : Candles.Candle) (tick : Candles.NormalTick) : Prop :=
  (exists start,
      Candles.cd_timestamp c = Some start
      /\ (start <= Candles.nt_timestamp tick < start + windowMs)%Z)
  /\ Candles.cd_low c <= Candles.nt_price tick <= Candles.cd_high c.

(** Window starts in strictly ascending order, none of them NaN. *)
Definition starts_before (a b : option Z) : Prop :=
  match a, b with
  | Some x, Some y => (x < y)%Z
  | _, _ => False
  end.

(** The start of a candle's window, 0 for a candle stamped NaN. *)
Definition window_start (c : Candles.Candle) : Z :=
  opt_default (Candles.cd_timestamp c) 0%Z.

Definition total_volume (cs : list Candles.Candle) : Q :=
  fold_right (fun c acc => Candles.cd_volume c + acc) 0 cs.

Definition tick_volume (ts : list Candles.NormalTick) : Q :=
  fold_right (fun t acc => Candles.nt_volume t + acc) 0 ts.

(** The candle that stands for [c] in the output: same window, a range
    that includes the range of [c]. *)
Definition widens (c c' : Candles.Candle) : Prop :=
  Candles.cd_timestamp c' = Candles.cd_timestamp c
  /\ Candles.cd_low c' <= Candles.cd_low c
  /\ Candles.cd_high c <= Candles.cd_high c'.

(** The normalized tick [t] is the tick [tick] with its defaults filled
    in. *)
Definition normal_of (tick : Candles.Tick) (t : Candles.NormalTick) : Prop :=
  Candles.tk_timestamp tick = Some (Candles.nt_timestamp t)
  /\ Candles.tk_price tick = Num (Candles.nt_price t)
  /\ 0 <= Candles.nt_volume t
  /\ match Candles.tk_volume tick with
     | Undefined | Null => Candles.nt_volume t = 0
     | v => v = Num (Candles.nt_volume t)
     end.

(* ================================================================== *)
(** ** The report's drawdown curve *)
(* ================================================================== *)

(** [buildDrawdownCurve] of the reporting module reads the equity series a
    run returns. *)

Module Report.







End Report.



(* ================================================================== *)
(** * Properties *)
(* ================================================================== *)

(** ** Arithmetic of the number model *)

Lemma Qlt_bool_iff (x y : Q) : Qlt_bool x y = true <-> x < y.
Proof.
  unfold Qlt_bool. rewrite negb_true_iff. split; intro H.
  - apply Qnot_le_lt. intro Hle. apply Qle_bool_iff in Hle. congruence.
  - destruct (Qle_bool y x) eqn:E; trivial.
    apply Qle_bool_iff in E. apply Qlt_not_le in H. contradiction.
Qed.

Lemma Qlt_bool_false (x y : Q) : Qlt_bool x y = false <-> y <= x.
Proof.
  unfold Qlt_bool. rewrite negb_false_iff. apply Qle_bool_iff.
Qed.

Lemma Qle_bool_false (x y : Q) : Qle_bool x y = false <-> y < x.
Proof.
  rewrite <- Qlt_bool_iff. unfold Qlt_bool.
  destruct (Qle_bool x y); simpl; split; congruence.
Qed.

Lemma Qeq_bool_false (x y : Q) : Qeq_bool x y = false <-> ~ x == y.
Proof.
  split.
  - apply Qeq_bool_neq.
  - intro H. destruct (Qeq_bool x y) eqn:E; trivial.
    apply Qeq_bool_iff in E. contradiction.
Qed.

Lemma Qmax_js_spec (x y : Q) : Qmax_js x y == Qmax x y.
Proof.
  unfold Qmax_js. destruct (Qle_bool x y) eqn:E.
  - apply Qle_bool_iff in E. symmetry. apply Q.max_r. exact E.
  - apply Qle_bool_false in E. symmetry. apply Q.max_l. apply Qlt_le_weak. exact E.
Qed.

Lemma Qmin_js_spec (x y : Q) : Qmin_js x y == Qmin x y.
Proof.
  unfold Qmin_js. destruct (Qle_bool x y) eqn:E.
  - apply Qle_bool_iff in E. symmetry. apply Q.min_l. exact E.
  - apply Qle_bool_false in E. symmetry. apply Q.min_r. apply Qlt_le_weak. exact E.
Qed.

Lemma Qsgn_pos (q : Q) : 0 < q -> Qsgn q = 1.
Proof.
  unfold Qsgn, Qlt. destruct q as [n d]. simpl. intro H.
  replace (Z.sgn n) with 1%Z by lia. reflexivity.
Qed.

Lemma Qsgn_neg (q : Q) : q < 0 -> Qsgn q = inject_Z (-1).
Proof.
  unfold Qsgn, Qlt. destruct q as [n d]. simpl. intro H.
  replace (Z.sgn n) with (-1)%Z by lia. reflexivity.
Qed.

Lemma Qsgn_zero (q : Q) : q == 0 -> Qsgn q = 0.
Proof.
  unfold Qsgn, Qeq. destruct q as [n d]. simpl. intro H.
  replace (Z.sgn n) with 0%Z by lia. reflexivity.
Qed.

(** The three-way split every sign argument below starts from. *)
Lemma Q_trichotomy (q : Q) : {q < 0} + {q == 0} + {0 < q}.
Proof.
  destruct (Q_dec q 0) as [[H | H] | H]; auto.
Qed.

Lemma same_sign_iff (a b : Q) :
  Qeq_bool (Qsgn a) (Qsgn b) = true <->
  (0 < a /\ 0 < b) \/ (a < 0 /\ b < 0) \/ (a == 0 /\ b == 0).
Proof.
  rewrite Qeq_bool_iff.
  destruct (Q_trichotomy a) as [[Ha | Ha] | Ha];
    destruct (Q_trichotomy b) as [[Hb | Hb] | Hb];
    repeat match goal with
           | H : _ < 0 |- _ => rewrite (Qsgn_neg _ H)
           | H : 0 < _ |- _ => rewrite (Qsgn_pos _ H)
           | H : _ == 0 |- _ => rewrite (Qsgn_zero _ H)
           end;
    split; intro H; auto;
    try (exfalso; revert H; unfold Qeq; simpl; lia);
    try reflexivity;
    exfalso; lra.
Qed.

(* ------------------------------------------------------------------ *)
(** ** Margin model *)
(* ------------------------------------------------------------------ *)

(** C10.  For a position with quantity [q] and average price [a]:
    [calculateUnrealizedPnl] is [q * (mark - a)] for an available mark
    price and uses [a] in its place when the mark price is [undefined],
    [null] or [NaN]; [calculateMarginSnapshot] returns
    [positionNotional = |q| * |mark|],
    [initialMargin = positionNotional * max(0, initialRate)],
    [maintenanceMargin = positionNotional * max(0, maintenanceRate)] and
    that unrealized P&L.  For the position (3, 100) at mark 90 with rates
    0.1 and 0.05 the figures are 270, 27, 13.5 and -30. *)
Theorem margin_snapshot_formulas :
  forall q a m initialRate maintenanceRate : Q,
    let position := {| qty := Num q; avgPrice := Num a |} in
    let s := Margin.calculateMarginSnapshot position (Num m) initialRate maintenanceRate in
    let example :=
      Margin.calculateMarginSnapshot {| qty := Num 3; avgPrice := Num 100 |}
        (Num 90) (1 # 10) (5 # 100) in
    Margin.calculateUnrealizedPnl position (Num m) == q * (m - a)
    /\ Margin.calculateUnrealizedPnl position Undefined == q * (a - a)
    /\ Margin.calculateUnrealizedPnl position Null == q * (a - a)
    /\ Margin.calculateUnrealizedPnl position NaN == q * (a - a)
    /\ Margin.positionNotional s == Qabs q * Qabs m
    /\ Margin.initialMargin s == Margin.positionNotional s * Qmax 0 initialRate
    /\ Margin.maintenanceMargin s == Margin.positionNotional s * Qmax 0 maintenanceRate
    /\ Margin.unrealizedPnl s == q * (m - a)
    /\ Margin.positionNotional example == 270
    /\ Margin.initialMargin example == 27
    /\ Margin.maintenanceMargin example == 27 # 2
    /\ Margin.unrealizedPnl example == -30.
Proof.
  intros q a m ir mr position s example.
  unfold s, example, position, Margin.calculateMarginSnapshot,
    Margin.calculateUnrealizedPnl; simpl.
  repeat split; try reflexivity;
    try (rewrite Qmax_js_spec; reflexivity).
Qed.

(* ------------------------------------------------------------------ *)
(** ** The repository's unit tests, replayed on the model *)
(* ------------------------------------------------------------------ *)

(** The values are the exact ones; the tests on rounding and slippage
    compare the code's binary results with [toBeCloseTo]. *)

Example roundToTick_test : Fill.roundToTick (10003 # 100) (Some (5 # 100)) == 10005 # 100.
Proof. reflexivity. Qed.

Example roundToLot_test : Fill.roundToLot (1234 # 1000) (Some (1 # 100)) == 123 # 100.
Proof. reflexivity. Qed.

Example slippage_pct_of_spread_test :
  Fill.slippageImpact
    (Some (Fill.mkSlippage (Some "pct_of_spread"%string) None (Some (1 # 2)) None None))
    "buy" 2 1 1 == 1.
Proof. reflexivity. Qed.

Example slippage_liquidity_based_test :
  Fill.slippageImpact
    (Some (Fill.mkSlippage (Some "liquidity_based"%string) None None
             (Some (1 # 10)) (Some (1 # 2))))
    "sell" 0 2 4 == - (35 # 100).
Proof. reflexivity. Qed.

(** "supports slippage variants and realized pnl on partial close" *)
Example realized_pnl_on_partial_close_test :
  let M0 := Fill.new_FillModel
              (Fill.mkOptions None (Some 1) None None None None (Some 0) None None None) in
  let M1 := fst (Fill.executeMarketOrder M0 "buy" 2 1 None None
                   (Some (Fill.mkMarket (Some 100) None None None None)) None) in
  match snd (Fill.executeMarketOrder M1 "sell" 1 2 None None
               (Some (Fill.mkMarket (Some 110) None None None None)) None) with
  | Fill.Executed x =>
      match Fill.x_fills x with
      | [f] => Fill.f_realizedPnlDelta f == 10
      | _ => False
      end
  | Fill.Rejected _ => False
  end.
Proof. vm_compute. reflexivity. Qed.

(** "bookless path handles zero spread/volume safely" *)
Example bookless_zero_volume_test :
  let M0 := Fill.new_FillModel
              (Fill.mkOptions None None None None None None (Some 0) None None None) in
  match snd (Fill.executeMarketOrder M0 "sell" 1 1 None None
               (Some (Fill.mkMarket (Some 50) None None (Some 0) (Some 0)))
               (Some (Fill.mkSlippage (Some "liquidity_based"%string) None None
                        (Some (1 # 10)) (Some 1)))) with
  | Fill.Executed x =>
      Fill.x_status x = "filled"%string
      /\ match Fill.x_fills x with
         | [f] => Fill.f_price f == 489 # 10
         | _ => False
         end
  | Fill.Rejected _ => False
  end.
Proof. vm_compute. split; reflexivity. Qed.

(** "cancel respects latency and can fill before effective cancel" *)
Example cancel_loses_the_race_test :
  let M0 := Fill.new_FillModel
              (Fill.mkOptions (Some 1) (Some 1) None None None None None None
                 (Some 5%Z) None) in
  let M1 := fst (Fill.submitLimitOrder M0 "sell" 1 100 (Some "aggressive"%string) None 0
                   (Some "L2"%string)) in
  let M2 := fst (Fill.requestCancel M1 "L2" 10 None) in
  let '(M3, fills, cancellations) :=
    Fill.processMarketEvent M2
      (Fill.mkMarketEvent 12 (Some 101) (Some 100)
         (Some (Fill.mkBook (Some []) (Some [Fill.mkLevel 100 1]))) None None) in
  let '(_, fills', cancellations') :=
    Fill.processMarketEvent M3
      (Fill.mkMarketEvent 16 (Some 101) (Some 99)
         (Some (Fill.mkBook (Some []) (Some []))) None None) in
  List.length fills = 1%nat /\ cancellations = [] /\ fills' = [] /\ cancellations' = [].
Proof. vm_compute. repeat split. Qed.

(** "passive partial fill with ttl timeout" *)
Example passive_fill_then_ttl_test :
  let M0 := Fill.new_FillModel
              (Fill.mkOptions (Some 1) (Some 1) None None None (Some (5 # 10000)) None
                 None None None) in
  let M1 := fst (Fill.submitLimitOrder M0 "buy" 5 100 (Some "passive"%string)
                   (Some 10%Z) 0 (Some "L1"%string)) in
  let '(M2, fills, _) :=
    Fill.processMarketEvent M1
      (Fill.mkMarketEvent 5 (Some 100) (Some 99)
         (Some (Fill.mkBook (Some [Fill.mkLevel 100 2]) (Some []))) None None) in
  let '(_, _, cancellations) :=
    Fill.processMarketEvent M2
      (Fill.mkMarketEvent 11 (Some 101) (Some 100)
         (Some (Fill.mkBook (Some []) (Some []))) None None) in
  map Fill.f_liquidity fills = [ "maker"%string ]
  /\ map Fill.c_reason cancellations = [ "ttl_timeout"%string ].
Proof. vm_compute. split; reflexivity. Qed.

(** "handles margin update and liquidation closeout" *)
Example liquidation_closeout_test :
  match run noopStrategy createDefaultExecution 10 freshEngine spotParams closeoutEvents with
  | Done r =>
      s_margin (finalState r) = Num 50
      /\ liquidated (finalState r) = true
      /\ qty (position (finalState r)) = Num 0
  | _ => False
  end.
Proof. vm_compute. repeat split. Qed.

(* ------------------------------------------------------------------ *)
(** ** Position ledger *)
(* ------------------------------------------------------------------ *)

Lemma same_sign_false (a b : Q) :
  Qeq_bool (Qsgn a) (Qsgn b) = false ->
  ~ ((0 < a /\ 0 < b) \/ (a < 0 /\ b < 0) \/ (a == 0 /\ b == 0)).
Proof.
  intros H C. apply same_sign_iff in C. congruence.
Qed.

Ltac split_all := repeat match goal with |- _ /\ _ => split end.

Ltac q_bool :=
  repeat match goal with
         | H : (_ || _)%bool = true |- _ => apply orb_true_iff in H
         | H : (_ || _)%bool = false |- _ => apply orb_false_iff in H; destruct H
         | H : (_ && _)%bool = true |- _ => apply andb_true_iff in H; destruct H
         | H : negb _ = true |- _ => apply negb_true_iff in H
         | H : negb _ = false |- _ => apply negb_false_iff in H
         | H : Qeq_bool (Qsgn _) (Qsgn _) = true |- _ => apply same_sign_iff in H
         | H : Qeq_bool (Qsgn _) (Qsgn _) = false |- _ => apply same_sign_false in H
         | H : Qeq_bool _ _ = true |- _ => apply Qeq_bool_iff in H
         | H : Qeq_bool _ _ = false |- _ => apply Qeq_bool_false in H
         | H : Qlt_bool _ _ = true |- _ => apply Qlt_bool_iff in H
         | H : Qlt_bool _ _ = false |- _ => apply Qlt_bool_false in H
         | H : Qle_bool _ _ = true |- _ => apply Qle_bool_iff in H
         | H : Qle_bool _ _ = false |- _ => apply Qle_bool_false in H
         end.

Lemma Qabs_add_same_direction (a b : Q) :
  a == 0 \/ (0 < a /\ 0 < b) \/ (a < 0 /\ b < 0) ->
  Qabs (a + b) == Qabs a + Qabs b.
Proof.
  intros [H | [[Ha Hb] | [Ha Hb]]].
  - rewrite H. rewrite Qplus_0_l. change (Qabs 0) with 0. rewrite Qplus_0_l. reflexivity.
  - rewrite !Qabs_pos by lra. reflexivity.
  - rewrite !Qabs_neg by lra. lra.
Qed.

(** The ledger after a fill that adds to the position or opens it. *)
Lemma applyFill_same_direction (L : Fill.PositionLedger) (side : string) (qty price fee : Q) :
  let prev := Fill.pl_qty L in
  let signed := Fill.signedQtyOf side qty in
  Qeq_bool prev 0 || Qeq_bool (Qsgn prev) (Qsgn signed) = true ->
  Fill.applyFill L side qty price fee =
  ({| Fill.pl_qty := prev + signed;
      Fill.pl_avgPrice :=
        if Qeq_bool (prev + signed) 0 then 0
        else (Qabs prev * Fill.pl_avgPrice L + Qabs signed * price) / Qabs (prev + signed);
      Fill.pl_realizedPnl := Fill.pl_realizedPnl L + - fee |}, - fee).
Proof.
  intros prev signed H. unfold Fill.applyFill. fold prev. fold signed.
  rewrite H. reflexivity.
Qed.

(** The ledger after a fill against the position. *)
Lemma applyFill_opposite (L : Fill.PositionLedger) (side : string) (qty price fee : Q) :
  let prev := Fill.pl_qty L in
  let avg := Fill.pl_avgPrice L in
  let signed := Fill.signedQtyOf side qty in
  let delta :=
    if Qlt_bool 0 prev
    then - fee + (price - avg) * Qmin_js (Qabs prev) (Qabs signed)
    else - fee + (avg - price) * Qmin_js (Qabs prev) (Qabs signed) in
  Qeq_bool prev 0 || Qeq_bool (Qsgn prev) (Qsgn signed) = false ->
  Fill.applyFill L side qty price fee =
  ({| Fill.pl_qty := prev + signed;
      Fill.pl_avgPrice :=
        if Qeq_bool (prev + signed) 0 then 0
        else if Qeq_bool (Qsgn (prev + signed)) (Qsgn prev) then avg else price;
      Fill.pl_realizedPnl := Fill.pl_realizedPnl L + delta |}, delta).
Proof.
  intros prev avg signed delta H. unfold Fill.applyFill. fold prev. fold signed.
  rewrite H. reflexivity.
Qed.

(** C4.  [applyFill] returns the realized P&L delta of the fill and books
    it.  With [signed] the fill quantity signed by its side ([+|qty|] for a
    buy, [-|qty|] otherwise): a fill on a flat ledger or in the direction of
    the position returns exactly [-fee] and leaves the notional-weighted
    blend as average price; a fill against a long (short) position returns
    the P&L of [min(|prior|, |fill|)] units at [price - avg] (its opposite),
    minus the fee; after a full flip the average price is the fill price,
    after a partial reduction it is unchanged, and whenever the quantity
    lands on zero it is zero. *)
Theorem applyFill_realized_delta :
  forall (L : Fill.PositionLedger) (side : string) (qty price fee : Q),
    let prev := Fill.pl_qty L in
    let avg := Fill.pl_avgPrice L in
    let signed := Fill.signedQtyOf side qty in
    let L' := fst (Fill.applyFill L side qty price fee) in
    let delta := snd (Fill.applyFill L side qty price fee) in
    Fill.pl_qty L' = prev + signed
    /\ Fill.pl_realizedPnl L' = Fill.pl_realizedPnl L + delta
    /\ (side = "buy"%string -> signed = Qabs qty)
    /\ (side <> "buy"%string -> signed = - Qabs qty)
    /\ (prev == 0 \/ (0 < prev /\ 0 < signed) \/ (prev < 0 /\ signed < 0) ->
        delta == - fee
        /\ (~ prev + signed == 0 ->
            Fill.pl_avgPrice L' ==
            (Qabs prev * avg + Qabs signed * price) / (Qabs prev + Qabs signed)))
    /\ (0 < prev /\ signed < 0 ->
        delta == (price - avg) * Qmin (Qabs prev) (Qabs signed) - fee)
    /\ (prev < 0 /\ 0 < signed ->
        delta == - ((price - avg) * Qmin (Qabs prev) (Qabs signed)) - fee)
    /\ ((0 < prev /\ prev + signed < 0) \/ (prev < 0 /\ 0 < prev + signed) ->
        Fill.pl_avgPrice L' == price)
    /\ ((0 < prev /\ signed < 0 /\ 0 < prev + signed)
        \/ (prev < 0 /\ 0 < signed /\ prev + signed < 0) ->
        Fill.pl_avgPrice L' == avg)
    /\ (prev + signed == 0 -> Fill.pl_avgPrice L' == 0).
Proof.
  intros L side qty price fee prev avg signed L' delta.
  assert (Hside1 : side = "buy"%string -> signed = Qabs qty).
  { intro E. unfold signed, Fill.signedQtyOf. rewrite E. reflexivity. }
  assert (Hside2 : side <> "buy"%string -> signed = - Qabs qty).
  { intro E. unfold signed, Fill.signedQtyOf.
    destruct (String.eqb side "buy") eqn:B; trivial.
    apply String.eqb_eq in B. contradiction. }
  unfold L', delta. clear L' delta.
  destruct (Qeq_bool prev 0 || Qeq_bool (Qsgn prev) (Qsgn signed)) eqn:D.
  - rewrite (applyFill_same_direction L side qty price fee D).
    cbn [fst snd Fill.pl_qty Fill.pl_avgPrice Fill.pl_realizedPnl].
    fold prev. fold avg. fold signed.
    assert (Hdir : prev == 0 \/ (0 < prev /\ 0 < signed) \/ (prev < 0 /\ signed < 0)).
    { apply orb_true_iff in D. destruct D as [D | D]; q_bool; auto.
      destruct D as [D | [D | [D _]]]; auto. }
    split_all; auto.
    + intro Hsame. split; [ reflexivity | ].
      intro Hnz. apply Qeq_bool_false in Hnz. rewrite Hnz.
      rewrite (Qabs_add_same_direction prev signed Hdir). reflexivity.
    + intros [Hp Hs]. exfalso. destruct Hdir as [H | [[H1 H2] | [H1 H2]]]; lra.
    + intros [Hp Hs]. exfalso. destruct Hdir as [H | [[H1 H2] | [H1 H2]]]; lra.
    + intros [[Hp Hs] | [Hp Hs]]; exfalso;
        destruct Hdir as [H | [[H1 H2] | [H1 H2]]]; lra.
    + intros [[Hp [Hs _]] | [Hp [Hs _]]]; exfalso;
        destruct Hdir as [H | [[H1 H2] | [H1 H2]]]; lra.
    + intro Hz. apply Qeq_bool_iff in Hz. rewrite Hz. reflexivity.
  - rewrite (applyFill_opposite L side qty price fee D).
    cbn [fst snd Fill.pl_qty Fill.pl_avgPrice Fill.pl_realizedPnl].
    fold prev. fold avg. fold signed.
    q_bool.
    match goal with H : ~ prev == 0 |- _ => rename H into Hnz end.
    match goal with H : ~ (_ \/ _) |- _ => rename H into Hopp end.
    split_all; auto.
    + intros [H | [[H1 H2] | [H1 H2]]]; exfalso; auto 6.
    + intros [Hp Hs]. apply Qlt_bool_iff in Hp. rewrite Hp.
      rewrite Qmin_js_spec. lra.
    + intros [Hp Hs].
      assert (E : Qlt_bool 0 prev = false) by (apply Qlt_bool_false; lra).
      rewrite E. rewrite Qmin_js_spec. lra.
    + intro Hflip.
      assert (E0 : Qeq_bool (prev + signed) 0 = false).
      { apply Qeq_bool_false. destruct Hflip as [[? ?] | [? ?]]; lra. }
      rewrite E0.
      destruct (Qeq_bool (Qsgn (prev + signed)) (Qsgn prev)) eqn:E1; [ | reflexivity ].
      exfalso. apply same_sign_iff in E1.
      destruct Hflip as [[? ?] | [? ?]]; destruct E1 as [[? ?] | [[? ?] | [? ?]]]; lra.
    + intro Hpart.
      assert (E0 : Qeq_bool (prev + signed) 0 = false).
      { apply Qeq_bool_false. destruct Hpart as [[? [? ?]] | [? [? ?]]]; lra. }
      rewrite E0.
      assert (E1 : Qeq_bool (Qsgn (prev + signed)) (Qsgn prev) = true).
      { apply same_sign_iff. destruct Hpart as [[? [? ?]] | [? [? ?]]]; auto. }
      rewrite E1. reflexivity.
    + intro Hz. apply Qeq_bool_iff in Hz. rewrite Hz. reflexivity.
Qed.

(** The four cases of C4 on the ledger (2 @ 100): adding 1 @ 130, selling
    1 @ 110, selling 2 @ 110 and selling 3 @ 110. *)
Lemma applyFill_realized_delta_witness :
  let L := {| Fill.pl_qty := 2; Fill.pl_avgPrice := 100; Fill.pl_realizedPnl := 0 |} in
  (snd (Fill.applyFill L "buy" 1 130 1) == - (1)
   /\ Fill.pl_avgPrice (fst (Fill.applyFill L "buy" 1 130 1)) == 110)
  /\ snd (Fill.applyFill L "sell" 1 110 1) == 9
  /\ Fill.pl_avgPrice (fst (Fill.applyFill L "sell" 1 110 1)) == 100
  /\ Fill.pl_avgPrice (fst (Fill.applyFill L "sell" 2 110 1)) == 0
  /\ Fill.pl_avgPrice (fst (Fill.applyFill L "sell" 3 110 1)) == 110.
Proof.
  intro L.
  pose proof (applyFill_realized_delta L "buy" 1 130 1) as Hbuy.
  pose proof (applyFill_realized_delta L "sell" 1 110 1) as Hsell1.
  pose proof (applyFill_realized_delta L "sell" 2 110 1) as Hsell2.
  pose proof (applyFill_realized_delta L "sell" 3 110 1) as Hsell3.
  cbv zeta in Hbuy, Hsell1, Hsell2, Hsell3.
  destruct Hbuy as (_ & _ & _ & _ & Hb & _).
  destruct Hsell1 as (_ & _ & _ & _ & _ & Hs1 & _ & _ & Hs1' & _).
  destruct Hsell2 as (_ & _ & _ & _ & _ & _ & _ & _ & _ & Hs2).
  destruct Hsell3 as (_ & _ & _ & _ & _ & _ & _ & Hs3 & _).
  split; [ | split; [ | split; [ | split ] ] ].
  - destruct Hb as [Hd Ha].
    + right. left. split; reflexivity.
    + split; [ exact Hd | ].
      rewrite Ha; [ reflexivity | discriminate ].
  - rewrite Hs1; [ reflexivity | split; reflexivity ].
  - apply Hs1'. left. repeat split.
  - apply Hs2. reflexivity.
  - apply Hs3. left. split; reflexivity.
Defined.

(* ------------------------------------------------------------------ *)
(** ** Fill simulation: market orders and validation *)
(* ------------------------------------------------------------------ *)

(** C5.  On a model with tick size 0.1 and taker fee 0.1 % (with the lot
    step 0.1 of the unit test, or none), a market buy of 3 against the
    single ask (100, 1) with reference price 101 and fixed slippage 1 is
    [filled] with nothing remaining, by exactly two taker fills: 1 @ 100
    from the book, then 2 @ 102 from the fallback. *)
Theorem market_buy_book_then_fallback :
  forall (timestamp : Z) (orderId : option string) (lot : bool),
    let options :=
      Fill.mkOptions (Some (1 # 10)) (if lot then Some (1 # 10) else None)
        None None None None (Some (1 # 1000)) None None None in
    let orderbook := Fill.mkBook (Some [Fill.mkLevel 100 1]) (Some []) in
    let market := Fill.mkMarket (Some 101) None None (Some 2) (Some 10) in
    let slippage := Fill.mkSlippage (Some "simple_fixed"%string) (Some 1) None None None in
    exists M' x f1 f2,
      Fill.executeMarketOrder (Fill.new_FillModel options) "buy" 3 timestamp orderId
        (Some orderbook) (Some market) (Some slippage) = (M', Fill.Executed x)
      /\ Fill.x_status x = "filled"%string
      /\ Fill.x_remainingQty x == 0
      /\ Fill.x_fills x = [f1; f2]
      /\ (Fill.f_qty f1 == 1 /\ Fill.f_price f1 == 100)
      /\ (Fill.f_qty f2 == 2 /\ Fill.f_price f2 == 102)
      /\ (Fill.f_feeRate f1 == 1 # 1000 /\ Fill.f_liquidity f1 = "taker"%string
          /\ Fill.f_fee f1 == 100 * (1 # 1000))
      /\ (Fill.f_feeRate f2 == 1 # 1000 /\ Fill.f_liquidity f2 = "taker"%string
          /\ Fill.f_fee f2 == 204 * (1 # 1000)).
Proof.
  intros timestamp orderId lot options orderbook market slippage.
  unfold Fill.executeMarketOrder.
  destruct lot;
    (destruct orderId as [[ | c s] | ];
     cbn [Fill.allocId String.eqb];
     vm_compute;
     do 4 eexists;
     (split; [ reflexivity | ]);
     repeat split).
Qed.

Lemma validateOrder_reasons (M : Fill.FillModel) (qty : Q) (priceHint : option Q)
    (r : Fill.Reject) :
  Fill._validateOrder M qty priceHint = Fill.Invalid r ->
  In (Fill.r_reason r) validation_reasons.
Proof.
  unfold Fill._validateOrder, validation_reasons.
  destruct (Qle_bool _ 0).
  { intro H. injection H as <-. simpl. auto. }
  destruct (match Fill.minQty _ with Some _ => _ | None => _ end).
  { intro H. injection H as <-. simpl. auto. }
  destruct (match Fill.maxQty _ with Some _ => _ | None => _ end).
  { intro H. injection H as <-. simpl. auto. }
  destruct priceHint as [hint | ]; [ | discriminate ].
  destruct (Fill.minNotional _) as [mn | ]; [ | discriminate ].
  destruct (Qlt_bool _ mn); [ | discriminate ].
  intro H. injection H as <-. simpl. auto 6.
Qed.

(** An order below the minimum notional never validates, and is turned
    down for its notional once its quantity is acceptable. *)
Lemma validateOrder_min_notional (M : Fill.FillModel) (qty hint mn : Q) :
  let c := Fill.constraints M in
  let rounded := Fill.roundToLot qty (Fill.stepSize c) in
  Fill.minNotional c = Some mn ->
  rounded * hint < mn ->
  exists r,
    Fill._validateOrder M qty (Some hint) = Fill.Invalid r
    /\ (quantity_accepted c rounded ->
        r = Fill._buildReject "min_notional_violation" (Some rounded)
              (Some (rounded * hint)) None).
Proof.
  intros c rounded Hmn Hlt.
  unfold Fill._validateOrder. fold c. fold rounded.
  destruct (Qle_bool rounded 0) eqn:E0.
  { eexists. split; [ reflexivity | ].
    intros [Hpos _]. q_bool. lra. }
  destruct (Fill.minQty c) as [lo | ] eqn:Elo.
  - destruct (Qlt_bool rounded lo) eqn:E1.
    { eexists. split; [ reflexivity | ].
      intros [_ [Hmin _]]. specialize (Hmin lo Elo). q_bool. lra. }
    destruct (Fill.maxQty c) as [hi | ] eqn:Ehi.
    + destruct (Qlt_bool hi rounded) eqn:E2.
      { eexists. split; [ reflexivity | ].
        intros [_ [_ Hmax]]. specialize (Hmax hi Ehi). q_bool. lra. }
      rewrite Hmn. apply Qlt_bool_iff in Hlt. rewrite Hlt.
      eexists. split; reflexivity.
    + rewrite Hmn. apply Qlt_bool_iff in Hlt. rewrite Hlt.
      eexists. split; reflexivity.
  - destruct (Fill.maxQty c) as [hi | ] eqn:Ehi.
    + destruct (Qlt_bool hi rounded) eqn:E2.
      { eexists. split; [ reflexivity | ].
        intros [_ [_ Hmax]]. specialize (Hmax hi Ehi). q_bool. lra. }
      rewrite Hmn. apply Qlt_bool_iff in Hlt. rewrite Hlt.
      eexists. split; reflexivity.
    + rewrite Hmn. apply Qlt_bool_iff in Hlt. rewrite Hlt.
      eexists. split; reflexivity.
Qed.

(** C9.  When [_validateOrder] fails, [executeMarketOrder] and
    [submitLimitOrder] return that rejection as their result: its reason is
    one of [invalid_qty], [min_qty_violation], [max_qty_violation],
    [min_notional_violation], the result carries no fill, and the model
    (ledger, open orders, id counter) is the one passed in.  An order whose
    rounded quantity times price hint is below the configured minimum
    notional is always rejected, with reason [min_notional_violation] when
    its quantity passes the quantity checks that come first. *)
Theorem validation_failure_is_returned :
  forall (M : Fill.FillModel) (side : string) (qty : Q) (timestamp : Z)
         (orderId : option string) (orderbook : option Fill.Book)
         (market : option Fill.Market) (slippageModel : option Fill.SlippageModel),
    let c := Fill.constraints M in
    let rounded := Fill.roundToLot qty (Fill.stepSize c) in
    (forall r,
        Fill._validateOrder M qty (Fill.referencePrice market) = Fill.Invalid r ->
        Fill.executeMarketOrder M side qty timestamp orderId orderbook market slippageModel
        = (M, Fill.Rejected r)
        /\ In (Fill.r_reason r) validation_reasons)
    /\ (forall price mode ttlMs r,
        Fill._validateOrder M qty (Some (Fill.roundToTick price (Fill.tickSize c)))
        = Fill.Invalid r ->
        Fill.submitLimitOrder M side qty price mode ttlMs timestamp orderId
        = (M, Fill.SubmitRejected r)
        /\ In (Fill.r_reason r) validation_reasons)
    /\ (forall hint mn,
        Fill.referencePrice market = Some hint ->
        Fill.minNotional c = Some mn ->
        rounded * hint < mn ->
        exists r,
          Fill.executeMarketOrder M side qty timestamp orderId orderbook market slippageModel
          = (M, Fill.Rejected r)
          /\ (quantity_accepted c rounded ->
              Fill.r_reason r = "min_notional_violation"%string
              /\ Fill.r_qty r = Some rounded
              /\ Fill.r_notional r = Some (rounded * hint))).
Proof.
  intros M side qty timestamp orderId orderbook market slippageModel c rounded.
  split_all.
  - intros r Hv. split.
    + unfold Fill.executeMarketOrder. rewrite Hv. reflexivity.
    + eapply validateOrder_reasons; eassumption.
  - intros price mode ttlMs r Hv. split.
    + unfold Fill.submitLimitOrder. fold c. rewrite Hv. reflexivity.
    + eapply validateOrder_reasons; eassumption.
  - intros hint mn Href Hmn Hlt.
    destruct (validateOrder_min_notional M qty hint mn Hmn Hlt) as [r [Hv Hr]].
    exists r. split.
    + unfold Fill.executeMarketOrder. rewrite Href, Hv. reflexivity.
    + intro Hq. rewrite (Hr Hq). repeat split.
Qed.

(** The unit test's order: 0.5 units at 100 against a minimum notional of
    100. *)
Lemma validation_failure_is_returned_witness :
  let M := Fill.new_FillModel
             (Fill.mkOptions None (Some (1 # 10)) (Some 100) None None None None
                None None None) in
  let market := Some (Fill.mkMarket (Some 100) None None None None) in
  exists r,
    Fill.executeMarketOrder M "buy" (1 # 2) 1 None None market None = (M, Fill.Rejected r)
    /\ Fill.r_reason r = "min_notional_violation"%string.
Proof.
  intros M market.
  destruct (validation_failure_is_returned M "buy" (1 # 2) 1 None None market None)
    as (_ & _ & H).
  destruct (H 100 100) as [r [Hx Hr]].
  - reflexivity.
  - reflexivity.
  - reflexivity.
  - exists r. split; [ exact Hx | ].
    apply Hr. split; [ reflexivity | ].
    split; intros m Hm; discriminate Hm.
Defined.

(* ------------------------------------------------------------------ *)
(** ** Fill simulation: limit orders *)
(* ------------------------------------------------------------------ *)

Lemma reached_iff (deadline : option Z) (now : Z) :
  Fill.reached deadline now = true <-> due deadline now.
Proof.
  unfold Fill.reached, due. destruct deadline as [t | ].
  - rewrite Z.leb_le. split.
    + intro H. exists t. auto.
    + intros [t' [E H]]. injection E as ->. exact H.
  - split; [ discriminate | intros [t [E _]]; discriminate ].
Qed.




(** A price that [roundToTick] returned lies on the grid. *)
Lemma roundToTick_on_grid (price : Q) (tickSize : option Q) :
  on_tick_grid (Fill.roundToTick price tickSize) tickSize.
Proof.
  unfold on_tick_grid, Fill.roundToTick, Fill.roundToStep.
  destruct tickSize as [s | ]; [ | exact I ].
  destruct (Qle_bool s 0) eqn:Es.
  - left. apply Qle_bool_iff. exact Es.
  - right. eexists. reflexivity.
Qed.

Lemma bookFill_loop_fills (c : Fill.Constraints) (fs : Fill.Fees) (side : string)
    (limitPrice : option Q) (timestamp : Z) (orderId : string) (forceTaker : bool)
    (all : list Fill.Level) :
  forall levels L remaining fills L' fills' remaining',
    incl levels all ->
    Forall (book_fill_ok c fs side limitPrice orderId forceTaker all) fills ->
    Fill.bookFill_loop c fs side limitPrice timestamp orderId forceTaker levels
      L remaining fills = (L', fills', remaining') ->
    Forall (book_fill_ok c fs side limitPrice orderId forceTaker all) fills'.
Proof.
  induction levels as [ | level rest IH]; intros L remaining fills L' fills' remaining' Hin Hok Hrun.
  - simpl in Hrun. injection Hrun as <- <- <-. exact Hok.
  - simpl in Hrun.
    assert (Hrest : incl rest all) by (intros x Hx; apply Hin; right; exact Hx).
    destruct (negb (Fill.priceMatch side limitPrice level) || Qle_bool remaining 0) eqn:Eskip.
    + eapply IH; eassumption.
    + destruct (Fill.applyFill L side _ _ _) as [L1 delta] eqn:Eapply.
      eapply IH; [ exact Hrest | | exact Hrun ].
      apply Forall_app. split; [ exact Hok | ].
      constructor; [ | constructor ].
      apply orb_false_iff in Eskip. destruct Eskip as [Ematch _].
      apply negb_false_iff in Ematch.
      unfold book_fill_ok. cbn [Fill.f_orderId Fill.f_side Fill.f_price Fill.f_fee
                                Fill.f_executedNotional Fill.f_feeRate Fill.f_liquidity].
      split_all; try reflexivity.
      exists level. split_all; [ apply Hin; left; reflexivity | exact Ematch | reflexivity ].
Qed.




Lemma map_get_set {V : Type} (m : list (string * V)) (k : string) (v : V) :
  Fill.map_get (Fill.map_set m k v) k = Some v.
Proof.
  induction m as [ | [k' v'] m IH]; simpl.
  - rewrite String.eqb_refl. reflexivity.
  - destruct (String.eqb k' k) eqn:E; simpl.
    + rewrite String.eqb_refl. reflexivity.
    + rewrite E. exact IH.
Qed.

(** An order accepted by [submitLimitOrder] is stored open, at a limit
    price on the tick grid of a model whose constraints and fees are the
    ones it was submitted to. *)
Lemma submitLimitOrder_ready (M M' : Fill.FillModel) (side : string) (qty price : Q)
    (mode : option string) (ttlMs : option Z) (timestamp : Z)
    (orderId : option string) (id : string) (order : Fill.Order) :
  Fill.submitLimitOrder M side qty price mode ttlMs timestamp orderId
  = (M', Fill.Accepted id order) ->
  Fill.o_status order = "open"%string
  /\ on_tick_grid (Fill.o_price order) (Fill.tickSize (Fill.constraints M'))
  /\ Fill.constraints M' = Fill.constraints M
  /\ Fill.fees M' = Fill.fees M
  /\ Fill.ledger M' = Fill.ledger M
  /\ Fill.map_get (Fill.orders M') id = Some order.
Proof.
  unfold Fill.submitLimitOrder.
  destruct (Fill._validateOrder M qty _) as [r | roundedQty]; [ discriminate | ].
  destruct (Fill.allocId M orderId "lmt-") as [M1 id0] eqn:Ealloc.
  assert (Hsame : Fill.constraints M1 = Fill.constraints M
                  /\ Fill.fees M1 = Fill.fees M
                  /\ Fill.ledger M1 = Fill.ledger M).
  { unfold Fill.allocId in Ealloc.
    destruct orderId as [s | ]; [ destruct (String.eqb s EmptyString) | ];
      injection Ealloc as <- _; auto. }
  destruct Hsame as (Hc & Hf & Hl).
  intro H. injection H as <- <- <-.
  cbn [Fill.o_status Fill.o_price Fill.constraints Fill.fees Fill.ledger Fill.orders
         Fill.set_orders].
  split_all; auto.
  - rewrite Hc. apply roundToTick_on_grid.
  - apply map_get_set.
Qed.


(* ------------------------------------------------------------------ *)
(** ** Scheduler *)
(* ------------------------------------------------------------------ *)

Lemma Property_eqb_eq (a b : Property) : Property_eqb a b = true <-> a = b.
Proof.
  destruct a as [x | s], b as [y | t]; simpl; split; intro H; try discriminate.
  - apply Z.eqb_eq in H. congruence.
  - injection H as ->. apply Z.eqb_refl.
  - apply String.eqb_eq in H. congruence.
  - injection H as ->. apply String.eqb_refl.
Qed.



Lemma key_le_refl (a : Event) : key_le a a.
Proof. unfold key_le. right. split; [ reflexivity | right; split; [ reflexivity | lia ] ]. Qed.

Lemma key_le_trans (a b c : Event) : key_le a b -> key_le b c -> key_le a c.
Proof.
  unfold key_le, priority_lt.
  intros [H1 | [E1 H1]] [H2 | [E2 H2]]; [ left; lia | left; lia | left; lia | ].
  right. split; [ lia | ].
  destruct H1 as [H1 | [P1 S1]], H2 as [H2 | [P2 S2]].
  - left. destruct (priority a), (priority b), (priority c); try contradiction. lia.
  - left. rewrite <- P2. exact H1.
  - left. rewrite P1. exact H2.
  - right. split; [ congruence | lia ].
Qed.

Lemma before_true_key_le (a b : Event) : before a b = true -> key_le a b.
Proof.
  unfold before, compareEvents, key_le, seq_of. intro H.
  destruct (timestamp a =? timestamp b)%Z eqn:Et; simpl in H.
  - apply Z.eqb_eq in Et.
    destruct (Property_eqb (priority a) (priority b)) eqn:Ep; simpl in H.
    + apply Property_eqb_eq in Ep. apply Z.ltb_lt in H. right. split; [ exact Et | right ].
      split; [ exact Ep | lia ].
    + right. split; [ exact Et | left ].
      destruct (priority a), (priority b); simpl in H |- *; try discriminate.
      apply Z.ltb_lt in H. lia.
  - apply Z.eqb_neq in Et. apply Z.ltb_lt in H. lia.
Qed.

(** Between events whose priorities are numbers the comparator is
    total. *)
Lemma before_false_key_le (a b : Event) :
  numbered a = true -> numbered b = true -> before a b = false -> key_le b a.
Proof.
  unfold numbered, before, compareEvents, key_le, seq_of. intros Ha Hb H.
  destruct (priority a) as [pa | ]; [ | discriminate ].
  destruct (priority b) as [pb | ]; [ | discriminate ].
  simpl in H |- *.
  destruct (timestamp a =? timestamp b)%Z eqn:Et; simpl in H.
  - apply Z.eqb_eq in Et.
    destruct (pa =? pb)%Z eqn:Ep; simpl in H; apply Z.ltb_ge in H.
    + apply Z.eqb_eq in Ep. right. split; [ lia | right ]. split; [ congruence | lia ].
    + apply Z.eqb_neq in Ep. right. split; [ lia | left; lia ].
  - apply Z.eqb_neq in Et. apply Z.ltb_ge in H. lia.
Qed.

Lemma insert_sorted_In (x y : Event) (l : list Event) :
  In y (insert_sorted before x l) -> y = x \/ In y l.
Proof.
  induction l as [ | z l IH]; simpl.
  - intros [H | []]. left. symmetry. exact H.
  - destruct (before z x); simpl.
    + intros [H | H]; [ right; left; exact H | ].
      destruct (IH H) as [E | Hin]; [ left; exact E | right; right; exact Hin ].
    + intros [H | H]; [ left; symmetry; exact H | right; exact H ].
Qed.

Lemma insert_sorted_sorted (x : Event) (l : list Event) :
  numbered x = true -> forallb numbered l = true ->
  StronglySorted key_le l -> StronglySorted key_le (insert_sorted before x l).
Proof.
  intro Hx. induction l as [ | z l IH]; simpl; intros Hn Hs.
  - constructor; [ constructor | constructor ].
  - apply andb_true_iff in Hn. destruct Hn as [Hz0 Hn].
    inversion Hs as [ | ? ? Hl Hz]; subst.
    destruct (before z x) eqn:E.
    + constructor; [ apply IH; assumption | ].
      apply Forall_forall. intros y Hy.
      destruct (insert_sorted_In _ _ _ Hy) as [-> | Hin].
      * apply before_true_key_le. exact E.
      * rewrite Forall_forall in Hz. apply Hz. exact Hin.
    + constructor; [ exact Hs | ].
      pose proof (before_false_key_le _ _ Hz0 Hx E) as Hxz.
      constructor; [ exact Hxz | ].
      apply Forall_forall. intros y Hy.
      rewrite Forall_forall in Hz.
      eapply key_le_trans; [ exact Hxz | apply Hz; exact Hy ].
Qed.

(** Given events whose priorities are numbers, [sort(compareEvents)]
    returns a queue in key order. *)
Lemma js_sort_sorted (l : list Event) :
  forallb numbered l = true -> StronglySorted key_le (js_sort before l).
Proof.
  induction l as [ | x l IH]; simpl; intro Hn.
  - constructor.
  - apply andb_true_iff in Hn. destruct Hn as [Hx Hn].
    apply insert_sorted_sorted; [ exact Hx | | apply IH; exact Hn ].
    clear - Hn. induction l as [ | y l IHl]; simpl in *; [ reflexivity | ].
    apply andb_true_iff in Hn. destruct Hn as [Hy Hn].
    specialize (IHl Hn).
    revert IHl. generalize (js_sort before l) as s. intros s Hs.
    induction s as [ | z s IHs]; simpl.
    + rewrite Hy. reflexivity.
    + simpl in Hs. apply andb_true_iff in Hs. destruct Hs as [Hz Hs].
      destruct (before z y); simpl; rewrite ?Hz, ?Hy, ?Hs; auto.
Qed.

Lemma insert_sorted_perm (x : Event) (l : list Event) :
  Permutation (x :: l) (insert_sorted before x l).
Proof.
  induction l as [ | z l IH]; simpl.
  - apply Permutation_refl.
  - destruct (before z x).
    + eapply perm_trans; [ apply perm_swap | ].
      apply perm_skip. exact IH.
    + apply Permutation_refl.
Qed.

(** Sorting loses and invents no event. *)
Lemma js_sort_perm (l : list Event) : Permutation l (js_sort before l).
Proof.
  induction l as [ | x l IH]; simpl.
  - apply perm_nil.
  - eapply perm_trans; [ apply perm_skip; exact IH | apply insert_sorted_perm ].
Qed.

Lemma js_sort_numbered (l : list Event) :
  forallb numbered (js_sort before l) = true -> forallb numbered l = true.
Proof.
  rewrite !forallb_forall. intros H x Hx. apply H.
  apply (Permutation_in _ (js_sort_perm l)). exact Hx.
Qed.

Lemma normalizeEvent_well_formed (event : RawEvent) :
  well_formed event -> exists ev, normalizeEvent event = Ok ev
                                  /\ raw_type event = Some (type_ ev)
                                  /\ raw_timestamp event = Some (timestamp ev)
                                  /\ payload ev = raw_payload event.
Proof.
  intros [[type [Ht Hne]] [ts Hts]].
  unfold normalizeEvent. rewrite Ht, Hts.
  destruct (String.eqb type EmptyString) eqn:E.
  - apply String.eqb_eq in E. contradiction.
  - eexists. split; [ reflexivity | ]. simpl. auto.
Qed.

(* ------------------------------------------------------------------ *)
(** ** Engine: what the scheduling steps leave alone *)
(* ------------------------------------------------------------------ *)

Lemma bind_Ok {A B : Type} (r : result A) (k : A -> result B) (b : B) :
  bind r k = Ok b -> exists a, r = Ok a /\ k a = Ok b.
Proof.
  destruct r as [a | m]; simpl; intro H; [ | discriminate ].
  exists a. auto.
Qed.

Ltac bind_inv H :=
  let a := fresh "e" in
  let Ha := fresh "H" a in
  apply bind_Ok in H; destruct H as [a [Ha H]].

Ltac plain_step :=
  unfold step_facts, queue_ordered, queue_sorted, position_ok; simpl; split_all; auto.

Section EngineFacts.

Context {S X : Type}.
Variable strategy : Strategy S.
Variable execution : ExecutionModel X.

Local Abbreviation Engine := (Engine S X).

Lemma quiet_refl (e : Engine) : quiet e e.
Proof. unfold quiet, same_account. auto 10. Qed.

Lemma quiet_trans (e1 e2 e3 : Engine) : quiet e1 e2 -> quiet e2 e3 -> quiet e1 e3.
Proof.
  unfold quiet, same_account.
  intros [(A1 & A2 & A3 & A4 & A5 & A6) S1] [(B1 & B2 & B3 & B4 & B5 & B6) S2].
  split_all; try congruence. auto.
Qed.

Lemma step_facts_refl (e : Engine) : step_facts e e.
Proof. unfold step_facts. auto 10. Qed.

Lemma step_facts_trans (e1 e2 e3 : Engine) :
  step_facts e1 e2 -> step_facts e2 e3 -> step_facts e1 e3.
Proof.
  unfold step_facts.
  intros (A1 & A2 & A3 & A4 & A5) (B1 & B2 & B3 & B4 & B5).
  split_all; try congruence; auto.
Qed.

Lemma quiet_step_facts (e e' : Engine) : quiet e e' -> step_facts e e'.
Proof.
  unfold quiet, same_account, step_facts, position_ok.
  intros [(A1 & A2 & A3 & A4 & A5 & A6) Hs].
  split_all; auto. rewrite A1. auto.
Qed.

Lemma push_events_spec (events : list RawEvent) :
  forall q n q' n',
    push_events q n events = Ok (q', n') ->
    exists news,
      q' = q ++ news
      /\ Forall (fun ev => exists raw, In raw events /\ comes_from raw ev) news.
Proof.
  induction events as [ | event rest IH]; simpl; intros q n q' n' H.
  - injection H as <- <-. exists []. rewrite app_nil_r. auto.
  - bind_inv H. rename e into ev.
    destruct (IH _ _ _ _ H) as [news [Hq Hnews]].
    exists (with_seq ev n :: news). split.
    + rewrite Hq, <- app_assoc. reflexivity.
    + constructor.
      * exists event. split; [ left; reflexivity | ].
        unfold normalizeEvent in He.
        destruct (raw_type event) as [type | ] eqn:Etype; [ | discriminate ].
        destruct (String.eqb type EmptyString); [ discriminate | ].
        destruct (raw_timestamp event) as [ts | ] eqn:Ets; [ | discriminate ].
        injection He as <-. unfold comes_from. simpl. auto.
      * eapply Forall_impl; [ | exact Hnews ].
        intros a [raw [Hin Hc]]. exists raw. split; [ right; exact Hin | exact Hc ].
Qed.

Lemma push_events_total (events : list RawEvent) :
  Forall well_formed events ->
  forall q n, exists q' n', push_events q n events = Ok (q', n').
Proof.
  induction 1 as [ | event rest Hwf _ IH]; intros q n; simpl.
  - eauto.
  - destruct (normalizeEvent_well_formed event Hwf) as [ev [Hev _]].
    rewrite Hev. simpl. apply IH.
Qed.

(** [enqueueEvents] leaves everything but the queue and the counter, and
    the queue it leaves is in key order, provided the priorities are
    numbers, and holds the old events and the new ones. *)
Lemma enqueueEvents_spec (e e' : Engine) (events : list RawEvent) :
  enqueueEvents e events = Ok e' ->
  quiet e e'
  /\ queue_ordered e'
  /\ _nextFundingTimestamp e' = _nextFundingTimestamp e
  /\ forall ev, In ev (_eventQueue e') ->
                In ev (_eventQueue e)
                \/ exists raw, In raw events /\ comes_from raw ev.
Proof.
  unfold enqueueEvents. intro H. bind_inv H. destruct e0 as [q' n'].
  injection H as <-. simpl.
  destruct (push_events_spec _ _ _ _ _ He0) as [news [-> Hnews]].
  assert (Hsorted : queue_ordered (set_queue e (js_sort before (_eventQueue e ++ news)) n')).
  { unfold queue_ordered, queue_sorted. simpl. intro Hn.
    apply js_sort_sorted, js_sort_numbered. exact Hn. }
  split_all.
  - unfold quiet, same_account. simpl. auto 10.
  - exact Hsorted.
  - reflexivity.
  - intros ev Hin.
    apply (Permutation_in _ (Permutation_sym (js_sort_perm _))) in Hin.
    apply in_app_or in Hin. destruct Hin as [Hin | Hin]; [ left; exact Hin | right ].
    rewrite Forall_forall in Hnews. apply Hnews. exact Hin.
Qed.

Lemma enqueueEvents_total (e : Engine) (events : list RawEvent) :
  Forall well_formed events -> exists e', enqueueEvents e events = Ok e'.
Proof.
  intro Hwf. unfold enqueueEvents.
  destruct (push_events_total events Hwf (_eventQueue e) (seq_counter e)) as [q' [n' Hp]].
  rewrite Hp. simpl. eauto.
Qed.

Lemma enqueueEvents_quiet (e e' : Engine) (events : list RawEvent) :
  enqueueEvents e events = Ok e' -> quiet e e'.
Proof. intro H. apply enqueueEvents_spec in H. tauto. Qed.

Lemma interp_quiet {A : Type} (c : Collab A) :
  forall (e e' : Engine) (a : A), interp c e = Ok (a, e') -> quiet e e'.
Proof.
  induction c as [a0 | k IH | event k IH]; simpl; intros e e' a H.
  - injection H as <- <-. apply quiet_refl.
  - destruct (Rng.random (_rng e)) as [r rng'].
    eapply quiet_trans; [ | eapply IH; exact H ].
    unfold quiet, same_account, queue_ordered. simpl. auto 10.
  - bind_inv H.
    eapply quiet_trans; [ eapply enqueueEvents_quiet; exact He0 | eapply IH; exact H ].
Qed.

Lemma run_strategy_quiet (e e' : Engine) (event : Event) :
  run_strategy strategy e event = Ok e' -> quiet e e'.
Proof.
  unfold run_strategy. intro H. bind_inv H. destruct e0 as [[s' evs] e1].
  eapply quiet_trans; [ eapply interp_quiet; exact He0 | ].
  eapply quiet_trans; [ | eapply enqueueEvents_quiet; exact H ].
  unfold quiet, same_account, queue_ordered. simpl. auto 10.
Qed.

Lemma run_onMarketEvent_quiet (e e' : Engine) (event : Event) :
  run_onMarketEvent execution e event = Ok e' -> quiet e e'.
Proof.
  unfold run_onMarketEvent. intro H. bind_inv H. destruct e0 as [[x' evs] e1].
  eapply quiet_trans; [ eapply interp_quiet; exact He0 | ].
  eapply quiet_trans; [ | eapply enqueueEvents_quiet; exact H ].
  unfold quiet, same_account, queue_ordered. simpl. auto 10.
Qed.

Lemma handleSignal_quiet (e e' : Engine) (event : Event) :
  handleSignal execution e event = Ok e' -> quiet e e'.
Proof.
  unfold handleSignal. intro H. bind_inv H. destruct e0 as [[x' evs] e1].
  eapply quiet_trans; [ eapply interp_quiet; exact He0 | ].
  eapply quiet_trans; [ | eapply enqueueEvents_quiet; exact H ].
  unfold quiet, same_account, queue_ordered. simpl. auto 10.
Qed.

Lemma set_nextFunding_quiet (e : Engine) (t : option Z) : quiet e (set_nextFunding e t).
Proof. unfold quiet, same_account, queue_ordered. simpl. auto 10. Qed.

Lemma fundingLoop_quiet (fuel : nat) :
  forall (e e' : Engine) timestamp fundingRate intervalMs next,
    fundingLoop fuel e timestamp fundingRate intervalMs next = Ok e' -> quiet e e'.
Proof.
  induction fuel as [ | fuel IH]; intros e e' timestamp fundingRate intervalMs next H;
    cbn [fundingLoop] in H.
  - injection H as <-. apply set_nextFunding_quiet.
  - destruct (next <=? timestamp)%Z.
    + bind_inv H.
      eapply quiet_trans; [ eapply enqueueEvents_quiet; exact He0 | eapply IH; exact H ].
    + injection H as <-. apply set_nextFunding_quiet.
Qed.

Lemma queueFundingEventsUntil_quiet (e e' : Engine) (timestamp : Z) :
  queueFundingEventsUntil e timestamp = Ok e' -> quiet e e'.
Proof.
  unfold queueFundingEventsUntil.
  destruct (_ || _ || _).
  - intro H. injection H as <-. apply quiet_refl.
  - destruct (_nextFundingTimestamp e) as [next | ].
    + apply fundingLoop_quiet.
    + intro H. injection H as <-. apply set_nextFunding_quiet.
Qed.

Lemma queueRiskEvents_quiet (e e' : Engine) (timestamp : Z) (trigger : string) :
  queueRiskEvents e timestamp trigger = Ok e' -> quiet e e'.
Proof.
  unfold queueRiskEvents.
  destruct (negb (isMarginMarket (config_market_type e))).
  - intro H. injection H as <-. apply quiet_refl.
  - intro H. bind_inv H.
    destruct (_ && _).
    + eapply quiet_trans; eapply enqueueEvents_quiet; eassumption.
    + injection H as <-. eapply enqueueEvents_quiet; eassumption.
Qed.

(* ------------------------------------------------------------------ *)
(** ** Engine: handlers *)
(* ------------------------------------------------------------------ *)

Lemma newAvgPrice_flat (prevAvg prevQty newQty fillPrice signedQty : jsval) :
  flat_means_zero_avg newQty (newAvgPrice prevAvg prevQty newQty fillPrice signedQty).
Proof.
  unfold flat_means_zero_avg, newAvgPrice. intro H. rewrite H. reflexivity.
Qed.

Lemma handleMarketEvent_facts (e e' : Engine) (event : Event) :
  handleMarketEvent strategy execution e event = Ok e' -> step_facts e e'.
Proof.
  unfold handleMarketEvent. intro H.
  bind_inv H. bind_inv H. bind_inv H.
  eapply step_facts_trans; [ | apply quiet_step_facts; eapply queueRiskEvents_quiet; exact H ].
  eapply step_facts_trans;
    [ | apply quiet_step_facts; eapply queueFundingEventsUntil_quiet; eassumption ].
  eapply step_facts_trans;
    [ | apply quiet_step_facts; eapply run_onMarketEvent_quiet; eassumption ].
  eapply step_facts_trans;
    [ | apply quiet_step_facts; eapply run_strategy_quiet; eassumption ].
  plain_step.
Qed.

Lemma handleOrderFilled_facts (e e' : Engine) (event : Event) :
  handleOrderFilled e event = Ok e' ->
  step_facts e e' /\ position_ok (state e').
Proof.
  unfold handleOrderFilled. intro H.
  pose proof (queueRiskEvents_quiet _ _ _ _ H) as Hq.
  assert (Hpos : position_ok (state e')).
  { destruct Hq as [(Hst & _) _]. unfold position_ok. rewrite Hst. simpl.
    apply newAvgPrice_flat. }
  split; [ | exact Hpos ].
  eapply step_facts_trans; [ | apply quiet_step_facts; exact Hq ].
  plain_step. intros _. apply newAvgPrice_flat.
Qed.

Lemma handleFundingPayment_facts (e e' : Engine) (event : Event) :
  handleFundingPayment e event = Ok e' -> step_facts e e'.
Proof.
  unfold handleFundingPayment. intro H.
  eapply step_facts_trans; [ | apply quiet_step_facts; eapply queueRiskEvents_quiet; exact H ].
  plain_step.
Qed.

Lemma handleLiquidation_facts (e e' : Engine) (event : Event) :
  handleLiquidation e event = Ok e' -> step_facts e e'.
Proof.
  unfold handleLiquidation. intro H. bind_inv H. injection H as <-.
  assert (H1 : step_facts e e0).
  { destruct (negb (strict_eq _ _)).
    - apply handleOrderFilled_facts in He0. destruct He0 as [Hf _].
      eapply step_facts_trans; [ | exact Hf ]. plain_step.
    - injection He0 as <-. plain_step. }
  eapply step_facts_trans; [ exact H1 | ].
  destruct (truthy (penalty (payload event))); plain_step.
Qed.

Lemma handler_facts (e e' : Engine) (event : Event) :
  (if String.eqb (type_ event) "tick" || String.eqb (type_ event) "candle"
   then handleMarketEvent strategy execution e event
   else if String.eqb (type_ event) "signal_generated" then handleSignal execution e event
   else if String.eqb (type_ event) "order_submitted" then handleOrderSubmitted e event
   else if String.eqb (type_ event) "order_filled" then handleOrderFilled e event
   else if String.eqb (type_ event) "order_cancelled" then handleOrderCancelled e event
   else if String.eqb (type_ event) "funding_payment" then handleFundingPayment e event
   else if String.eqb (type_ event) "margin_update" then handleMarginUpdate e event
   else if String.eqb (type_ event) "liquidated" then handleLiquidation e event
   else Throw ("Unknown event type: " ++ type_ event)) = Ok e' ->
  step_facts e e'.
Proof.
  destruct (_ || _); [ apply handleMarketEvent_facts | ].
  destruct (String.eqb _ _).
  { intro H. apply quiet_step_facts. eapply handleSignal_quiet. exact H. }
  destruct (String.eqb _ _).
  { unfold handleOrderSubmitted. intro H. injection H as <-. plain_step. }
  destruct (String.eqb _ _).
  { intro H. apply handleOrderFilled_facts in H. tauto. }
  destruct (String.eqb _ _).
  { unfold handleOrderCancelled. intro H. injection H as <-.
    destruct (orders_get _ _) as [[stored st] | ]; plain_step. }
  destruct (String.eqb _ _); [ apply handleFundingPayment_facts | ].
  destruct (String.eqb _ _).
  { unfold handleMarginUpdate. intro H. injection H as <-. plain_step. }
  destruct (String.eqb _ _); [ apply handleLiquidation_facts | ].
  discriminate.
Qed.

(** One dispatch: the facts of the handler, and one more equity entry that
    records the position as the handler left it. *)
Lemma processEvent_facts (e e' : Engine) (event : Event) :
  processEvent strategy execution e event = Ok e' ->
  (queue_ordered e -> queue_ordered e')
  /\ history e' = history e
  /\ _currentConfig e' = _currentConfig e
  /\ (position_ok (state e) -> position_ok (state e'))
  /\ exists entry,
       _equitySeries e' = _equitySeries e ++ [entry]
       /\ eq_timestamp entry = timestamp event
       /\ position_qty entry = qty (position (state e'))
       /\ position_avg_price entry = avgPrice (position (state e')).
Proof.
  unfold processEvent. intro H. bind_inv H. injection H as <-.
  apply handler_facts in He0. destruct He0 as (F1 & F2 & F3 & F4 & F5).
  unfold queue_ordered, position_ok in *. simpl. split_all; auto.
  eexists. rewrite F3. split_all; reflexivity.
Qed.

End EngineFacts.

(* ------------------------------------------------------------------ *)
(** ** Engine: invariants of a run *)
(* ------------------------------------------------------------------ *)

Lemma reaches_map {A B : Type} (f : A -> B) (o : Outcome A) (b : B) :
  reaches (map_outcome f o) b -> exists a, reaches o a /\ b = f a.
Proof.
  unfold reaches. destruct o as [a | m | a]; simpl; intros [H | H];
    try discriminate; injection H as <-; exists a; auto.
Qed.

Section RunInvariants.

Context {S X : Type}.
Variable strategy : Strategy S.
Variable execution : ExecutionModel X.

Local Abbreviation Engine := (Engine S X).

(** The engine [run] hands to its loop. *)
Lemma prepare_facts (e e0 : Engine) (params : Params) (loaded : list RawEvent) :
  prepare e params loaded = Ok e0 ->
  queue_ordered e0
  /\ history e0 = []
  /\ _equitySeries e0 = []
  /\ _tradeLogs e0 = []
  /\ _currentConfig e0 = Some params
  /\ position (state e0) = {| qty := Num 0; avgPrice := Num 0 |}
  /\ liquidated (state e0) = false.
Proof.
  unfold prepare. intro H. bind_inv H. bind_inv H.
  apply enqueueEvents_spec in H.
  destruct H as ([(Hst & Hlog & Hser & _ & Hcfg & Hhist) _] & Hsorted & _).
  rewrite Hst, Hlog, Hser, Hcfg, Hhist.
  split; [ exact Hsorted | ].
  destruct (initial_cash params); destruct (random_seed params); simpl; auto 10.
Qed.

(** Every equity entry written by the loop records a position whose
    average price is zero if its quantity is. *)
Lemma run_loop_equity_entries (fuel : nat) :
  forall e e' : Engine,
    reaches (run_loop strategy execution fuel e) e' ->
    position_ok (state e) ->
    Forall equity_entry_ok (_equitySeries e) ->
    position_ok (state e') /\ Forall equity_entry_ok (_equitySeries e').
Proof.
  induction fuel as [ | fuel IH]; intros e e' Hrun Hpos Hser; simpl in Hrun.
  - destruct (_eventQueue e); destruct Hrun as [H | H]; try discriminate;
      injection H as <-; auto.
  - destruct (_eventQueue e) as [ | nextEvent rest] eqn:Eq.
    { destruct Hrun as [H | H]; try discriminate. injection H as <-. auto. }
    destruct (processEvent strategy execution (shift e rest) nextEvent) as [e1 | m] eqn:Ep.
    2:{ destruct Hrun as [H | H]; discriminate. }
    apply processEvent_facts in Ep.
    destruct Ep as (_ & _ & _ & Hpos1 & entry & Hser1 & _ & Hq & Ha).
    assert (Hpos' : position_ok (state e1)) by (apply Hpos1; exact Hpos).
    assert (Hser' : Forall equity_entry_ok (_equitySeries e1)).
    { rewrite Hser1. apply Forall_app. split; [ exact Hser | ].
      constructor; [ | constructor ].
      unfold equity_entry_ok. rewrite Hq, Ha. exact Hpos'. }
    cbn [state push_history liquidated] in Hrun.
    destruct (liquidated (state e1)).
    + destruct Hrun as [H | H]; try discriminate. injection H as <-. simpl. auto.
    + apply (IH _ _ Hrun); simpl; auto.
Qed.

(** C7, as the code has it.  In every entry of the equity series of a run
    -- finished, stopped by a liquidation, or still under way -- a recorded
    position quantity of 0 comes with a recorded average price of 0. *)
Theorem flat_position_has_zero_average_price :
  forall (fuel : nat) (e : Engine) (params : Params) (loaded : list RawEvent)
         (r : RunResult),
    reaches (run strategy execution fuel e params loaded) r ->
    Forall equity_entry_ok (equitySeries r).
Proof.
  intros fuel e params loaded r Hrun.
  apply reaches_map in Hrun. destruct Hrun as [e' [Hrun ->]].
  unfold run_engine in Hrun.
  destruct (prepare e params loaded) as [e0 | m] eqn:Eprep.
  2:{ destruct Hrun as [H | H]; discriminate. }
  apply prepare_facts in Eprep.
  destruct Eprep as (_ & _ & Hser & _ & _ & Hpos & _).
  simpl. eapply run_loop_equity_entries; [ exact Hrun | | ].
  - unfold position_ok. rewrite Hpos. simpl. intro. reflexivity.
  - rewrite Hser. constructor.
Qed.

End RunInvariants.

(* ------------------------------------------------------------------ *)
(** ** Engine: funding payments *)
(* ------------------------------------------------------------------ *)

Section Funding.

Context {S X : Type}.
Variable strategy : Strategy S.
Variable execution : ExecutionModel X.

Local Abbreviation Engine := (Engine S X).

Lemma fundingEvent_well_formed (timestamp : Z) (amount : jsval) (rate : Q)
    (notional : jsval) :
  well_formed (fundingEvent timestamp amount rate notional).
Proof.
  split; [ exists "funding_payment"%string | exists timestamp ]; simpl; auto.
  split; [ reflexivity | discriminate ].
Qed.

Lemma riskEvents_well_formed (timestamp : Z) (snapshot : Margin.Snapshot)
    (trigger : string) (penalty : Q) :
  well_formed (marginUpdateEvent timestamp snapshot trigger)
  /\ well_formed (liquidatedEvent timestamp snapshot penalty).
Proof.
  split; (split; [ eexists; simpl; split; [ reflexivity | discriminate ]
                 | eexists; reflexivity ]).
Qed.


Lemma fundingLoop_total (fuel : nat) :
  forall (e : Engine) timestamp fundingRate intervalMs next,
    exists e', fundingLoop fuel e timestamp fundingRate intervalMs next = Ok e'.
Proof.
  induction fuel as [ | fuel IH]; intros e timestamp fundingRate intervalMs next;
    cbn [fundingLoop].
  - eauto.
  - destruct (next <=? timestamp)%Z; [ | eauto ].
    destruct (enqueueEvents_total e
                [fundingEvent next (fundingAmount e fundingRate) fundingRate
                   (fundingNotional e)]) as [e1 He1].
    { constructor; [ apply fundingEvent_well_formed | constructor ]. }
    rewrite He1. simpl. apply IH.
Qed.


(** The fuel of the funding loop is enough: when the loop returns, the next
    funding boundary lies after the timestamp, as the [while] condition
    demands. *)
Lemma fundingLoop_boundary (fuel : nat) :
  forall (e e' : Engine) timestamp fundingRate intervalMs next,
    (0 < intervalMs)%Z ->
    (timestamp - next + 1 <= Z.of_nat fuel)%Z ->
    fundingLoop fuel e timestamp fundingRate intervalMs next = Ok e' ->
    exists n, _nextFundingTimestamp e' = Some n /\ (timestamp < n)%Z.
Proof.
  induction fuel as [ | fuel IH]; intros e e' timestamp fundingRate intervalMs next Hpos Hfuel H;
    cbn [fundingLoop] in H.
  - injection H as <-. exists next. simpl. split; [ reflexivity | lia ].
  - destruct (next <=? timestamp)%Z eqn:El.
    + bind_inv H.
      eapply IH; [ exact Hpos | | exact H ]. lia.
    + injection H as <-. exists next. simpl. apply Z.leb_gt in El. auto.
Qed.

(** Once funding is configured and a position is open,
    [queueFundingEventsUntil] leaves the next funding boundary after the
    timestamp it was called with. *)
Lemma queueFundingEventsUntil_boundary (e e' : Engine) (timestamp : Z) :
  Qeq_bool (cfg_number e cfg_funding_rate) 0 = false ->
  (0 < match _currentConfig e with
       | Some cfg => opt_default (funding_interval_ms cfg) 0
       | None => 0
       end)%Z ->
  strict_eq (qty (position (state e))) (Num 0) = false ->
  queueFundingEventsUntil e timestamp = Ok e' ->
  exists n, _nextFundingTimestamp e' = Some n /\ (timestamp < n)%Z.
Proof.
  intros Hrate Hint Hqty. unfold queueFundingEventsUntil.
  fold (cfg_number e cfg_funding_rate). rewrite Hrate, Hqty.
  apply Z.leb_gt in Hint. rewrite Hint. cbn [orb]. apply Z.leb_gt in Hint.
  destruct (_nextFundingTimestamp e) as [next | ].
  - intro H. eapply fundingLoop_boundary; [ exact Hint | | exact H ]. lia.
  - intro H. injection H as <-. eexists. simpl. split; [ reflexivity | lia ].
Qed.

Lemma queueFundingEventsUntil_total (e : Engine) (timestamp : Z) :
  exists e', queueFundingEventsUntil e timestamp = Ok e'.
Proof.
  unfold queueFundingEventsUntil.
  destruct (_ || _ || _); [ eauto | ].
  destruct (_nextFundingTimestamp e); [ apply fundingLoop_total | eauto ].
Qed.

Lemma queueRiskEvents_total (e : Engine) (timestamp : Z) (trigger : string) :
  exists e', queueRiskEvents e timestamp trigger = Ok e'.
Proof.
  unfold queueRiskEvents.
  destruct (negb (isMarginMarket (config_market_type e))); [ eauto | ].
  match goal with
  | |- context [enqueueEvents e [?ev]] =>
      destruct (enqueueEvents_total e [ev]) as [e1 He1]
  end.
  { constructor; [ apply riskEvents_well_formed; exact 0 | constructor ]. }
  rewrite He1. cbn [bind].
  destruct (_ && _); [ | eauto ].
  apply enqueueEvents_total.
  constructor; [ apply (riskEvents_well_formed _ _ EmptyString) | constructor ].
Qed.



End Funding.

(* ------------------------------------------------------------------ *)
(** ** Engine: liquidation *)
(* ------------------------------------------------------------------ *)

(** Projections of updated engines and states, and arithmetic on numbers
    that are present, without unfolding the rationals. *)
Ltac acct_simpl :=
  cbn [state set_state set_orders push_log push_equity set_queue
       with_cash with_position with_liquidated with_equity with_prices with_margins
       cash position liquidated history _tradeLogs _equitySeries qty avgPrice lastPrice
       Js.sub Js.abs Js.add Js.mul Js.neg lift1 lift2 toNumber nullish number_or_0].

Section Liquidation.

Context {S X : Type}.
Variable strategy : Strategy S.
Variable execution : ExecutionModel X.

Local Abbreviation Engine := (Engine S X).

Lemma processEvent_liquidated (e : Engine) (event : Event) :
  type_ event = "liquidated"%string ->
  processEvent strategy execution e event =
  (e1 <- handleLiquidation e event ;; Ok (updateEquity e1 (timestamp event))).
Proof.
  intro H. unfold processEvent. rewrite H. reflexivity.
Qed.

(** Closing [q] units at [P]: the signed quantity of the synthesized fill
    cancels the position. *)
Lemma closeout_quantity (q : Q) :
  let signed := if Qlt_bool 0 q then - Qabs (Qabs q) else Qabs (Qabs q) in
  ~ q == 0 -> q + signed == 0 /\ signed == - q.
Proof.
  intros signed Hq. unfold signed.
  destruct (Qlt_bool 0 q) eqn:E; q_bool.
  - rewrite !Qabs_pos by (try rewrite Qabs_pos; lra). lra.
  - assert (Hneg : q < 0) by (destruct (Q_trichotomy q) as [[? | ?] | ?]; auto; try lra;
                              contradiction).
    rewrite (Qabs_neg q) by lra. rewrite Qabs_pos by lra. lra.
Qed.

Lemma handleLiquidation_spec (e : Engine) (event : Event) (c q P : Q) :
  cash (state e) = Num c ->
  qty (position (state e)) = Num q ->
  liquidationPrice e event = Num P ->
  exists e1,
    handleLiquidation e event = Ok e1
    /\ liquidated (state e1) = true
    /\ history e1 = history e
    /\ (exists q' c',
           qty (position (state e1)) = Num q' /\ q' == 0
           /\ cash (state e1) = Num c'
           /\ c' == c + q * P - penalty_due (penalty (payload event)))
    /\ (~ q == 0 ->
        avgPrice (position (state e1)) = Num 0
        /\ exists cash_after position_after,
            In (LogOrderFilled (timestamp event) "order_filled"
                  (nullish_s (order_id (payload event))
                     (Some ("liq-" ++ string_of_Z (timestamp event))%string))
                  (Some (if Qlt_bool 0 q then "sell" else "buy")%string)
                  (Num (Qabs q)) (Num P) cash_after position_after)
               (_tradeLogs e1))
    /\ (q == 0 -> position (state e1) = position (state e))
    /\ exists logs,
         _tradeLogs e1 =
         logs ++ [LogLiquidated (timestamp event) (type_ event) (reason (payload event))
                    (nullish (penalty (payload event)) (Num 0))].
Proof.
  intros Hcash Hqty Hprice.
  unfold handleLiquidation.
  set (e0 := set_state e (with_liquidated (state e))).
  assert (Hq0 : qty (position (state e0)) = Num q) by exact Hqty.
  assert (Hc0 : cash (state e0) = Num c) by exact Hcash.
  assert (Hp0 : liquidationPrice e0 event = Num P) by exact Hprice.
  rewrite Hq0. cbn [strict_eq].
  destruct (Qeq_bool q 0) eqn:Ez; cbn [negb bind].
  - (* flat: only the penalty *)
    apply Qeq_bool_iff in Ez.
    eexists. split; [ reflexivity | ].
    unfold penalty_due.
    destruct (truthy (penalty (payload event))) eqn:Etr.
    + destruct (penalty (payload event)) as [ | | | pen]; try discriminate.
      unfold e0. acct_simpl. rewrite Hqty, Hcash. acct_simpl.
      split_all; auto.
      * eexists q, _. split_all; try reflexivity; [ exact Ez | ].
        rewrite Ez. lra.
      * intro. contradiction.
      * eexists. reflexivity.
    + unfold e0. acct_simpl. rewrite Hqty, Hcash.
      split_all; auto.
      * exists q, c. split_all; try reflexivity; [ exact Ez | ].
        rewrite Ez. lra.
      * intro. contradiction.
      * eexists. reflexivity.
  - (* an open position: the synthesized fill, then the penalty *)
    apply Qeq_bool_false in Ez.
    unfold handleOrderFilled.
    match goal with
    | |- context [queueRiskEvents ?filled ?t ?g] =>
        set (eF := filled);
        destruct (queueRiskEvents_total eF t g) as [e2 He2];
        pose proof (queueRiskEvents_quiet _ _ _ _ He2)
          as [(Hst & Hlog & _ & _ & _ & Hhist) _];
        rewrite He2
    end.
    cbn [bind].
    destruct (closeout_quantity q Ez) as [Hsum Hsigned].
    assert (Hside : closeSide e0 = (if Qlt_bool 0 q then "sell" else "buy")%string).
    { unfold closeSide. rewrite Hq0. reflexivity. }
    assert (HstF : state eF =
                   with_position
                     (with_cash (state e0)
                        (Num (c - (if Qlt_bool 0 q then - Qabs (Qabs q) else Qabs (Qabs q)) * P)))
                     {| qty := Num (q + (if Qlt_bool 0 q then - Qabs (Qabs q)
                                         else Qabs (Qabs q)));
                        avgPrice := Num 0 |}).
    { unfold eF. cbn [state set_state set_orders push_log payload closeoutEvent price
                        side ev_qty].
      rewrite Hside, Hq0, Hc0, Hp0.
      unfold signedQtyOf. cbn [side ev_qty nullish].
      destruct (Qlt_bool 0 q) eqn:El; cbn [opt_string_eqb String.eqb Ascii.eqb Bool.eqb];
        unfold newAvgPrice; simpl;
        (match goal with
         | |- context [Qeq_bool ?a 0] =>
             replace (Qeq_bool a 0) with true
               by (symmetry; apply Qeq_bool_iff; exact Hsum)
         end); reflexivity. }
    assert (HlogF : exists cash_after position_after,
               In (LogOrderFilled (timestamp event) "order_filled"
                     (nullish_s (order_id (payload event))
                        (Some ("liq-" ++ string_of_Z (timestamp event))%string))
                     (Some (if Qlt_bool 0 q then "sell" else "buy")%string)
                     (Num (Qabs q)) (Num P) cash_after position_after)
                  (_tradeLogs eF)).
    { unfold eF. cbn [_tradeLogs push_log set_orders set_state payload closeoutEvent
                        price side ev_qty order_id timestamp type_].
      rewrite Hside, Hq0, Hp0. cbn [nullish Js.abs lift1 toNumber].
      do 2 eexists. apply in_or_app. right. left. reflexivity. }
    eexists. split; [ reflexivity | ].
    unfold penalty_due.
    destruct (truthy (penalty (payload event))) eqn:Etr.
    + destruct (penalty (payload event)) as [ | | | pen]; try discriminate.
      acct_simpl. rewrite Hst, Hlog, Hhist, HstF. acct_simpl.
      split_all; auto.
      * eexists _, _. split_all; try reflexivity; [ exact Hsum | ].
        rewrite Hsigned. lra.
      * intro. destruct HlogF as (ca & pa & Hin). split; [ reflexivity | ].
        exists ca, pa. apply in_or_app. left. exact Hin.
      * intro. contradiction.
      * eexists. reflexivity.
    + cbn [state set_state push_log with_cash cash position liquidated history
             _tradeLogs qty avgPrice].
      rewrite Hst, Hlog, Hhist, HstF.
      cbn [with_position with_cash with_liquidated cash position liquidated qty avgPrice
             state set_state].
      split_all; auto.
      * eexists _, _. split_all; try reflexivity; [ exact Hsum | ].
        rewrite Hsigned. lra.
      * intro. destruct HlogF as (ca & pa & Hin). split; [ reflexivity | ].
        exists ca, pa. apply in_or_app. left. exact Hin.
      * intro. contradiction.
      * eexists. reflexivity.
Qed.

(** C3.  When the next event of the loop is a liquidated event, on an
    account with cash [c] and position quantity [q], with liquidation price
    [P]: the loop processes it and stops at once, whatever else is pending
    -- the run is marked liquidated and the dispatch history grows by this
    one event only.  The position ends at quantity 0; cash ends at
    [c + q * P - |penalty|] (no deduction without a penalty); an open
    position is closed through an order-filled entry in the trade log for
    [|q|] units at [P] on the opposite side (sell for a long, buy for a
    short), leaving average price 0; the last log entry is the liquidation
    itself. *)
Theorem liquidation_closes_position_and_ends_run :
  forall (fuel : nat) (e : Engine) (event : Event) (rest : list Event) (c q P : Q),
    _eventQueue e = event :: rest ->
    type_ event = "liquidated"%string ->
    cash (state e) = Num c ->
    qty (position (state e)) = Num q ->
    liquidationPrice e event = Num P ->
    exists e',
      run_loop strategy execution (Datatypes.S fuel) e = Done e'
      /\ liquidated (state e') = true
      /\ dispatched e' = dispatched e ++ [event]
      /\ (exists q' c',
             qty (position (state e')) = Num q' /\ q' == 0
             /\ cash (state e') = Num c'
             /\ c' == c + q * P - penalty_due (penalty (payload event)))
      /\ (~ q == 0 ->
          avgPrice (position (state e')) = Num 0
          /\ exists cash_after position_after,
              In (LogOrderFilled (timestamp event) "order_filled"
                    (nullish_s (order_id (payload event))
                       (Some ("liq-" ++ string_of_Z (timestamp event))%string))
                    (Some (if Qlt_bool 0 q then "sell" else "buy")%string)
                    (Num (Qabs q)) (Num P) cash_after position_after)
                 (_tradeLogs e'))
      /\ (q == 0 -> position (state e') = position (state e))
      /\ exists logs,
           _tradeLogs e' =
           logs ++ [LogLiquidated (timestamp event) "liquidated" (reason (payload event))
                      (nullish (penalty (payload event)) (Num 0))].
Proof.
  intros fuel e event rest c q P Hqueue Htype Hcash Hqty Hprice.
  cbn [run_loop]. rewrite Hqueue.
  rewrite (processEvent_liquidated _ _ Htype).
  destruct (handleLiquidation_spec (shift e rest) event c q P Hcash Hqty Hprice)
    as (e1 & Hrun & Hliq & Hhist & Hclose & Hopen & Hflat & Hlogs).
  rewrite Hrun. cbn [bind].
  assert (Hliq' : liquidated
                    (state (push_history (updateEquity e1 (timestamp event))
                              (event, _eventQueue (updateEquity e1 (timestamp event)))))
                  = true) by exact Hliq.
  rewrite Hliq'.
  eexists. split; [ reflexivity | ].
  split; [ exact Hliq | ].
  split.
  { unfold dispatched. cbn [history push_history updateEquity push_equity set_state].
    rewrite Hhist, map_app. reflexivity. }
  rewrite Htype in Hlogs.
  split_all; assumption.
Qed.

End Liquidation.

(* ------------------------------------------------------------------ *)
(** ** Engine: reproducible runs *)
(* ------------------------------------------------------------------ *)

Section Determinism.

Context {S X : Type}.
Variable strategy : Strategy S.
Variable execution : ExecutionModel X.

Local Abbreviation Engine := (Engine S X).

(** With a seed among the run parameters, what [run] hands to its loop
    depends on the instance only through the collaborators' private
    state. *)
Lemma prepare_forgets_instance (e1 e2 : Engine) (params : Params)
    (loaded : list RawEvent) (seed : Z) :
  random_seed params = Some seed ->
  strategyState e1 = strategyState e2 ->
  executionState e1 = executionState e2 ->
  prepare e1 params loaded = prepare e2 params loaded.
Proof.
  intros Hseed Hs Hx. unfold prepare.
  destruct (validateRunParams params); [ | reflexivity ].
  cbn [bind]. rewrite Hseed. unfold reset. cbn. rewrite Hs, Hx.
  destruct (initial_cash params); reflexivity.
Qed.

(** C2.  For run parameters that carry an integer seed, a run is a
    function of the parameters, the loaded events and the collaborators
    (with their private state) alone.  Two fresh engine instances, whatever
    seed their constructors were given, with the same strategy and execution
    model in the same initial state, return the same outcome: identical
    trade logs, identical equity series, identical final state; and so do
    any two instances that agree on the collaborators' private state,
    whatever earlier runs left in their other fields. *)
Theorem runs_are_reproducible :
  forall (fuel : nat) (params : Params) (loaded : list RawEvent) (seed : Z),
    random_seed params = Some seed ->
    (forall (options1 options2 : option Z) (s0 : S) (x0 : X),
        run strategy execution fuel (new_BacktestEngine options1 s0 x0) params loaded
        = run strategy execution fuel (new_BacktestEngine options2 s0 x0) params loaded)
    /\ (forall e1 e2 : Engine,
          strategyState e1 = strategyState e2 ->
          executionState e1 = executionState e2 ->
          run strategy execution fuel e1 params loaded
          = run strategy execution fuel e2 params loaded).
Proof.
  intros fuel params loaded seed Hseed.
  assert (Hgen : forall e1 e2 : Engine,
             strategyState e1 = strategyState e2 ->
             executionState e1 = executionState e2 ->
             run strategy execution fuel e1 params loaded
             = run strategy execution fuel e2 params loaded).
  { intros e1 e2 Hs Hx. unfold run, run_engine.
    rewrite (prepare_forgets_instance e1 e2 params loaded seed Hseed Hs Hx).
    reflexivity. }
  split; [ | exact Hgen ].
  intros options1 options2 s0 x0. apply Hgen; reflexivity.
Qed.

End Determinism.

(* ------------------------------------------------------------------ *)
(** ** Worked examples *)
(* ------------------------------------------------------------------ *)


(** C7 does not hold as stated: after buying 2 at 100 and selling 1 at 200
    the engine records quantity 1 with average price (200 - 200) / 1 = 0. *)
Lemma open_position_with_zero_average_price :
  exists r entry,
    run noopStrategy createDefaultExecution 10 freshEngine spotParams reducingFills
    = Done r
    /\ In entry (equitySeries r)
    /\ strict_eq (position_avg_price entry) (Num 0) = true
    /\ strict_eq (position_qty entry) (Num 0) = false.
Proof.
  do 2 eexists.
  split; [ vm_compute; reflexivity | ].
  split; [ right; left; reflexivity | ].
  split; reflexivity.
Qed.

Lemma flat_position_has_zero_average_price_witness :
  exists r,
    run noopStrategy createDefaultExecution 10 freshEngine spotParams closeoutEvents
    = Done r
    /\ Forall equity_entry_ok (equitySeries r).
Proof.
  eexists.
  split; [ vm_compute; reflexivity | ].
  apply (flat_position_has_zero_average_price noopStrategy createDefaultExecution 10
           freshEngine spotParams closeoutEvents).
  left. vm_compute. reflexivity.
Defined.

(** The liquidated event at the head of [engineBeforeLiquidation] is the
    last event dispatched; the tick behind it stays in the queue. *)
Lemma liquidation_closes_position_and_ends_run_witness :
  exists e',
    run_loop noopStrategy createDefaultExecution 5 engineBeforeLiquidation = Done e'
    /\ liquidated (state e') = true
    /\ map event_key (dispatched e') = [ (4, Numeric 80, 3) ]%Z
    /\ (exists q' c',
           qty (position (state e')) = Num q' /\ q' == 0
           /\ cash (state e') = Num c' /\ c' == 990).
Proof.
  destruct (liquidation_closes_position_and_ends_run noopStrategy createDefaultExecution
              4 engineBeforeLiquidation
              (mkEvent "liquidated" 4 80 (Some 3%Z) (raw_payload (liquidationInput 4 90)))
              [mkEvent "tick" 5 10 (Some 4%Z) (raw_payload (tickEvent 5 95))]
              900 1 90 eq_refl eq_refl eq_refl eq_refl eq_refl)
    as (e' & Hrun & Hliq & Hdisp & (q' & c' & Hq & Hq0 & Hc & Hc0) & _).
  exists e'. split; [ exact Hrun | ].
  split; [ exact Hliq | ].
  split; [ rewrite Hdisp; reflexivity | ].
  exists q', c'. split_all; auto.
Defined.


(** Two fresh engines constructed with the seeds 1 and 2, run with the seed
    42 among the parameters. *)
Lemma runs_are_reproducible_witness :
  run noopStrategy createDefaultExecution 40 (new_BacktestEngine (Some 1%Z) tt 0%Z)
    perpetualParams steadyEvents
  = run noopStrategy createDefaultExecution 40 (new_BacktestEngine (Some 2%Z) tt 0%Z)
      perpetualParams steadyEvents.
Proof.
  destruct (runs_are_reproducible noopStrategy createDefaultExecution 40 perpetualParams
              steadyEvents 42 eq_refl) as [Hfresh _].
  apply Hfresh.
Defined.

(* ------------------------------------------------------------------ *)
(** ** Engine: cash on a fill, and a margin call end to end *)
(* ------------------------------------------------------------------ *)

Section Fills.

Context {S X : Type}.
Variable strategy : Strategy S.
Variable execution : ExecutionModel X.

Local Abbreviation Engine := (Engine S X).

Lemma processEvent_order_filled (e : Engine) (event : Event) :
  type_ event = "order_filled"%string ->
  processEvent strategy execution e event =
  (e1 <- handleOrderFilled e event ;; Ok (updateEquity e1 (timestamp event))).
Proof.
  intro H. unfold processEvent. rewrite H. reflexivity.
Qed.

(** X1.  Cash conservation on a fill.  Processing an order-filled event never
    fails and leaves [cash - signedQty * fillPrice], where [signedQty] is
    [-|qty|] for a sell and [|qty|] otherwise and the fill price is the
    event's price or, without one, the last price; the new position
    quantity is the old one plus [signedQty]. *)
Theorem cash_conservation_on_fill :
  forall (e : Engine) (event : Event),
    type_ event = "order_filled"%string ->
    let signedQty := signedQtyOf (payload event) in
    let fillPrice := nullish (price (payload event)) (lastPrice (state e)) in
    exists e',
      processEvent strategy execution e event = Ok e'
      /\ cash (state e') = Js.sub (cash (state e)) (Js.mul signedQty fillPrice)
      /\ qty (position (state e')) = Js.add (qty (position (state e))) signedQty
      /\ (forall c q P,
             cash (state e) = Num c -> ev_qty (payload event) = Num q ->
             fillPrice = Num P ->
             cash (state e')
             = Num (c - (if opt_string_eqb (side (payload event)) (Some "sell"%string)
                         then - Qabs q else Qabs q) * P)).
Proof.
  intros e event Htype signedQty fillPrice.
  rewrite (processEvent_order_filled e event Htype).
  unfold handleOrderFilled. fold signedQty. fold fillPrice.
  match goal with
  | |- context [queueRiskEvents ?filled ?t ?g] =>
      destruct (queueRiskEvents_total filled t g) as [e1 He1];
      pose proof (queueRiskEvents_quiet _ _ _ _ He1) as [(Hst & _) _];
      rewrite He1
  end.
  cbn [bind]. eexists. split; [ reflexivity | ].
  unfold updateEquity.
  cbn [state set_state push_equity with_equity cash position].
  rewrite Hst.
  cbn [state set_state set_orders push_log with_position with_cash cash position qty].
  split_all; try reflexivity.
  intros c q P Hc Hq HP. rewrite Hc, HP. unfold signedQty, signedQtyOf. rewrite Hq.
  destruct (opt_string_eqb _ _); reflexivity.
Qed.

End Fills.

(** Selling 1 @ 200 out of a long of 2 with cash 800 leaves cash 1000. *)
Lemma cash_conservation_on_fill_witness :
  let e : Engine unit Z :=
    mkEngine 1%Z (Rng.createSeededRng 1)
      {| cash := Num 800; equity := Num 800; s_margin := Num 0;
         maintenanceMargin := Num 0; unrealizedPnl := Num 0;
         lastPrice := Num 100; s_markPrice := Num 100;
         position := {| qty := Num 2; avgPrice := Num 100 |};
         liquidated := false |}
      [] 2%Z [] [] [] (Some spotParams) None tt 0%Z [] in
  let sell :=
    mkEvent "order_filled" 1 40 (Some 1%Z)
      (raw_payload (orderEvent "order_filled" 1 "x2" (Some "sell"%string) (Num 1)
                      (Num 200))) in
  exists e',
    processEvent noopStrategy createDefaultExecution e sell = Ok e'
    /\ cash (state e') = Num (800 - - Qabs 1 * 200).
Proof.
  intros e sell.
  destruct (cash_conservation_on_fill noopStrategy createDefaultExecution e sell eq_refl)
    as (e' & Hrun & _ & _ & Hcash).
  exists e'. split; [ exact Hrun | ].
  apply (Hcash 800 1 200); reflexivity.
Defined.

(** The liquidation example, end to end, on a perpetual market with margin
    rates 0.1 and 0.05 and penalty rate 0.01: when the mark price falls to
    90 at time 3, the tick is followed within the same timestamp by a
    margin update and a liquidated event; the position is closed at 90
    (cash 100 + 9 * 90 - 8.1), the run is marked liquidated, and the tick
    of time 4 is never dispatched. *)
Example margin_call_liquidates_within_the_timestamp :
  exists e',
    run_engine noopStrategy createDefaultExecution 40 freshEngine perpetualParams
      marginCallEvents = Done e'
    /\ map (fun ev => (timestamp ev, type_ ev)) (dispatched e')
       = [ (1, "tick"); (1, "margin_update");
           (2, "order_filled"); (2, "margin_update");
           (3, "tick"); (3, "margin_update"); (3, "liquidated") ]%Z%string
    /\ map log_kind (_tradeLogs e')
       = [ (1, "margin_update"); (2, "order_filled"); (2, "margin_update");
           (3, "margin_update"); (3, "order_filled"); (3, "liquidated") ]%Z%string
    /\ liquidated (state e') = true
    /\ strict_eq (qty (position (state e'))) (Num 0) = true
    /\ strict_eq (cash (state e')) (Num (100 + 9 * 90 - (81 # 10))) = true
    /\ map (fun ev => (timestamp ev, type_ ev)) (_eventQueue e')
       = [ (3, "margin_update"); (4, "tick") ]%Z%string.
Proof.
  eexists.
  split; [ vm_compute; reflexivity | ].
  split_all; vm_compute; reflexivity.
Qed.

(* ------------------------------------------------------------------ *)
(** ** Seeded random source *)
(* ------------------------------------------------------------------ *)

Lemma u32_range (x : Z) : (0 <= Rng.u32 x < 4294967296)%Z.
Proof. unfold Rng.u32. apply Z.mod_pos_bound. reflexivity. Qed.

Lemma lxor_u32_range (a b : Z) :
  (0 <= a < 4294967296)%Z -> (0 <= b < 4294967296)%Z ->
  (0 <= Z.lxor a b < 4294967296)%Z.
Proof.
  intros Ha Hb.
  assert (Hnn : (0 <= Z.lxor a b)%Z) by (apply Z.lxor_nonneg; lia).
  split; [ exact Hnn | ].
  destruct (Z.eq_dec (Z.lxor a b) 0) as [E | E]; [ rewrite E; reflexivity | ].
  change 4294967296%Z with (2 ^ 32)%Z.
  apply Z.log2_lt_pow2; [ lia | ].
  eapply Z.le_lt_trans; [ apply Z.log2_lxor; lia | ].
  apply Z.max_lub_lt.
  - destruct (Z.eq_dec a 0) as [-> | Hz]; [ reflexivity | ].
    apply Z.log2_lt_pow2; [ lia | ]. change (2 ^ 32)%Z with 4294967296%Z. lia.
  - destruct (Z.eq_dec b 0) as [-> | Hz]; [ reflexivity | ].
    apply Z.log2_lt_pow2; [ lia | ]. change (2 ^ 32)%Z with 4294967296%Z. lia.
Qed.

Lemma shiftr_u32_range (a n : Z) :
  (0 <= n)%Z -> (0 <= a < 4294967296)%Z -> (0 <= Z.shiftr a n < 4294967296)%Z.
Proof.
  intros Hn Ha. rewrite Z.shiftr_div_pow2 by exact Hn.
  assert (Hp : (0 < 2 ^ n)%Z) by (apply Z.pow_pos_nonneg; lia).
  split.
  - apply Z.div_pos; lia.
  - eapply Z.le_lt_trans; [ | apply Ha ].
    apply Z.div_le_upper_bound; [ exact Hp | ]. nia.
Qed.

(** Every draw of the seeded random source lies in [0, 1), and the
    closure's state advances by the constant 0x6d2b79f5 per draw. *)
Lemma random_range (state : Z) :
  0 <= fst (Rng.random state) < 1
  /\ snd (Rng.random state) = (state + 1831565813)%Z.
Proof.
  unfold Rng.random. cbv zeta. cbn [fst snd].
  split; [ | reflexivity ].
  match goal with
  | |- 0 <= inject_Z ?v / _ < 1 =>
      assert (Hv : (0 <= v < 4294967296)%Z)
  end.
  { apply lxor_u32_range.
    - apply lxor_u32_range; [ apply u32_range | apply u32_range ].
    - apply shiftr_u32_range; [ lia | ].
      apply lxor_u32_range; [ apply u32_range | apply u32_range ]. }
  destruct Hv as [Hlo Hhi].
  split.
  - apply Qle_shift_div_l; [ reflexivity | ].
    rewrite Qmult_0_l. change 0 with (inject_Z 0). rewrite <- Zle_Qle. exact Hlo.
  - apply Qlt_shift_div_r; [ reflexivity | ].
    rewrite Qmult_1_l. change 4294967296 with (inject_Z 4294967296).
    rewrite <- Zlt_Qlt. exact Hhi.
Qed.

Section DefaultExecution.

Context {S : Type}.

(** X3.  The default execution model answers a signal that has a side and a
    quantity with an order submitted at the signal's timestamp and its fill
    0 to 99 ms later, at the reference price moved by a slippage in
    [-5, 5) basis points; it draws twice from the seeded source and never
    schedules into the past. *)
Theorem default_execution_latency_and_slippage :
  forall (e : Engine S Z) (orderCounter : Z) (signal : Event) (ctx : Context)
         (sideName : string),
    side (payload signal) = Some sideName ->
    sideName <> EmptyString ->
    truthy (ev_qty (payload signal)) = true ->
    let id := ("order-" ++ string_of_Z (orderCounter + 1))%string in
    let refPrice :=
      nullish (price (payload signal)) (nullish (lastPrice (ctx_state ctx)) (Num 0)) in
    exists (latencyMs : Z) (slippageBps : Q) (e' : Engine S Z),
      interp (onSignal createDefaultExecution orderCounter signal ctx) e
      = Ok ((orderCounter + 1,
             [ orderEvent "order_submitted" (timestamp signal) id (Some sideName)
                 (ev_qty (payload signal)) refPrice;
               orderEvent "order_filled" (timestamp signal + latencyMs) id (Some sideName)
                 (ev_qty (payload signal))
                 (Js.mul refPrice (Num (1 + slippageBps / 10000))) ])%Z, e')
      /\ (0 <= latencyMs <= 99)%Z
      /\ (- (5) <= slippageBps < 5)
      /\ _rng e' = (_rng e + 2 * 1831565813)%Z.
Proof.
  intros e orderCounter signal ctx sideName Hside Hne Hqty id refPrice.
  cbn [onSignal createDefaultExecution]. rewrite Hside, Hqty.
  assert (Hs : String.eqb sideName EmptyString = false)
    by (apply String.eqb_neq; exact Hne).
  rewrite Hs. cbn [orb negb interp].
  pose proof (random_range (_rng e)) as [[Hlo1 Hhi1] Hst1].
  destruct (Rng.random (_rng e)) as [r1 s1]. cbn [fst snd] in *.
  cbn [interp _rng set_rng].
  pose proof (random_range s1) as [[Hlo2 Hhi2] Hst2].
  destruct (Rng.random s1) as [r2 s2]. cbn [fst snd] in *.
  cbn [interp].
  exists (Math_floor (r1 * 100)), ((r2 - (1 # 2)) * 10). eexists.
  split; [ reflexivity | ].
  split_all.
  - unfold Math_floor. change 0%Z with (Qfloor 0). apply Qfloor_resp_le. lra.
  - unfold Math_floor.
    assert (H : (Qfloor (r1 * 100) < 100)%Z).
    { rewrite Zlt_Qlt. eapply Qle_lt_trans; [ apply Qfloor_le | ].
      change (inject_Z 100) with 100. lra. }
    lia.
  - lra.
  - lra.
  - cbn [_rng set_rng]. lia.
Qed.

End DefaultExecution.

(** A buy signal for 0.1 @ 100 at time 1, answered on a fresh engine. *)
Lemma default_execution_latency_and_slippage_witness :
  let signal :=
    mkEvent "signal_generated" 1 20 (Some 1%Z)
      (raw_payload (signalEvent 1 "buy" (1 # 10) 100)) in
  let ctx := createContext freshEngine 1 in
  exists (latencyMs : Z) (slippageBps : Q) (e' : Engine unit Z),
    interp (onSignal createDefaultExecution 0%Z signal ctx) freshEngine
    = Ok ((1%Z,
           [ orderEvent "order_submitted" 1 "order-1" (Some "buy"%string)
               (Num (1 # 10)) (Num 100);
             orderEvent "order_filled" (1 + latencyMs) "order-1" (Some "buy"%string)
               (Num (1 # 10)) (Js.mul (Num 100) (Num (1 + slippageBps / 10000))) ]), e')
    /\ (0 <= latencyMs <= 99)%Z
    /\ (- (5) <= slippageBps < 5)
    /\ _rng e' = (_rng freshEngine + 2 * 1831565813)%Z.
Proof.
  intros signal ctx.
  assert (Hside : "buy"%string <> EmptyString) by discriminate.
  exact (default_execution_latency_and_slippage freshEngine 0%Z signal ctx "buy"
           eq_refl Hside eq_refl).
Defined.

(* ------------------------------------------------------------------ *)
(** ** Fill simulation: price and quantity grids *)
(* ------------------------------------------------------------------ *)

Lemma roundToStep_monotone (a b : Q) (step : option Q) :
  a <= b -> Fill.roundToStep a step <= Fill.roundToStep b step.
Proof.
  intro Hab. unfold Fill.roundToStep.
  destruct step as [s | ]; [ | exact Hab ].
  destruct (Qle_bool s 0) eqn:Es; [ exact Hab | ].
  apply Qle_bool_false in Es. cbv zeta.
  apply Qmult_le_compat_r; [ | lra ].
  rewrite <- Zle_Qle. unfold Math_round. apply Qfloor_resp_le.
  assert (a / s <= b / s).
  { unfold Qdiv. apply Qmult_le_compat_r; [ exact Hab | ].
    apply Qlt_le_weak, Qinv_lt_0_compat, Es. }
  lra.
Qed.


(* ------------------------------------------------------------------ *)
(** ** The stable sort, for any comparison function *)
(* ------------------------------------------------------------------ *)

Section SortFacts.

Context {A : Type}.
Variable before : A -> A -> bool.

Lemma stable_insert_perm (x : A) (l : list A) :
  Permutation (x :: l) (insert_sorted before x l).
Proof.
  induction l as [ | y l IH]; simpl.
  - apply Permutation_refl.
  - destruct (before y x).
    + eapply Permutation_trans; [ apply perm_swap | ].
      apply perm_skip. exact IH.
    + apply Permutation_refl.
Qed.

Lemma stable_sort_perm (l : list A) : Permutation l (js_sort before l).
Proof.
  induction l as [ | x l IH]; simpl.
  - apply Permutation_refl.
  - eapply Permutation_trans; [ apply perm_skip; exact IH | ].
    apply stable_insert_perm.
Qed.

Variable R : A -> A -> Prop.
Hypothesis R_trans : forall a b c, R a b -> R b c -> R a c.
Hypothesis before_true : forall a b, before a b = true -> R a b.
Hypothesis before_false : forall a b, before a b = false -> R b a.

Lemma stable_insert_sorted (x : A) (l : list A) :
  StronglySorted R l -> StronglySorted R (insert_sorted before x l).
Proof.
  induction 1 as [ | y l Hs IH Hall]; simpl.
  - constructor; constructor.
  - destruct (before y x) eqn:E.
    + constructor; [ exact IH | ].
      apply (Permutation_Forall (stable_insert_perm x l)).
      constructor; [ apply before_true; exact E | exact Hall ].
    + constructor; [ constructor; assumption | ].
      constructor; [ apply before_false; exact E | ].
      eapply Forall_impl; [ | exact Hall ].
      intros z Hz. eapply R_trans; [ apply before_false; exact E | exact Hz ].
Qed.

Lemma stable_sort_sorted (l : list A) : StronglySorted R (js_sort before l).
Proof.
  induction l as [ | x l IH]; simpl.
  - constructor.
  - apply stable_insert_sorted. exact IH.
Qed.

End SortFacts.

(* ------------------------------------------------------------------ *)
(** ** Fill simulation: walking the book *)
(* ------------------------------------------------------------------ *)

Lemma ascending_sorted (ls : list Fill.Level) :
  StronglySorted (fun a b => Fill.l_price a <= Fill.l_price b)
    (js_sort (fun a b => Qlt_bool (Fill.l_price a - Fill.l_price b) 0) ls).
Proof.
  apply stable_sort_sorted.
  - intros a b c H1 H2. lra.
  - intros a b H. apply Qlt_bool_iff in H. lra.
  - intros a b H. apply Qlt_bool_false in H. lra.
Qed.

Lemma descending_sorted (ls : list Fill.Level) :
  StronglySorted (fun a b => Fill.l_price b <= Fill.l_price a)
    (js_sort (fun a b => Qlt_bool (Fill.l_price b - Fill.l_price a) 0) ls).
Proof.
  apply stable_sort_sorted.
  - intros a b c H1 H2. lra.
  - intros a b H. apply Qlt_bool_iff in H. lra.
  - intros a b H. apply Qlt_bool_false in H. lra.
Qed.

Lemma normalizeBookSide_perm (levels : option (list Fill.Level)) :
  Permutation (Fill.normalizeBookSide levels)
    (filter (fun level => Qlt_bool 0 (Fill.l_qty level)) (opt_default levels [])).
Proof.
  destruct levels as [ls | ]; simpl.
  - apply Permutation_sym, stable_sort_perm.
  - apply Permutation_refl.
Qed.

Lemma bookLevels_perm (side : string) (book : option Fill.Book) :
  Permutation (Fill.bookLevels side book)
    (filter (fun level => Qlt_bool 0 (Fill.l_qty level)) (opposite_levels side book)).
Proof.
  unfold Fill.bookLevels, opposite_levels.
  destruct (String.eqb side "buy").
  - destruct book as [b | ]; apply normalizeBookSide_perm.
  - eapply Permutation_trans; [ apply Permutation_sym, stable_sort_perm | ].
    destruct book as [b | ]; apply normalizeBookSide_perm.
Qed.

Lemma bookLevels_sorted (side : string) (book : option Fill.Book) :
  StronglySorted (fun a b => price_priority side (Fill.l_price a) (Fill.l_price b))
    (Fill.bookLevels side book).
Proof.
  unfold Fill.bookLevels, price_priority.
  destruct (String.eqb side "buy").
  - unfold Fill.normalizeBookSide.
    destruct (match book with Some b => Fill.asks b | None => None end).
    + apply ascending_sorted.
    + constructor.
  - apply descending_sorted.
Qed.

Lemma book_levels_positive (side : string) (book : option Fill.Book) :
  Forall (fun level => 0 < Fill.l_qty level) (Fill.bookLevels side book).
Proof.
  apply (Permutation_Forall (Permutation_sym (bookLevels_perm side book))).
  apply Forall_forall. intros level Hin.
  apply filter_In in Hin. destruct Hin as [_ H].
  apply Qlt_bool_iff in H. exact H.
Qed.

(** X5.  The levels an order walks are the levels of the opposite side of the
    book that hold a positive quantity, none lost and none repeated, best
    price first: asks by ascending price for a buy, bids by descending
    price for any other side.  A missing book or side gives no level. *)
Theorem book_levels_best_price_first (side : string) (book : option Fill.Book) :
  let levels := Fill.bookLevels side book in
  Permutation levels
    (filter (fun level => Qlt_bool 0 (Fill.l_qty level)) (opposite_levels side book))
  /\ Forall (fun level => 0 < Fill.l_qty level) levels
  /\ StronglySorted
       (fun a b => price_priority side (Fill.l_price a) (Fill.l_price b)) levels.
Proof.
  intro levels. split_all.
  - apply bookLevels_perm.
  - apply book_levels_positive.
  - apply bookLevels_sorted.
Qed.









Lemma price_priority_rounded (side : string) (a b : Q) (step : option Q) :
  price_priority side a b ->
  price_priority side (Fill.roundToTick a step) (Fill.roundToTick b step).
Proof.
  unfold price_priority, Fill.roundToTick.
  destruct (String.eqb side "buy"); apply roundToStep_monotone.
Qed.

Lemma StronglySorted_snoc {A : Type} (R : A -> A -> Prop) (l : list A) (y : A) :
  StronglySorted R l -> Forall (fun x => R x y) l -> StronglySorted R (l ++ [y]).
Proof.
  induction 1 as [ | x l Hs IH Hall]; intro Hy; simpl.
  - constructor; constructor.
  - inversion Hy; subst.
    constructor; [ apply IH; assumption | ].
    apply Forall_app. split; [ exact Hall | constructor; [ assumption | constructor ] ].
Qed.

Lemma bookFill_loop_price_order (c : Fill.Constraints) (fs : Fill.Fees) (side : string)
    (limitPrice : option Q) (timestamp : Z) (orderId : string) (forceTaker : bool) :
  forall levels L remaining fills L' fills' remaining',
    StronglySorted
      (fun a b => price_priority side (Fill.l_price a) (Fill.l_price b)) levels ->
    StronglySorted
      (fun f g => price_priority side (Fill.f_price f) (Fill.f_price g)) fills ->
    Forall (fun f =>
              Forall (fun level =>
                        price_priority side (Fill.f_price f)
                          (Fill.roundToTick (Fill.l_price level) (Fill.tickSize c)))
                     levels) fills ->
    Fill.bookFill_loop c fs side limitPrice timestamp orderId forceTaker levels
      L remaining fills = (L', fills', remaining') ->
    StronglySorted
      (fun f g => price_priority side (Fill.f_price f) (Fill.f_price g)) fills'.
Proof.
  induction levels as [ | level rest IH];
    intros L remaining fills L' fills' remaining' Hlevels Hfills Hbelow Hrun.
  - simpl in Hrun. injection Hrun as <- <- <-. exact Hfills.
  - simpl in Hrun. inversion Hlevels as [ | ? ? Hrest Hhead]; subst.
    assert (Hbelow' :
              Forall (fun f =>
                        Forall (fun level =>
                                  price_priority side (Fill.f_price f)
                                    (Fill.roundToTick (Fill.l_price level) (Fill.tickSize c)))
                               rest) fills).
    { eapply Forall_impl; [ | exact Hbelow ].
      intros f Hf. inversion Hf; assumption. }
    destruct (negb (Fill.priceMatch side limitPrice level) || Qle_bool remaining 0).
    + eapply IH; eassumption.
    + destruct (Fill.applyFill L side _ _ _) as [L1 delta].
      eapply IH; [ exact Hrest | | | exact Hrun ].
      * apply StronglySorted_snoc; [ exact Hfills | ].
        eapply Forall_impl; [ | exact Hbelow ].
        intros f Hf. inversion Hf; assumption.
      * apply Forall_app. split; [ exact Hbelow' | ].
        constructor; [ | constructor ].
        cbn [Fill.f_price].
        eapply Forall_impl; [ | exact Hhead ].
        intros l Hl. apply price_priority_rounded. exact Hl.
Qed.

(** X7.  The fills of [_bookFill] come in price priority: each is executed at
    the tick-rounded price of a level of the opposite side that holds a
    positive quantity and that the limit price admits, and no fill is at a
    better price than the fill before it. *)
Theorem bookFill_takes_best_prices_first (M : Fill.FillModel) (side : string) (qty : Q)
    (book : option Fill.Book) (limitPrice : option Q) (timestamp : Z)
    (orderId : string) (forceTaker : bool) :
  let '(_, fills, _) :=
    Fill._bookFill M side qty book limitPrice timestamp orderId forceTaker in
  StronglySorted
    (fun f g => price_priority side (Fill.f_price f) (Fill.f_price g)) fills
  /\ Forall (fun f =>
               exists level,
                 In level (opposite_levels side book)
                 /\ 0 < Fill.l_qty level
                 /\ Fill.priceMatch side limitPrice level = true
                 /\ Fill.f_price f
                    = Fill.roundToTick (Fill.l_price level)
                        (Fill.tickSize (Fill.constraints M))) fills.
Proof.
  unfold Fill._bookFill.
  destruct (Fill.bookFill_loop _ _ _ _ _ _ _ _ _ _ _) as [[L fills] remaining] eqn:Erun.
  split.
  - eapply bookFill_loop_price_order; [ | | | exact Erun ].
    + apply bookLevels_sorted.
    + constructor.
    + constructor.
  - eapply bookFill_loop_fills in Erun; [ | apply incl_refl | constructor ].
    eapply Forall_impl; [ | exact Erun ].
    intros f (_ & _ & [level (Hin & Hmatch & Hprice)] & _).
    exists level.
    apply (Permutation_in _ (bookLevels_perm side book)) in Hin.
    apply filter_In in Hin. destruct Hin as [Hin Hq].
    apply Qlt_bool_iff in Hq. auto.
Qed.

(* ------------------------------------------------------------------ *)
(** ** Fill simulation: market orders *)
(* ------------------------------------------------------------------ *)



(** Every fill of the loop of [_bookFill] carries the order's id, side and
    timestamp. *)
Lemma bookFill_loop_stamps (c : Fill.Constraints) (fs : Fill.Fees) (side : string)
    (limitPrice : option Q) (timestamp : Z) (orderId : string) (forceTaker : bool) :
  let stamped f :=
    Fill.f_orderId f = orderId /\ Fill.f_side f = side
    /\ Fill.f_timestamp f = timestamp
    /\ Fill.f_liquidity f = (if forceTaker then "taker" else "maker")%string in
  forall levels L remaining fills L' fills' remaining',
    Forall stamped fills ->
    Fill.bookFill_loop c fs side limitPrice timestamp orderId forceTaker levels
      L remaining fills = (L', fills', remaining') ->
    Forall stamped fills'.
Proof.
  intro stamped.
  induction levels as [ | level rest IH]; intros L remaining fills L' fills' remaining' Hok Hrun.
  - simpl in Hrun. injection Hrun as <- <- <-. exact Hok.
  - simpl in Hrun.
    destruct (negb (Fill.priceMatch side limitPrice level) || Qle_bool remaining 0).
    + eapply IH; eassumption.
    + destruct (Fill.applyFill L side _ _ _) as [L1 delta].
      eapply IH; [ | exact Hrun ].
      apply Forall_app. split; [ exact Hok | ].
      constructor; [ | constructor ].
      unfold stamped. simpl. auto.
Qed.



(* ------------------------------------------------------------------ *)
(** ** Fill simulation: the life of a limit order *)
(* ------------------------------------------------------------------ *)

Lemma evaluateOrder_not_live (M : Fill.FillModel) (o : Fill.Order)
    (marketEvent : Fill.MarketEvent) :
  ~ live o (Fill.me_timestamp marketEvent) ->
  Fill.evaluateOrder M o marketEvent = (M, o, [], []).
Proof.
  unfold live, Fill.evaluateOrder. intro H.
  destruct (String.eqb (Fill.o_status o) "open") eqn:Es; simpl; [ | reflexivity ].
  apply String.eqb_eq in Es.
  destruct (Fill.me_timestamp marketEvent <? Fill.o_activeAt o)%Z eqn:Et; [ reflexivity | ].
  apply Z.ltb_ge in Et. tauto.
Qed.


Lemma map_get_set_other {V : Type} (m : list (string * V)) (k k' : string) (v : V) :
  k' <> k -> Fill.map_get (Fill.map_set m k v) k' = Fill.map_get m k'.
Proof.
  intro Hne. induction m as [ | [k0 v0] m IH]; simpl.
  - destruct (String.eqb k k') eqn:E; [ apply String.eqb_eq in E; congruence | reflexivity ].
  - destruct (String.eqb k0 k) eqn:E; simpl.
    + apply String.eqb_eq in E. subst k0.
      destruct (String.eqb k k') eqn:E'; [ apply String.eqb_eq in E'; congruence | reflexivity ].
    + destruct (String.eqb k0 k'); [ reflexivity | exact IH ].
Qed.


(** The loop of [processMarketEvent]: every stored order is replaced, under
    its key, by what one evaluation of it returns, and the fills and
    cancellations returned are those of the evaluations. *)
Lemma processOrders_entries (marketEvent : Fill.MarketEvent) :
  forall pending M M2 pending' fills cancellations,
    Fill.processOrders M pending marketEvent = (M2, pending', fills, cancellations) ->
    Forall2 (fun ko ko' =>
               fst ko' = fst ko
               /\ exists Ma,
                   snd ko' = evaluated_order (Fill.evaluateOrder Ma (snd ko) marketEvent)
                   /\ incl (evaluated_fills (Fill.evaluateOrder Ma (snd ko) marketEvent)) fills
                   /\ incl (evaluated_cancellations
                              (Fill.evaluateOrder Ma (snd ko) marketEvent)) cancellations)
            pending pending'
    /\ (forall f, In f fills ->
                  exists ko Ma,
                    In ko pending
                    /\ In f (evaluated_fills (Fill.evaluateOrder Ma (snd ko) marketEvent)))
    /\ (forall c, In c cancellations ->
                  exists ko Ma,
                    In ko pending
                    /\ In c (evaluated_cancellations
                               (Fill.evaluateOrder Ma (snd ko) marketEvent))).
Proof.
  induction pending as [ | [k o] rest IH]; intros M M2 pending' fills cancellations H.
  - simpl in H. injection H as <- <- <- <-.
    split_all; [ constructor | intros f [] | intros c [] ].
  - simpl in H.
    destruct (Fill.evaluateOrder M o marketEvent) as [[[M1 o'] fs] cs] eqn:E1.
    destruct (Fill.processOrders M1 rest marketEvent) as [[[M3 rest'] fs'] cs'] eqn:E2.
    injection H as <- <- <- <-.
    destruct (IH _ _ _ _ _ E2) as (Hall & Hf & Hc).
    split_all.
    + constructor.
      * simpl. split; [ reflexivity | ].
        exists M. rewrite E1. unfold evaluated_order, evaluated_fills, evaluated_cancellations.
        simpl. split_all; [ reflexivity | apply incl_appl, incl_refl | apply incl_appl, incl_refl ].
      * eapply Forall2_impl; [ | exact Hall ].
        intros a b [Hk [Ma (Ho & Hfs & Hcs)]].
        split; [ exact Hk | ].
        exists Ma. split_all; [ exact Ho | apply incl_appr; exact Hfs | apply incl_appr; exact Hcs ].
    + intros f Hin. apply in_app_or in Hin. destruct Hin as [Hin | Hin].
      * exists (k, o), M. split; [ left; reflexivity | ].
        simpl. rewrite E1. exact Hin.
      * destruct (Hf f Hin) as [ko [Ma [H1 H2]]].
        exists ko, Ma. split; [ right; exact H1 | exact H2 ].
    + intros c Hin. apply in_app_or in Hin. destruct Hin as [Hin | Hin].
      * exists (k, o), M. split; [ left; reflexivity | ].
        simpl. rewrite E1. exact Hin.
      * destruct (Hc c Hin) as [ko [Ma [H1 H2]]].
        exists ko, Ma. split; [ right; exact H1 | exact H2 ].
Qed.

Lemma Forall2_map_get {V : Type} (P : V -> V -> Prop) (m m' : list (string * V)) :
  Forall2 (fun kv kv' => fst kv' = fst kv /\ P (snd kv) (snd kv')) m m' ->
  forall k v, Fill.map_get m k = Some v ->
              exists v', Fill.map_get m' k = Some v' /\ P v v'.
Proof.
  induction 1 as [ | [k0 v0] [k1 v1] m m' [Hk Hp] Hrest IH]; intros k v; simpl.
  - discriminate.
  - simpl in Hk, Hp. subst k1.
    destruct (String.eqb k0 k).
    + intro H. injection H as <-. eauto.
    + apply IH.
Qed.

Lemma processOrders_get (marketEvent : Fill.MarketEvent)
    (pending pending' : list (string * Fill.Order)) (M M2 : Fill.FillModel)
    (fills : list Fill.Fill) (cancellations : list Fill.Cancellation)
    (k : string) (o : Fill.Order) :
  Fill.processOrders M pending marketEvent = (M2, pending', fills, cancellations) ->
  Fill.map_get pending k = Some o ->
  exists Ma,
    Fill.map_get pending' k
    = Some (evaluated_order (Fill.evaluateOrder Ma o marketEvent))
    /\ incl (evaluated_fills (Fill.evaluateOrder Ma o marketEvent)) fills
    /\ incl (evaluated_cancellations (Fill.evaluateOrder Ma o marketEvent)) cancellations.
Proof.
  intros E Hget. apply processOrders_entries in E. destruct E as (Hall & _ & _).
  destruct (Forall2_map_get
              (fun v v' =>
                 exists Ma,
                   v' = evaluated_order (Fill.evaluateOrder Ma v marketEvent)
                   /\ incl (evaluated_fills (Fill.evaluateOrder Ma v marketEvent)) fills
                   /\ incl (evaluated_cancellations
                              (Fill.evaluateOrder Ma v marketEvent)) cancellations)
              pending pending' Hall k o Hget) as [o' [Hget' [Ma (Ho & Hfs & Hcs)]]].
  exists Ma. subst o'. auto.
Qed.

Lemma bookFill_stamps (M M' : Fill.FillModel) (side : string) (qty : Q)
    (book : option Fill.Book) (limitPrice : option Q) (timestamp : Z)
    (orderId : string) (forceTaker : bool) (fills : list Fill.Fill) (remaining : Q) :
  Fill._bookFill M side qty book limitPrice timestamp orderId forceTaker
  = (M', fills, remaining) ->
  Forall (fun f => Fill.f_orderId f = orderId /\ Fill.f_side f = side
                   /\ Fill.f_timestamp f = timestamp
                   /\ Fill.f_liquidity f = (if forceTaker then "taker" else "maker")%string)
         fills.
Proof.
  unfold Fill._bookFill.
  destruct (Fill.bookFill_loop _ _ _ _ _ _ _ _ _ _ _) as [[L fills0] remaining0] eqn:Erun.
  intro H. injection H as <- <- <-.
  eapply (bookFill_loop_stamps _ _ _ _ _ _ forceTaker) in Erun; [ exact Erun | constructor ].
Qed.

(** What one evaluation of an order returns, case by case. *)
Lemma evaluateOrder_cases (M : Fill.FillModel) (o : Fill.Order)
    (marketEvent : Fill.MarketEvent) :
  let now := Fill.me_timestamp marketEvent in
  let r := Fill.evaluateOrder M o marketEvent in
  (~ live o now /\ r = (M, o, [], []))
  \/ (live o now /\ due (Fill.o_cancelEffectiveAt o) now
      /\ r = (M, Fill.set_status o "cancelled", [],
              [ Fill.mkCancellation (Fill.o_orderId o) "user_cancel" now ]))
  \/ (live o now /\ ~ due (Fill.o_cancelEffectiveAt o) now /\ due (Fill.o_expiresAt o) now
      /\ r = (M, Fill.set_status o "cancelled", [],
              [ Fill.mkCancellation (Fill.o_orderId o) "ttl_timeout" now ]))
  \/ (live o now /\ ~ due (Fill.o_cancelEffectiveAt o) now /\ ~ due (Fill.o_expiresAt o) now
      /\ evaluated_cancellations r = []
      /\ (r = (M, o, [], [])
          \/ exists M' fills remaining,
              fills <> []
              /\ Fill._bookFill M (Fill.o_side o) (Fill.o_remainingQty o)
                   (Some (match Fill.me_orderbook marketEvent with
                          | Some b => b
                          | None => {| Fill.asks := Fill.me_asks marketEvent;
                                       Fill.bids := Fill.me_bids marketEvent |}
                          end))
                   (Some (Fill.o_price o)) now (Fill.o_orderId o)
                   (String.eqb (Fill.o_mode o) "aggressive")
                 = (M', fills, remaining)
              /\ r = (M', Fill.add_fills o fills remaining, fills, []))).
Proof.
  intros now r.
  destruct (String.eqb (Fill.o_status o) "open") eqn:Es.
  2:{ left. assert (Hn : ~ live o now).
      { intros [H _]. apply String.eqb_eq in H. congruence. }
      split; [ exact Hn | apply evaluateOrder_not_live; exact Hn ]. }
  destruct (now <? Fill.o_activeAt o)%Z eqn:Et.
  { left. assert (Hn : ~ live o now).
    { intros [_ H]. apply Z.ltb_lt in Et. lia. }
    split; [ exact Hn | apply evaluateOrder_not_live; exact Hn ]. }
  assert (Hlive : live o now).
  { split; [ apply String.eqb_eq; exact Es | apply Z.ltb_ge; exact Et ]. }
  right. subst r. unfold Fill.evaluateOrder. fold now. rewrite Es, Et. simpl negb. cbv iota.
  destruct (Fill.reached (Fill.o_cancelEffectiveAt o) now) eqn:Ec.
  { left. apply reached_iff in Ec. auto. }
  assert (Hc : ~ due (Fill.o_cancelEffectiveAt o) now).
  { intro H. apply reached_iff in H. congruence. }
  right.
  destruct (Fill.reached (Fill.o_expiresAt o) now) eqn:Ee.
  { left. apply reached_iff in Ee. auto. }
  assert (He : ~ due (Fill.o_expiresAt o) now).
  { intro H. apply reached_iff in H. congruence. }
  right. split_all; auto.
  - destruct (Fill._executeLimitOrder M o marketEvent) as [[M' o'] fills]. reflexivity.
  - unfold Fill._executeLimitOrder. fold now.
    destruct (negb (Fill.crossed o marketEvent) && String.eqb (Fill.o_mode o) "passive").
    + left. reflexivity.
    + destruct (Fill._bookFill _ _ _ _ _ _ _ _) as [[M' fills] remaining] eqn:Eb.
      destruct fills as [ | f fills].
      * left.
        assert (M' = M).
        { unfold Fill._bookFill in Eb.
          destruct (Fill.bookFill_loop _ _ _ _ _ _ _ _ _ _ _) as [[L fills0] remaining0] eqn:Erun.
          injection Eb as <- -> <-.
          assert (L = Fill.ledger M).
          { clear - Erun.
            revert Erun. generalize (Fill.ledger M) as L0. generalize (Fill.o_remainingQty o).
            induction (Fill.bookLevels _ _) as [ | level rest IH]; intros q L0; simpl.
            - intro H. injection H as <- _. reflexivity.
            - destruct (negb _ || Qle_bool q 0); [ apply IH | ].
              destruct (Fill.applyFill L0 _ _ _ _) as [L1 d].
              intro H. exfalso.
              assert (Hne : forall levels L q fs L' r,
                         fs <> [] ->
                         Fill.bookFill_loop (Fill.constraints M) (Fill.fees M) (Fill.o_side o)
                           (Some (Fill.o_price o)) now (Fill.o_orderId o)
                           (String.eqb (Fill.o_mode o) "aggressive") levels L q fs
                         <> (L', [], r)).
              { clear. induction levels as [ | lv levels IHl]; intros L q fs L' r Hfs; simpl.
                - intro H. injection H as _ H _. contradiction.
                - destruct (negb _ || Qle_bool q 0); [ apply IHl; exact Hfs | ].
                  destruct (Fill.applyFill L _ _ _ _) as [L1 d].
                  apply IHl. destruct fs; discriminate. }
              eapply Hne; [ | exact H ]. discriminate. }
          subst L. destruct M. reflexivity. }
        subst M'. reflexivity.
      * right. exists M', (f :: fills), remaining.
        split_all; [ discriminate | reflexivity | reflexivity ].
Qed.

(** X11.  A market event leaves alone every order that is not open or not yet
    active: no order is added or dropped, such orders are stored unchanged,
    and every fill and every cancellation the call returns is stamped with
    the event's time and belongs to an order that was open and active,
    a fill to one whose cancellation and expiry were not due, a cancellation
    to one whose cancellation ([user_cancel]) or expiry ([ttl_timeout]) was
    due. *)
Theorem market_event_touches_only_live_orders (M : Fill.FillModel)
    (marketEvent : Fill.MarketEvent) :
  let '(M', fills, cancellations) := Fill.processMarketEvent M marketEvent in
  let now := Fill.me_timestamp marketEvent in
  map fst (Fill.orders M') = map fst (Fill.orders M)
  /\ (forall k o, Fill.map_get (Fill.orders M) k = Some o -> ~ live o now ->
                  Fill.map_get (Fill.orders M') k = Some o)
  /\ (forall f, In f fills ->
                Fill.f_timestamp f = now
                /\ exists k o,
                    In (k, o) (Fill.orders M) /\ live o now
                    /\ Fill.f_orderId f = Fill.o_orderId o
                    /\ Fill.f_side f = Fill.o_side o
                    /\ ~ due (Fill.o_cancelEffectiveAt o) now
                    /\ ~ due (Fill.o_expiresAt o) now)
  /\ (forall c, In c cancellations ->
                Fill.c_timestamp c = now
                /\ exists k o,
                    In (k, o) (Fill.orders M) /\ live o now
                    /\ Fill.c_orderId c = Fill.o_orderId o
                    /\ (Fill.c_reason c = "user_cancel"%string
                        /\ due (Fill.o_cancelEffectiveAt o) now
                        \/ Fill.c_reason c = "ttl_timeout"%string
                           /\ due (Fill.o_expiresAt o) now)).
Proof.
  unfold Fill.processMarketEvent.
  destruct (Fill.processOrders M (Fill.orders M) marketEvent)
    as [[[M' orders'] fills] cancellations] eqn:E.
  pose proof (fun k o => processOrders_get _ _ _ _ _ _ _ k o E) as Hget0.
  apply processOrders_entries in E. destruct E as (Hall & Hf & Hc).
  cbv zeta. cbn [Fill.orders Fill.set_orders].
  split_all.
  - clear - Hall. induction Hall as [ | a b l l' [Hk _] _ IH]; simpl; congruence.
  - intros k o Hget Hdead.
    destruct (Hget0 k o Hget) as [Ma (Hget' & _)].
    rewrite (evaluateOrder_not_live Ma o marketEvent Hdead) in Hget'.
    exact Hget'.
  - intros f Hin. destruct (Hf f Hin) as [[k o] [Ma [Hko Hfo]]]. simpl in Hfo.
    destruct (evaluateOrder_cases Ma o marketEvent)
      as [[_ Hr] | [(_ & _ & Hr) | [(_ & _ & _ & Hr) | (Hlive & Hnc & Hne & _ & Hr)]]];
      try (rewrite Hr in Hfo; simpl in Hfo; contradiction).
    destruct Hr as [Hr | [Mb [fs [remaining (_ & Hbook & Hr)]]]];
      [ rewrite Hr in Hfo; simpl in Hfo; contradiction | ].
    rewrite Hr in Hfo. unfold evaluated_fills in Hfo. simpl in Hfo.
    apply bookFill_stamps in Hbook. rewrite Forall_forall in Hbook.
    destruct (Hbook f Hfo) as (Hid & Hside & Hts & _).
    split; [ exact Hts | ].
    exists k, o. auto 10.
  - intros c Hin. destruct (Hc c Hin) as [[k o] [Ma [Hko Hco]]]. simpl in Hco.
    destruct (evaluateOrder_cases Ma o marketEvent)
      as [[_ Hr] | [(Hlive & Hdue & Hr) | [(Hlive & _ & Hdue & Hr) | (_ & _ & _ & Hnil & _)]]].
    + rewrite Hr in Hco. simpl in Hco. contradiction.
    + rewrite Hr in Hco. unfold evaluated_cancellations in Hco. simpl in Hco.
      destruct Hco as [<- | []]. simpl. split; [ reflexivity | ].
      exists k, o. auto 10.
    + rewrite Hr in Hco. unfold evaluated_cancellations in Hco. simpl in Hco.
      destruct Hco as [<- | []]. simpl. split; [ reflexivity | ].
      exists k, o. auto 10.
    + rewrite Hnil in Hco. contradiction.
Qed.

(** What a market event keeps of a stored order: its id, its activation
    time and a pending cancellation; and an order it leaves open was open,
    and was not due for cancellation while live. *)
Lemma processMarketEvent_keeps (M : Fill.FillModel) (marketEvent : Fill.MarketEvent)
    (k : string) (o : Fill.Order) :
  Fill.map_get (Fill.orders M) k = Some o ->
  exists o',
    Fill.map_get (Fill.orders (serve M (CallMarketEvent marketEvent))) k = Some o'
    /\ Fill.o_orderId o' = Fill.o_orderId o
    /\ Fill.o_activeAt o' = Fill.o_activeAt o
    /\ Fill.o_cancelEffectiveAt o' = Fill.o_cancelEffectiveAt o
    /\ (Fill.o_status o' = "open"%string ->
        Fill.o_status o = "open"%string
        /\ ~ (live o (Fill.me_timestamp marketEvent)
              /\ due (Fill.o_cancelEffectiveAt o) (Fill.me_timestamp marketEvent))).
Proof.
  intro Hget. unfold serve, Fill.processMarketEvent.
  destruct (Fill.processOrders M (Fill.orders M) marketEvent)
    as [[[M' orders'] fills] cancellations] eqn:E.
  cbn [fst Fill.orders Fill.set_orders].
  destruct (processOrders_get _ _ _ _ _ _ _ k o E Hget) as [Ma (Hget' & _)].
  exists (evaluated_order (Fill.evaluateOrder Ma o marketEvent)).
  split; [ exact Hget' | ].
  destruct (evaluateOrder_cases Ma o marketEvent)
    as [[Hdead Hr] | [(_ & _ & Hr) | [(_ & _ & _ & Hr) | (Hlive & Hnc & _ & _ & Hr)]]].
  - rewrite Hr. unfold evaluated_order. simpl. split_all; auto. tauto.
  - rewrite Hr. unfold evaluated_order. simpl. split_all; auto. discriminate.
  - rewrite Hr. unfold evaluated_order. simpl. split_all; auto. discriminate.
  - destruct Hr as [Hr | [Mb [fs [remaining (_ & _ & Hr)]]]];
      rewrite Hr; unfold evaluated_order; simpl; split_all; auto.
    + tauto.
    + intros _. split; [ apply Hlive | tauto ].
Qed.

(** Over any sequence of market events a stored order keeps its id, its
    activation time and its pending cancellation; if it is open at the end
    it was open at the start and none of the events was at or after both
    its activation and the effective time of the cancellation. *)
Lemma market_events_keep_cancel (k : string) (effectiveAt : Z)
    (events : list Fill.MarketEvent) :
  forall (M : Fill.FillModel) (o : Fill.Order),
    Fill.map_get (Fill.orders M) k = Some o ->
    Fill.o_cancelEffectiveAt o = Some effectiveAt ->
    exists o2,
      Fill.map_get (Fill.orders (fold_left serve (map CallMarketEvent events) M)) k
      = Some o2
      /\ Fill.o_orderId o2 = Fill.o_orderId o
      /\ Fill.o_activeAt o2 = Fill.o_activeAt o
      /\ Fill.o_cancelEffectiveAt o2 = Some effectiveAt
      /\ (Fill.o_status o2 = "open"%string ->
          Fill.o_status o = "open"%string
          /\ Forall (fun ev => (Fill.me_timestamp ev < effectiveAt)%Z
                               \/ (Fill.me_timestamp ev < Fill.o_activeAt o)%Z) events).
Proof.
  induction events as [ | ev rest IH]; intros M o Hget Heff; simpl.
  - exists o. split_all; auto.
  - destruct (processMarketEvent_keeps M ev k o Hget) as [o' (Hget' & Hid & Hact & Hc & Hopen)].
    destruct (IH _ o' Hget') as [o2 (H1 & H2 & H3 & H4 & H5)]; [ congruence | ].
    exists o2.
    split; [ exact H1 | ]. split; [ congruence | ]. split; [ congruence | ].
    split; [ exact H4 | ].
    intro Hst. destruct (H5 Hst) as [Hst' Hall]. destruct (Hopen Hst') as [Hst0 Hnot].
    split; [ exact Hst0 | ]. constructor.
    + destruct (Z_lt_le_dec (Fill.me_timestamp ev) effectiveAt) as [Hlt | Hge];
        [ left; exact Hlt | right ].
      destruct (Z_lt_le_dec (Fill.me_timestamp ev) (Fill.o_activeAt o)) as [Hlt | Hge'];
        [ exact Hlt | exfalso ].
      apply Hnot. split; [ split; assumption | ].
      exists effectiveAt. split; assumption.
    + rewrite Hact in Hall. exact Hall.
Qed.

(** X12.  A cancel request for an id that is not stored, or whose order is no
    longer open, is rejected with [order_not_open] and changes nothing.  A
    request for an open order takes effect at the request time plus the
    latency (the model's default when none is passed, never less than
    zero): the order is stored with the request and its effective time and
    is otherwise unchanged.  From then on, over any sequence of market
    events, the order stays stored with its effective time, and a market
    event at or after the effective time gives it no fill.  Market events
    before the effective time may fill it; if it is still open after them,
    none of them was at or after both its activation and the effective
    time, and the next market event that is cancels it and reports
    [user_cancel]. *)
Theorem cancel_request_takes_effect (M : Fill.FillModel) (orderId : string)
    (timestamp : Z) (latencyMs : option Z) :
  match Fill.requestCancel M orderId timestamp latencyMs with
  | (M1, Fill.CancelRejected r) =>
      M1 = M
      /\ Fill.r_reason r = "order_not_open"%string
      /\ Fill.r_orderId r = Some orderId
      /\ (forall o, Fill.map_get (Fill.orders M) orderId = Some o ->
                    Fill.o_status o <> "open"%string)
  | (M1, Fill.CancelRequested id effectiveAt) =>
      id = orderId
      /\ effectiveAt
         = (timestamp + Z.max 0 (opt_default latencyMs (Fill.defaultCancelLatencyMs M)))%Z
      /\ (timestamp <= effectiveAt)%Z
      /\ exists o,
          Fill.map_get (Fill.orders M) orderId = Some o
          /\ Fill.o_status o = "open"%string
          /\ Fill.map_get (Fill.orders M1) orderId
             = Some (Fill.set_cancel o timestamp effectiveAt)
          /\ (forall k, k <> orderId ->
                        Fill.map_get (Fill.orders M1) k = Fill.map_get (Fill.orders M) k)
          /\ forall events : list Fill.MarketEvent,
              let M2 := fold_left serve (map CallMarketEvent events) M1 in
              exists o2,
                Fill.map_get (Fill.orders M2) orderId = Some o2
                /\ Fill.o_cancelEffectiveAt o2 = Some effectiveAt
                /\ (forall marketEvent,
                       (effectiveAt <= Fill.me_timestamp marketEvent)%Z ->
                       exists o3,
                         Fill.map_get
                           (Fill.orders (serve M2 (CallMarketEvent marketEvent))) orderId
                         = Some o3
                         /\ Fill.o_fills o3 = Fill.o_fills o2)
                /\ (Fill.o_status o2 = "open"%string ->
                    Forall (fun ev => (Fill.me_timestamp ev < effectiveAt)%Z
                                      \/ (Fill.me_timestamp ev < Fill.o_activeAt o)%Z)
                           events
                    /\ forall marketEvent,
                        (Fill.o_activeAt o <= Fill.me_timestamp marketEvent)%Z ->
                        (effectiveAt <= Fill.me_timestamp marketEvent)%Z ->
                        let '(M3, fills, cancellations) :=
                          Fill.processMarketEvent M2 marketEvent in
                        Fill.map_get (Fill.orders M3) orderId
                        = Some (Fill.set_status o2 "cancelled")
                        /\ In (Fill.mkCancellation (Fill.o_orderId o) "user_cancel"
                                 (Fill.me_timestamp marketEvent)) cancellations)
  end.
Proof.
  unfold Fill.requestCancel.
  destruct (Fill.map_get (Fill.orders M) orderId) as [o | ] eqn:Eget.
  2:{ simpl. split_all; auto. discriminate. }
  destruct (String.eqb (Fill.o_status o) "open") eqn:Es; simpl negb; cbv iota.
  2:{ simpl. split_all; auto. intros o' H. injection H as <-.
      intro Hopen. apply String.eqb_eq in Hopen. congruence. }
  apply String.eqb_eq in Es.
  set (effectiveAt := (timestamp + Z.max 0 (opt_default latencyMs
                                             (Fill.defaultCancelLatencyMs M)))%Z).
  split_all; auto; [ subst effectiveAt; lia | ].
  exists o. cbn [Fill.orders Fill.set_orders].
  split_all; auto.
  - apply map_get_set.
  - intros k Hk. apply map_get_set_other. exact Hk.
  - intros events.
    set (M2 := fold_left serve (map CallMarketEvent events)
                 (Fill.set_orders M
                    (Fill.map_set (Fill.orders M) orderId
                       (Fill.set_cancel o timestamp effectiveAt)))).
    destruct (market_events_keep_cancel orderId effectiveAt events
                (Fill.set_orders M
                   (Fill.map_set (Fill.orders M) orderId
                      (Fill.set_cancel o timestamp effectiveAt)))
                (Fill.set_cancel o timestamp effectiveAt))
      as [o2 (Hget2 & Hid2 & Hact2 & Heff2 & Hopen2)].
    { cbn [Fill.orders Fill.set_orders]. apply map_get_set. }
    { reflexivity. }
    fold M2 in Hget2. cbn [Fill.set_cancel Fill.o_orderId Fill.o_activeAt Fill.o_status]
      in Hid2, Hact2, Hopen2.
    exists o2. split_all; auto.
    + intros marketEvent Hlate.
      unfold serve, Fill.processMarketEvent.
      destruct (Fill.processOrders M2 (Fill.orders M2) marketEvent)
        as [[[M3 orders3] fills] cancellations] eqn:E.
      cbn [fst Fill.orders Fill.set_orders].
      destruct (processOrders_get _ _ _ _ _ _ _ orderId o2 E Hget2) as [Ma (Hget3 & _)].
      exists (evaluated_order (Fill.evaluateOrder Ma o2 marketEvent)).
      split; [ exact Hget3 | ].
      assert (Hdue : due (Fill.o_cancelEffectiveAt o2) (Fill.me_timestamp marketEvent)).
      { exists effectiveAt. split; assumption. }
      destruct (evaluateOrder_cases Ma o2 marketEvent)
        as [[_ Hr] | [(_ & _ & Hr) | [(_ & Hnot & _) | (_ & Hnot & _)]]];
        try contradiction; rewrite Hr; reflexivity.
    + intro Hst. split; [ apply Hopen2; exact Hst | ].
      intros marketEvent Hactive Hlate.
      unfold Fill.processMarketEvent.
      destruct (Fill.processOrders M2 (Fill.orders M2) marketEvent)
        as [[[M3 orders3] fills] cancellations] eqn:E.
      cbn [Fill.orders Fill.set_orders].
      destruct (processOrders_get _ _ _ _ _ _ _ orderId o2 E Hget2)
        as [Ma (Hget3 & _ & Hcs)].
      assert (Hdue : due (Fill.o_cancelEffectiveAt o2) (Fill.me_timestamp marketEvent)).
      { exists effectiveAt. split; assumption. }
      destruct (evaluateOrder_cases Ma o2 marketEvent)
        as [[Hdead _] | [(_ & _ & Hr) | [(_ & Hnot & _) | (_ & Hnot & _)]]];
        try contradiction.
      * exfalso. apply Hdead. split; [ assumption | lia ].
      * rewrite Hr in Hget3, Hcs.
        unfold evaluated_order in Hget3. unfold evaluated_cancellations in Hcs.
        simpl in Hget3, Hcs. split; [ exact Hget3 | ].
        rewrite <- Hid2. apply Hcs. left. reflexivity.
Qed.

(** The repository's test of a cancel that loses the race: an aggressive
    buy of 1 @ 100 is submitted at time 0 and its cancellation is requested
    at time 1 with a latency of 10.  A market event at time 5 offering the
    quantity at 100 fills the order before the cancellation is effective;
    the market event at time 11 finds it filled and cancels nothing. *)
Lemma cancel_request_takes_effect_witness :
  let M0 := Fill.new_FillModel
              (Fill.mkOptions (Some 1) (Some 1) None None None None None None
                 (Some 10%Z) (Some 0%Z)) in
  let M := fst (Fill.submitLimitOrder M0 "buy" 1 100 (Some "aggressive"%string)
                  None 0 (Some "L2"%string)) in
  let early := Fill.mkMarketEvent 5 (Some 100) (Some 99)
                 (Some (Fill.mkBook (Some [Fill.mkLevel 100 1]) (Some []))) None None in
  let late := Fill.mkMarketEvent 11 (Some 100) (Some 99)
                (Some (Fill.mkBook (Some [Fill.mkLevel 100 1]) (Some []))) None None in
  exists M1 o2 o3,
    Fill.requestCancel M "L2" 1 None = (M1, Fill.CancelRequested "L2" 11)
    /\ Fill.map_get (Fill.orders (serve M1 (CallMarketEvent early))) "L2" = Some o2
    /\ Fill.o_status o2 = "filled"%string
    /\ Fill.o_cancelEffectiveAt o2 = Some 11%Z
    /\ Fill.map_get
         (Fill.orders (serve (serve M1 (CallMarketEvent early)) (CallMarketEvent late)))
         "L2" = Some o3
    /\ Fill.o_fills o3 = Fill.o_fills o2
    /\ List.length (Fill.o_fills o3) = 1%nat.
Proof.
  intros M0 M early late.
  pose proof (cancel_request_takes_effect M "L2" 1 None) as H.
  destruct (Fill.requestCancel M "L2" 1 None) as [M1 [r | id effectiveAt]] eqn:E;
    [ discriminate E | ].
  assert (Hid : id = "L2"%string /\ effectiveAt = 11%Z).
  { vm_compute in E. injection E as _ <- <-. split; reflexivity. }
  destruct Hid as [-> ->].
  destruct H as (_ & _ & _ & o & _ & _ & _ & _ & Hevents).
  destruct (Hevents [early]) as [o2 (Hget2 & Heff2 & Hlate & _)].
  cbn [fold_left map] in Hget2, Hlate.
  destruct (Hlate late) as [o3 (Hget3 & Hfills3)]; [ simpl; lia | ].
  exists M1, o2, o3. split_all; auto.
  - assert (Hst : option_map Fill.o_status
                    (Fill.map_get (Fill.orders (serve M1 (CallMarketEvent early))) "L2")
                  = Some "filled"%string).
    { assert (EM : M1 = fst (Fill.requestCancel M "L2" 1 None)) by (rewrite E; reflexivity).
      rewrite EM. vm_compute. reflexivity. }
    rewrite Hget2 in Hst. simpl in Hst. injection Hst as Hst. exact Hst.
  - rewrite Hfills3.
    assert (Hlen : option_map (fun o => List.length (Fill.o_fills o))
                     (Fill.map_get (Fill.orders (serve M1 (CallMarketEvent early))) "L2")
                   = Some 1%nat).
    { assert (EM : M1 = fst (Fill.requestCancel M "L2" 1 None)) by (rewrite E; reflexivity).
      rewrite EM. vm_compute. reflexivity. }
    rewrite Hget2 in Hlen. simpl in Hlen. injection Hlen as Hlen. exact Hlen.
Defined.

(* ------------------------------------------------------------------ *)
(** ** Fill simulation: a limit order at a market event *)
(* ------------------------------------------------------------------ *)











(* ------------------------------------------------------------------ *)
(** ** Position ledger: a round trip *)
(* ------------------------------------------------------------------ *)



(* ------------------------------------------------------------------ *)
(** ** Slippage *)
(* ------------------------------------------------------------------ *)

Lemma slippageImpact_adverse (model : Fill.SlippageModel) (side : string)
    (spread qty avgVolume : Q) :
  nonnegative_slippage model ->
  0 <= spread ->
  price_priority side 0 (Fill.slippageImpact (Some model) side spread qty avgVolume).
Proof.
  intros (Hf & Hp & Hb & Hk) Hspread.
  unfold Fill.slippageImpact, price_priority.
  assert (Hliq : 0 <= opt_default (Fill.sm_base model) 0
                      + opt_default (Fill.sm_k model) 0
                        * (Qabs qty / (if Qlt_bool 0 avgVolume then avgVolume else 1))).
  { assert (0 <= Qabs qty / (if Qlt_bool 0 avgVolume then avgVolume else 1)).
    { apply Qle_shift_div_l.
      - destruct (Qlt_bool 0 avgVolume) eqn:E; [ apply Qlt_bool_iff in E; exact E | reflexivity ].
      - rewrite Qmult_0_l. apply Qabs_nonneg. }
    pose proof (Qmult_le_0_compat _ _ Hk H). lra. }
  pose proof (Qmult_le_0_compat _ _ Hspread Hp) as Hsp.
  destruct (Fill.sm_type model) as [ty | ]; [ | destruct (String.eqb side "buy"); lra ].
  destruct (String.eqb ty EmptyString); [ destruct (String.eqb side "buy"); lra | ].
  destruct (String.eqb ty "simple_fixed"); [ destruct (String.eqb side "buy"); lra | ].
  destruct (String.eqb ty "pct_of_spread"); [ destruct (String.eqb side "buy"); lra | ].
  destruct (String.eqb ty "liquidity_based"); destruct (String.eqb side "buy"); lra.
Qed.

(** X10.  Slippage is signed by the side alone: whatever the model, its
    parameters and the spread, the impact on any side other than [buy] is
    the opposite of the impact on a buy.  With parameters and a spread that
    are not negative, a buy is never moved below the reference price and a
    sell never above it.  Without a model there is no impact. *)
Theorem slippage_moves_price_against_the_taker (model : option Fill.SlippageModel)
    (side : string) (spread qty avgVolume : Q) :
  let impact := Fill.slippageImpact model side spread qty avgVolume in
  (side <> "buy"%string ->
   impact == - Fill.slippageImpact model "buy" spread qty avgVolume)
  /\ (forall m, model = Some m -> nonnegative_slippage m -> 0 <= spread ->
                price_priority side 0 impact)
  /\ (model = None -> impact = 0).
Proof.
  intro impact. split_all.
  - intro Hside. subst impact. unfold Fill.slippageImpact.
    destruct (String.eqb side "buy") eqn:E; [ apply String.eqb_eq in E; contradiction | ].
    simpl String.eqb. cbv iota.
    destruct model as [model | ]; [ | lra ].
    destruct (Fill.sm_type model) as [ty | ]; [ | lra ].
    destruct (String.eqb ty EmptyString); [ lra | ].
    destruct (String.eqb ty "simple_fixed"); [ lra | ].
    destruct (String.eqb ty "pct_of_spread"); [ lra | ].
    destruct (String.eqb ty "liquidity_based"); lra.
  - intros m -> Hmodel Hspread. apply slippageImpact_adverse; assumption.
  - intros ->. reflexivity.
Qed.

(** A sell of 5 under a liquidity-based model (base 0.01, k 0.02, average
    volume 10) is moved down by 0.02, as much as a buy is moved up; and a
    model with a negative parameter still mirrors the two sides. *)
Lemma slippage_moves_price_against_the_taker_witness :
  let model := Fill.mkSlippage (Some "liquidity_based"%string) None None
                 (Some (1 # 100)) (Some (2 # 100)) in
  let contrary := Fill.mkSlippage (Some "simple_fixed"%string) (Some (- (3))) None
                    None None in
  Fill.slippageImpact (Some model) "sell" 0 5 10 == - (2 # 100)
  /\ price_priority "sell" 0 (Fill.slippageImpact (Some model) "sell" 0 5 10)
  /\ Fill.slippageImpact (Some model) "sell" 0 5 10
     == - Fill.slippageImpact (Some model) "buy" 0 5 10
  /\ Fill.slippageImpact (Some contrary) "sell" 0 5 10
     == - Fill.slippageImpact (Some contrary) "buy" 0 5 10.
Proof.
  cbv zeta.
  destruct (slippage_moves_price_against_the_taker
              (Some (Fill.mkSlippage (Some "liquidity_based"%string) None None
                       (Some (1 # 100)) (Some (2 # 100)))) "sell" 0 5 10)
    as (Hmirror & Hadverse & _).
  destruct (slippage_moves_price_against_the_taker
              (Some (Fill.mkSlippage (Some "simple_fixed"%string) (Some (- (3))) None
                       None None)) "sell" 0 5 10)
    as (Hcontrary & _).
  split; [ reflexivity | ]. split_all.
  - apply (Hadverse _ eq_refl).
    + unfold nonnegative_slippage. simpl. split_all; discriminate.
    + discriminate.
  - apply Hmirror. discriminate.
  - apply Hcontrary. discriminate.
Defined.

(** X9.  The fallback fill of a market order, with a reference price in the
    market snapshot: one taker fill for the whole quantity, nothing
    remaining, at the tick-rounded reference price plus slippage, with the
    taker fee on its notional.  When the slippage model in force (the
    order's, or the model's default) and the spread are not negative, the
    fill is never at a better price than the tick-rounded reference
    price. *)
Theorem bookless_fill_at_reference_plus_slippage (M : Fill.FillModel) (side : string)
    (qty : Q) (market : Fill.Market) (orderId : string) (timestamp : Z)
    (model : option Fill.SlippageModel) (refPrice : Q) :
  Fill.referencePrice (Some market) = Some refPrice ->
  let inForce := match model with Some m => m | None => Fill.defaultSlippageModel M end in
  let tick := Fill.tickSize (Fill.constraints M) in
  let '(M', fills, remaining) :=
    Fill._booklessFill M side qty (Some market) orderId timestamp model in
  remaining = 0
  /\ exists f,
      fills = [f]
      /\ Fill.f_qty f = qty
      /\ Fill.f_liquidity f = "taker"%string
      /\ Fill.f_price f
         = Fill.roundToTick
             (refPrice
              + Fill.slippageImpact (Some inForce) side
                  (opt_default (Fill.spread market) 0) qty
                  (opt_default (Fill.avgVolume market) qty)) tick
      /\ Fill.f_fee f = Fill.f_price f * qty * Fill.taker (Fill.fees M)
      /\ (nonnegative_slippage inForce -> 0 <= opt_default (Fill.spread market) 0 ->
          price_priority side (Fill.roundToTick refPrice tick) (Fill.f_price f)).
Proof.
  intros Href inForce tick. unfold Fill._booklessFill. rewrite Href.
  destruct (Fill.applyFill _ _ _ _ _) as [L' delta].
  split; [ reflexivity | ].
  eexists. split; [ reflexivity | ].
  cbn [Fill.f_qty Fill.f_liquidity Fill.f_price Fill.f_fee].
  split_all; try reflexivity.
  intros Hmodel Hspread.
  pose proof (slippageImpact_adverse inForce side (opt_default (Fill.spread market) 0) qty
                (opt_default (Fill.avgVolume market) qty) Hmodel Hspread) as Himpact.
  fold inForce. fold tick.
  unfold price_priority in *. unfold Fill.roundToTick.
  destruct (String.eqb side "buy"); apply roundToStep_monotone; lra.
Qed.

Lemma bookless_fill_at_reference_plus_slippage_witness :
  let market := Fill.mkMarket (Some 100) None None (Some 2) None in
  let model := Fill.mkSlippage (Some "pct_of_spread"%string) None (Some (1 # 2)) None None in
  let '(M', fills, remaining) :=
    Fill._booklessFill (Fill.new_FillModel Fill.noOptions) "buy" 3 (Some market) "m1" 5
      (Some model) in
  remaining = 0 /\ exists f, fills = [f] /\ Fill.f_price f == 101 /\ Fill.f_qty f = 3.
Proof.
  pose proof (bookless_fill_at_reference_plus_slippage
                (Fill.new_FillModel Fill.noOptions) "buy" 3
                (Fill.mkMarket (Some 100) None None (Some 2) None) "m1" 5
                (Some (Fill.mkSlippage (Some "pct_of_spread"%string) None (Some (1 # 2))
                         None None)) 100 eq_refl) as H.
  cbv zeta in *.
  destruct (Fill._booklessFill _ _ _ _ _ _ _) as [[M' fills] remaining].
  destruct H as (Hr & f & Hf & Hq & _ & Hp & _).
  split; [ exact Hr | ].
  exists f. split_all; [ exact Hf | rewrite Hp; reflexivity | exact Hq ].
Defined.

(* ------------------------------------------------------------------ *)
(** ** Engine: what is enqueued, and under which sequence numbers *)
(* ------------------------------------------------------------------ *)

Lemma seqs_from_app (n : Z) (k1 k2 : nat) :
  seqs_from n (k1 + k2) = seqs_from n k1 ++ seqs_from (n + Z.of_nat k1)%Z k2.
Proof.
  revert n. induction k1 as [ | k1 IH]; intro n.
  - simpl. rewrite Z.add_0_r. reflexivity.
  - cbn [Nat.add seqs_from app]. rewrite IH. do 3 f_equal. lia.
Qed.

Lemma seqs_from_In (n : Z) (k : nat) (s : option Z) :
  In s (seqs_from n k) -> exists m, s = Some m /\ (n <= m < n + Z.of_nat k)%Z.
Proof.
  revert n. induction k as [ | k IH]; intros n; simpl.
  - intros [].
  - intros [<- | H].
    + exists n. split; [ reflexivity | lia ].
    + destruct (IH _ H) as [m [-> Hm]]. exists m. split; [ reflexivity | lia ].
Qed.

Lemma seqs_from_NoDup (n : Z) (k : nat) : NoDup (seqs_from n k).
Proof.
  revert n. induction k as [ | k IH]; intro n; simpl.
  - constructor.
  - constructor; [ | apply IH ].
    intro H. apply seqs_from_In in H. destruct H as [m [E Hm]].
    injection E as <-. lia.
Qed.

Section Enqueued.

Context {S X : Type}.
Variable strategy : Strategy S.
Variable execution : ExecutionModel X.

Local Abbreviation Engine := (Engine S X).

Lemma enqueued_same (e e' : Engine) :
  _eventQueue e' = _eventQueue e -> seq_counter e' = seq_counter e -> enqueued e e' [].
Proof.
  intros Hq Hn. unfold enqueued. rewrite Hq, Hn, app_nil_r. simpl.
  split_all; [ apply Permutation_refl | reflexivity | lia ].
Qed.

Lemma enqueued_trans (e1 e2 e3 : Engine) (n1 n2 : list Event) :
  enqueued e1 e2 n1 -> enqueued e2 e3 n2 -> enqueued e1 e3 (n1 ++ n2).
Proof.
  unfold enqueued. intros (P1 & S1 & C1) (P2 & S2 & C2). split_all.
  - eapply Permutation_trans; [ exact P2 | ].
    rewrite app_assoc. apply Permutation_app_tail. exact P1.
  - rewrite map_app, length_app, seqs_from_app, S1, S2, C1. reflexivity.
  - rewrite C2, C1, length_app, Nat2Z.inj_add. lia.
Qed.

Lemma push_events_exact (events : list RawEvent) :
  forall q n q' n',
    push_events q n events = Ok (q', n') ->
    exists news,
      q' = q ++ news
      /\ Forall2 comes_from events news
      /\ map priority news
         = map (fun raw => opt_default (getProperty EVENT_PRIORITY
                                          (opt_default (raw_type raw) EmptyString))
                             90%Z) events
      /\ map _seq news = seqs_from n (List.length news)
      /\ n' = (n + Z.of_nat (List.length news))%Z.
Proof.
  induction events as [ | event rest IH]; simpl; intros q n q' n' H.
  - injection H as <- <-. exists []. rewrite app_nil_r. simpl.
    split_all; auto; lia.
  - bind_inv H. rename e into ev.
    destruct (IH _ _ _ _ H) as [news (Hq & Hfrom & Hprio & Hseq & Hn)].
    exists (with_seq ev n :: news).
    unfold normalizeEvent in He.
    destruct (raw_type event) as [type | ] eqn:Etype; [ | discriminate ].
    destruct (String.eqb type EmptyString); [ discriminate | ].
    destruct (raw_timestamp event) as [ts | ] eqn:Ets; [ | discriminate ].
    injection He as <-.
    split_all.
    + rewrite Hq, <- app_assoc. reflexivity.
    + constructor; [ | exact Hfrom ].
      unfold comes_from. simpl. auto.
    + simpl. rewrite Hprio. reflexivity.
    + simpl. rewrite Hseq. reflexivity.
    + rewrite Hn. cbn [List.length]. lia.
Qed.

(** [enqueueEvents], exactly: the pushed events are the normalized
    arguments, numbered from the counter on. *)
Lemma enqueueEvents_exact (e e' : Engine) (events : list RawEvent) :
  enqueueEvents e events = Ok e' ->
  exists news,
    enqueued e e' news
    /\ Forall2 comes_from events news
    /\ map priority news
       = map (fun raw => opt_default (getProperty EVENT_PRIORITY
                                          (opt_default (raw_type raw) EmptyString))
                           90%Z) events.
Proof.
  unfold enqueueEvents. intro H. bind_inv H. destruct e0 as [q' n'].
  injection H as <-.
  destruct (push_events_exact _ _ _ _ _ He0) as [news (Hq & Hfrom & Hprio & Hseq & Hn)].
  exists news. unfold enqueued. simpl in *. subst q'.
  split_all; auto.
  apply Permutation_sym, stable_sort_perm.
Qed.

Lemma enqueueEvents_enqueued (e e' : Engine) (events : list RawEvent) :
  enqueueEvents e events = Ok e' -> exists news, enqueued e e' news.
Proof.
  intro H. apply enqueueEvents_exact in H. destruct H as [news [H _]]. eauto.
Qed.

Lemma interp_enqueued {A : Type} (c : Collab A) :
  forall (e e' : Engine) (a : A),
    interp c e = Ok (a, e') -> exists news, enqueued e e' news.
Proof.
  induction c as [a0 | k IH | event k IH]; simpl; intros e e' a H.
  - injection H as <- <-. exists []. apply enqueued_same; reflexivity.
  - destruct (Rng.random (_rng e)) as [r rng'].
    destruct (IH _ _ _ _ H) as [news Hn]. exists news.
    unfold enqueued in *. simpl in *. exact Hn.
  - bind_inv H.
    destruct (enqueueEvents_enqueued _ _ _ He0) as [n1 H1].
    destruct (IH _ _ _ H) as [n2 H2].
    exists (n1 ++ n2). eapply enqueued_trans; eassumption.
Qed.

Lemma run_strategy_enqueued (e e' : Engine) (event : Event) :
  run_strategy strategy e event = Ok e' -> exists news, enqueued e e' news.
Proof.
  unfold run_strategy. intro H. bind_inv H. destruct e0 as [[s' evs] e1].
  destruct (interp_enqueued _ _ _ _ He0) as [n1 H1].
  destruct (enqueueEvents_enqueued _ _ _ H) as [n2 H2].
  exists (n1 ++ n2). eapply enqueued_trans; [ exact H1 | exact H2 ].
Qed.

Lemma run_onMarketEvent_enqueued (e e' : Engine) (event : Event) :
  run_onMarketEvent execution e event = Ok e' -> exists news, enqueued e e' news.
Proof.
  unfold run_onMarketEvent. intro H. bind_inv H. destruct e0 as [[x' evs] e1].
  destruct (interp_enqueued _ _ _ _ He0) as [n1 H1].
  destruct (enqueueEvents_enqueued _ _ _ H) as [n2 H2].
  exists (n1 ++ n2). eapply enqueued_trans; [ exact H1 | exact H2 ].
Qed.

Lemma handleSignal_enqueued (e e' : Engine) (event : Event) :
  handleSignal execution e event = Ok e' -> exists news, enqueued e e' news.
Proof.
  unfold handleSignal. intro H. bind_inv H. destruct e0 as [[x' evs] e1].
  destruct (interp_enqueued _ _ _ _ He0) as [n1 H1].
  destruct (enqueueEvents_enqueued _ _ _ H) as [n2 H2].
  exists (n1 ++ n2). eapply enqueued_trans; [ exact H1 | exact H2 ].
Qed.

Lemma fundingLoop_enqueued (fuel : nat) :
  forall (e e' : Engine) timestamp fundingRate intervalMs next,
    fundingLoop fuel e timestamp fundingRate intervalMs next = Ok e' ->
    exists news, enqueued e e' news.
Proof.
  induction fuel as [ | fuel IH]; intros e e' timestamp fundingRate intervalMs next H;
    cbn [fundingLoop] in H.
  - injection H as <-. exists []. apply enqueued_same; reflexivity.
  - destruct (next <=? timestamp)%Z.
    + bind_inv H.
      destruct (enqueueEvents_enqueued _ _ _ He0) as [n1 H1].
      destruct (IH _ _ _ _ _ _ H) as [n2 H2].
      exists (n1 ++ n2). eapply enqueued_trans; eassumption.
    + injection H as <-. exists []. apply enqueued_same; reflexivity.
Qed.

Lemma queueFundingEventsUntil_enqueued (e e' : Engine) (timestamp : Z) :
  queueFundingEventsUntil e timestamp = Ok e' -> exists news, enqueued e e' news.
Proof.
  unfold queueFundingEventsUntil.
  destruct (_ || _ || _).
  - intro H. injection H as <-. exists []. apply enqueued_same; reflexivity.
  - destruct (_nextFundingTimestamp e) as [next | ].
    + apply fundingLoop_enqueued.
    + intro H. injection H as <-. exists []. apply enqueued_same; reflexivity.
Qed.

Lemma queueRiskEvents_enqueued (e e' : Engine) (timestamp : Z) (trigger : string) :
  queueRiskEvents e timestamp trigger = Ok e' -> exists news, enqueued e e' news.
Proof.
  unfold queueRiskEvents.
  destruct (negb (isMarginMarket (config_market_type e))).
  - intro H. injection H as <-. exists []. apply enqueued_same; reflexivity.
  - intro H. bind_inv H.
    destruct (enqueueEvents_enqueued _ _ _ He0) as [n1 H1].
    destruct (_ && _).
    + destruct (enqueueEvents_enqueued _ _ _ H) as [n2 H2].
      exists (n1 ++ n2). eapply enqueued_trans; eassumption.
    + injection H as <-. eauto.
Qed.

Lemma handleOrderFilled_enqueued (e e' : Engine) (event : Event) :
  handleOrderFilled e event = Ok e' -> exists news, enqueued e e' news.
Proof.
  unfold handleOrderFilled. intro H.
  apply queueRiskEvents_enqueued in H. destruct H as [news H].
  exists news. unfold enqueued in *. simpl in *. exact H.
Qed.

Lemma handleLiquidation_enqueued (e e' : Engine) (event : Event) :
  handleLiquidation e event = Ok e' -> exists news, enqueued e e' news.
Proof.
  unfold handleLiquidation. intro H. bind_inv H. injection H as <-.
  assert (H1 : exists news, enqueued e e0 news).
  { destruct (negb (strict_eq _ _)).
    - apply handleOrderFilled_enqueued in He0. destruct He0 as [news Hn].
      exists news. unfold enqueued in *. simpl in *. exact Hn.
    - injection He0 as <-. exists []. apply enqueued_same; reflexivity. }
  destruct H1 as [news H1]. exists news.
  destruct (truthy (penalty (payload event))); unfold enqueued in *; simpl in *; exact H1.
Qed.

(** One dispatch changes the queue by enqueueing only. *)
Lemma processEvent_enqueued (e e' : Engine) (event : Event) :
  processEvent strategy execution e event = Ok e' -> exists news, enqueued e e' news.
Proof.
  unfold processEvent. intro H. bind_inv H. injection H as <-.
  assert (H1 : exists news, enqueued e e0 news).
  { destruct (_ || _).
    { unfold handleMarketEvent in He0.
      bind_inv He0. bind_inv He0. bind_inv He0.
      apply run_strategy_enqueued in He1. destruct He1 as [n1 H1].
      apply run_onMarketEvent_enqueued in He2. destruct He2 as [n2 H2].
      apply queueFundingEventsUntil_enqueued in He3. destruct He3 as [n3 H3].
      apply queueRiskEvents_enqueued in He0. destruct He0 as [n4 H4].
      exists (((n1 ++ n2) ++ n3) ++ n4).
      eapply enqueued_trans; [ | exact H4 ].
      eapply enqueued_trans; [ | exact H3 ].
      eapply enqueued_trans; [ | exact H2 ].
      unfold enqueued in *. simpl in *. exact H1. }
    destruct (String.eqb _ _); [ eapply handleSignal_enqueued; exact He0 | ].
    destruct (String.eqb _ _).
    { unfold handleOrderSubmitted in He0. injection He0 as <-.
      exists []. apply enqueued_same; reflexivity. }
    destruct (String.eqb _ _); [ eapply handleOrderFilled_enqueued; exact He0 | ].
    destruct (String.eqb _ _).
    { unfold handleOrderCancelled in He0. injection He0 as <-.
      exists []. destruct (orders_get _ _) as [[stored st] | ];
        apply enqueued_same; reflexivity. }
    destruct (String.eqb _ _).
    { unfold handleFundingPayment in He0.
      apply queueRiskEvents_enqueued in He0. destruct He0 as [news Hn].
      exists news. unfold enqueued in *. simpl in *. exact Hn. }
    destruct (String.eqb _ _).
    { unfold handleMarginUpdate in He0. injection He0 as <-.
      exists []. apply enqueued_same; reflexivity. }
    destruct (String.eqb _ _); [ eapply handleLiquidation_enqueued; exact He0 | ].
    discriminate. }
  destruct H1 as [news H1]. exists news.
  unfold enqueued in *. simpl in *. exact H1.
Qed.

Lemma seqs_fresh_enqueued (e e' : Engine) (news done : list Event) :
  (0 <= seq_counter e)%Z ->
  seqs_fresh e done -> enqueued e e' news -> seqs_fresh e' done.
Proof.
  intros Hc [Hnd Hall] (Hperm & Hseq & Hcount).
  assert (Hp : Permutation (done ++ _eventQueue e') ((done ++ _eventQueue e) ++ news)).
  { rewrite <- app_assoc. apply Permutation_app_head. exact Hperm. }
  split.
  - apply (Permutation_NoDup (Permutation_map _seq (Permutation_sym Hp))).
    rewrite map_app. apply NoDup_app.
    + exact Hnd.
    + rewrite Hseq. apply seqs_from_NoDup.
    + intros s Hin Hin'. rewrite Hseq in Hin'.
      apply seqs_from_In in Hin'. destruct Hin' as [m [-> Hm]].
      apply in_map_iff in Hin. destruct Hin as [ev [Hev Hin]].
      rewrite Forall_forall in Hall. destruct (Hall ev Hin) as [n [Hn Hrange]].
      rewrite Hn in Hev. injection Hev as ->. lia.
  - apply (Permutation_Forall (Permutation_sym Hp)).
    apply Forall_app. split.
    + eapply Forall_impl; [ | exact Hall ].
      intros ev [n [Hn Hr]]. exists n. split; [ exact Hn | lia ].
    + apply Forall_forall. intros ev Hin.
      assert (Hs : In (_seq ev) (map _seq news)) by (apply in_map; exact Hin).
      rewrite Hseq in Hs. apply seqs_from_In in Hs. destruct Hs as [m [Hm Hr]].
      exists m. split; [ exact Hm | lia ].
Qed.

Lemma enqueued_counter (e e' : Engine) (news : list Event) :
  enqueued e e' news -> (seq_counter e <= seq_counter e')%Z.
Proof. intros (_ & _ & H). lia. Qed.

Lemma run_loop_seqs_fresh (fuel : nat) :
  forall e e' : Engine,
    reaches (run_loop strategy execution fuel e) e' ->
    (0 <= seq_counter e)%Z ->
    seqs_fresh e (dispatched e) ->
    seqs_fresh e' (dispatched e').
Proof.
  induction fuel as [ | fuel IH]; intros e e' Hrun Hc Hfresh; simpl in Hrun.
  - destruct (_eventQueue e); destruct Hrun as [H | H]; try discriminate;
      injection H as <-; auto.
  - destruct (_eventQueue e) as [ | nextEvent rest] eqn:Eq.
    { destruct Hrun as [H | H]; try discriminate. injection H as <-. auto. }
    destruct (processEvent strategy execution (shift e rest) nextEvent) as [e1 | m] eqn:Ep.
    2:{ destruct Hrun as [H | H]; discriminate. }
    pose proof (processEvent_facts _ _ _ _ _ Ep) as (_ & Hhist & _).
    apply processEvent_enqueued in Ep. destruct Ep as [news Hn].
    assert (Hshift : seqs_fresh (shift e rest) (dispatched e ++ [nextEvent])).
    { unfold seqs_fresh in *. simpl. rewrite Eq in Hfresh.
      rewrite <- app_assoc. simpl. exact Hfresh. }
    pose proof (seqs_fresh_enqueued (shift e rest) e1 news _ Hc Hshift Hn) as H1.
    pose proof (enqueued_counter _ _ _ Hn) as Hc1. simpl in Hc1.
    assert (Hnext : seqs_fresh (push_history e1 (nextEvent, _eventQueue e1))
                      (dispatched (push_history e1 (nextEvent, _eventQueue e1)))).
    { assert (Hd : dispatched (push_history e1 (nextEvent, _eventQueue e1))
                   = dispatched e ++ [nextEvent]).
      { unfold dispatched. simpl. rewrite map_app, Hhist. reflexivity. }
      rewrite Hd. exact H1. }
    cbn [state push_history liquidated] in Hrun.
    destruct (liquidated (state e1)).
    + destruct Hrun as [H | H]; try discriminate. injection H as <-. exact Hnext.
    + apply (IH _ _ Hrun); [ simpl; lia | exact Hnext ].
Qed.

(** X15.  In every run -- finished, stopped by a liquidation, or still under way
    -- each event, dispatched or pending, carries a sequence number, the
    numbers are pairwise different and below the counter: no two events
    ever share a scheduling key, so the order of dispatch among the pending
    events is never a tie. *)
Theorem sequence_numbers_are_unique :
  forall (fuel : nat) (e : Engine) (params : Params) (loaded : list RawEvent)
         (e' : Engine),
    reaches (run_engine strategy execution fuel e params loaded) e' ->
    seqs_fresh e' (dispatched e')
    /\ NoDup (map event_key (dispatched e' ++ _eventQueue e')).
Proof.
  intros fuel e params loaded e' Hrun.
  unfold run_engine in Hrun.
  destruct (prepare e params loaded) as [e0 | m] eqn:Eprep.
  2:{ destruct Hrun as [H | H]; discriminate. }
  pose proof (prepare_facts _ _ _ _ Eprep) as (_ & Hhist & _).
  assert (H0 : seqs_fresh e0 (dispatched e0) /\ (0 <= seq_counter e0)%Z).
  { unfold prepare in Eprep. bind_inv Eprep. bind_inv Eprep.
    apply enqueueEvents_enqueued in Eprep. destruct Eprep as [news Hn].
    unfold dispatched. rewrite Hhist. simpl. split.
    - eapply seqs_fresh_enqueued; [ | | exact Hn ].
      + destruct (initial_cash params); destruct (random_seed params); simpl; lia.
      + unfold seqs_fresh.
        destruct (initial_cash params); destruct (random_seed params); simpl;
          split; constructor.
    - apply enqueued_counter in Hn.
      destruct (initial_cash params); destruct (random_seed params); simpl in Hn; lia. }
  destruct H0 as [H0 Hc0].
  pose proof (run_loop_seqs_fresh _ _ _ Hrun Hc0 H0) as Hfresh.
  split; [ exact Hfresh | ].
  destruct Hfresh as [Hnd Hall].
  revert Hnd Hall. generalize (dispatched e' ++ _eventQueue e') as l.
  induction l as [ | a l IHl]; simpl; intros Hnd Hall.
  - constructor.
  - inversion Hnd as [ | ? ? Hnotin Hnd']; subst.
    inversion Hall as [ | ? ? [n [Hn _]] Hall']; subst.
    constructor; [ | apply IHl; assumption ].
    intro Hin. apply Hnotin.
    apply in_map_iff in Hin. destruct Hin as [b [Hkey Hb]].
    rewrite Forall_forall in Hall'. destruct (Hall' b Hb) as [m [Hm _]].
    unfold event_key, seq_of in Hkey. rewrite Hn, Hm in Hkey. simpl in Hkey.
    injection Hkey as _ _ ->.
    apply in_map_iff. exists b. split; [ congruence | exact Hb ].
Qed.

End Enqueued.

(* ------------------------------------------------------------------ *)
(** ** Engine: the order of dispatch *)
(* ------------------------------------------------------------------ *)

Section DispatchOrder.

Context {S X : Type}.
Variable strategy : Strategy S.
Variable execution : ExecutionModel X.

Local Abbreviation Engine := (Engine S X).




End DispatchOrder.


(** An event of type [constructor] loaded ahead of a liquidated event of
    the same timestamp: its priority is the member the table inherits, the
    comparator yields NaN, the sort leaves the load order, and the run
    fails on the unknown type before the liquidation is reached. *)
Example inherited_priority_is_not_ordered :
  exists ev,
    normalizeEvent (inheritedTypeEvent 5) = Ok ev
    /\ priority ev = Inherited "constructor"
    /\ run_engine noopStrategy createDefaultExecution 10 freshEngine spotParams
         [ inheritedTypeEvent 5; liquidationInput 5 90 ]
       = Failed "Unknown event type: constructor".
Proof.
  eexists. split; [ reflexivity | ]. split; reflexivity.
Qed.

(* ------------------------------------------------------------------ *)
(** ** Engine: the equity series and the end of a run *)
(* ------------------------------------------------------------------ *)

Lemma last_error_snoc {A : Type} (l : list A) (x : A) : last_error (l ++ [x]) = Some x.
Proof. unfold last_error. rewrite rev_app_distr. reflexivity. Qed.

Section RunShape.

Context {S X : Type}.
Variable strategy : Strategy S.
Variable execution : ExecutionModel X.

Local Abbreviation Engine := (Engine S X).

Lemma processEvent_entry (e e' : Engine) (event : Event) :
  processEvent strategy execution e event = Ok e' ->
  exists e0,
    e' = updateEquity e0 (timestamp event)
    /\ _equitySeries e0 = _equitySeries e
    /\ history e0 = history e.
Proof.
  unfold processEvent. intro H. bind_inv H. injection H as <-.
  apply handler_facts in He0. destruct He0 as (_ & Hh & Hs & _).
  exists e0. auto.
Qed.

Lemma updateEquity_entry (e0 : Engine) (timestamp : Z) :
  exists entry,
    _equitySeries (updateEquity e0 timestamp) = _equitySeries e0 ++ [entry]
    /\ eq_timestamp entry = timestamp
    /\ entry_balanced entry
    /\ entry_of_state (state (updateEquity e0 timestamp)) entry.
Proof.
  unfold updateEquity. eexists. cbn [_equitySeries push_equity]. split; [ reflexivity | ].
  unfold entry_balanced, entry_of_state. simpl. auto 10.
Qed.

Lemma run_loop_equity_shape (fuel : nat) :
  forall e e' : Engine,
    reaches (run_loop strategy execution fuel e) e' ->
    equity_shape e -> equity_shape e'.
Proof.
  induction fuel as [ | fuel IH]; intros e e' Hrun Hshape; simpl in Hrun.
  - destruct (_eventQueue e); destruct Hrun as [H | H]; try discriminate;
      injection H as <-; auto.
  - destruct (_eventQueue e) as [ | nextEvent rest] eqn:Eq.
    { destruct Hrun as [H | H]; try discriminate. injection H as <-. auto. }
    destruct (processEvent strategy execution (shift e rest) nextEvent) as [e1 | m] eqn:Ep.
    2:{ destruct Hrun as [H | H]; discriminate. }
    apply processEvent_entry in Ep. destruct Ep as [e0 (He1 & Hser & Hhist)].
    destruct (updateEquity_entry e0 (timestamp nextEvent))
      as [entry (Hentry & Hts & Hbal & Hstate)].
    rewrite <- He1 in Hentry, Hstate.
    assert (Hh : history e1 = history e).
    { rewrite He1. unfold updateEquity. simpl. exact Hhist. }
    clear He1.
    assert (Hnext : equity_shape (push_history e1 (nextEvent, _eventQueue e1))).
    { destruct Hshape as (Ht & Hb & _).
      unfold equity_shape, dispatched.
      cbn [_equitySeries history state push_history].
      rewrite Hentry, Hser. cbn [_equitySeries shift set_queue].
      rewrite Hh. rewrite !map_app. simpl. rewrite Hts.
      split_all.
      - unfold dispatched in Ht. rewrite Ht. reflexivity.
      - apply Forall_app. split; [ exact Hb | constructor; [ exact Hbal | constructor ] ].
      - intros entry' Hlast. rewrite last_error_snoc in Hlast.
        injection Hlast as <-. exact Hstate. }
    cbn [state push_history liquidated] in Hrun.
    destruct (liquidated (state e1)).
    + destruct Hrun as [H | H]; try discriminate. injection H as <-. exact Hnext.
    + apply (IH _ _ Hrun). exact Hnext.
Qed.

(** X16.  The equity series of a run -- finished, stopped by a liquidation, or
    still under way -- has exactly one entry per dispatched event, in
    dispatch order and stamped with the event's timestamp; in every entry
    the equity is the cash plus the unrealized P&L of the recorded position
    at the recorded mark price; and the last entry shows the account as the
    run left it. *)
Theorem equity_series_tracks_dispatch :
  forall (fuel : nat) (e : Engine) (params : Params) (loaded : list RawEvent)
         (e' : Engine),
    reaches (run_engine strategy execution fuel e params loaded) e' ->
    map eq_timestamp (_equitySeries e') = map timestamp (dispatched e')
    /\ Forall entry_balanced (_equitySeries e')
    /\ forall entry, last_error (_equitySeries e') = Some entry ->
                     entry_of_state (state e') entry.
Proof.
  intros fuel e params loaded e' Hrun.
  unfold run_engine in Hrun.
  destruct (prepare e params loaded) as [e0 | m] eqn:Eprep.
  2:{ destruct Hrun as [H | H]; discriminate. }
  apply prepare_facts in Eprep. destruct Eprep as (_ & Hhist & Hser & _).
  apply (run_loop_equity_shape _ _ _ Hrun).
  unfold equity_shape, dispatched. rewrite Hhist, Hser. simpl.
  split_all; [ reflexivity | constructor | discriminate ].
Qed.

End RunShape.

Section RunEnd.

Context {S X : Type}.
Variable strategy : Strategy S.
Variable execution : ExecutionModel X.

Local Abbreviation Engine := (Engine S X).

Lemma quiet_state (e e' : Engine) : quiet e e' -> state e' = state e.
Proof. intros [(H & _) _]. exact H. Qed.

Lemma handleOrderFilled_flag (e e' : Engine) (event : Event) :
  handleOrderFilled e event = Ok e' -> liquidated (state e') = liquidated (state e).
Proof.
  unfold handleOrderFilled. intro H.
  apply queueRiskEvents_quiet, quiet_state in H. rewrite H. reflexivity.
Qed.

(** Only a liquidated event sets the flag that ends a run, and nothing
    clears it. *)
Lemma processEvent_flag (e e' : Engine) (event : Event) :
  processEvent strategy execution e event = Ok e' ->
  liquidated (state e')
  = (liquidated (state e) || String.eqb (type_ event) "liquidated")%bool.
Proof.
  unfold processEvent. intro H. bind_inv H. injection H as <-.
  cbn [updateEquity state push_equity set_state with_equity liquidated].
  destruct (String.eqb (type_ event) "tick" || String.eqb (type_ event) "candle") eqn:Em.
  { assert (Et : String.eqb (type_ event) "liquidated" = false).
    { apply orb_true_iff in Em. destruct Em as [Em | Em];
        apply String.eqb_eq in Em; rewrite Em; reflexivity. }
    rewrite Et, orb_false_r.
    unfold handleMarketEvent in He0.
    bind_inv He0. bind_inv He0. bind_inv He0.
    apply run_strategy_quiet, quiet_state in He1.
    apply run_onMarketEvent_quiet, quiet_state in He2.
    apply queueFundingEventsUntil_quiet, quiet_state in He3.
    apply queueRiskEvents_quiet, quiet_state in He0.
    rewrite He0, He3, He2, He1. reflexivity. }
  destruct (String.eqb (type_ event) "signal_generated") eqn:E1.
  { apply String.eqb_eq in E1. rewrite E1. simpl String.eqb. rewrite orb_false_r.
    apply handleSignal_quiet, quiet_state in He0. rewrite He0. reflexivity. }
  destruct (String.eqb (type_ event) "order_submitted") eqn:E2.
  { apply String.eqb_eq in E2. rewrite E2. simpl String.eqb. rewrite orb_false_r.
    unfold handleOrderSubmitted in He0. injection He0 as <-. reflexivity. }
  destruct (String.eqb (type_ event) "order_filled") eqn:E3.
  { apply String.eqb_eq in E3. rewrite E3. simpl String.eqb. rewrite orb_false_r.
    apply (handleOrderFilled_flag _ _ _ He0). }
  destruct (String.eqb (type_ event) "order_cancelled") eqn:E4.
  { apply String.eqb_eq in E4. rewrite E4. simpl String.eqb. rewrite orb_false_r.
    unfold handleOrderCancelled in He0. injection He0 as <-.
    destruct (orders_get _ _) as [[stored st] | ]; reflexivity. }
  destruct (String.eqb (type_ event) "funding_payment") eqn:E5.
  { apply String.eqb_eq in E5. rewrite E5. simpl String.eqb. rewrite orb_false_r.
    unfold handleFundingPayment in He0.
    apply queueRiskEvents_quiet, quiet_state in He0. rewrite He0. reflexivity. }
  destruct (String.eqb (type_ event) "margin_update") eqn:E6.
  { apply String.eqb_eq in E6. rewrite E6. simpl String.eqb. rewrite orb_false_r.
    unfold handleMarginUpdate in He0. injection He0 as <-. reflexivity. }
  destruct (String.eqb (type_ event) "liquidated") eqn:E7; [ | discriminate ].
  rewrite orb_true_r.
  unfold handleLiquidation in He0. bind_inv He0. injection He0 as <-.
  assert (Hflag : liquidated (state e1) = true).
  { destruct (negb (strict_eq _ _)).
    - apply handleOrderFilled_flag in He1. rewrite He1. reflexivity.
    - injection He1 as <-. reflexivity. }
  destruct (truthy (penalty (payload event))); simpl; exact Hflag.
Qed.

Lemma run_loop_end (fuel : nat) :
  forall e e' : Engine,
    run_loop strategy execution fuel e = Done e' ->
    liquidated (state e) = false ->
    Forall (fun ev => type_ ev <> "liquidated"%string) (dispatched e) ->
    (liquidated (state e') = false /\ _eventQueue e' = []
     /\ Forall (fun ev => type_ ev <> "liquidated"%string) (dispatched e'))
    \/ (liquidated (state e') = true
        /\ exists before ev,
            dispatched e' = before ++ [ev]
            /\ type_ ev = "liquidated"%string
            /\ Forall (fun ev => type_ ev <> "liquidated"%string) before).
Proof.
  induction fuel as [ | fuel IH]; intros e e' Hrun Hflag Hpast; simpl in Hrun.
  - destruct (_eventQueue e) eqn:Eq; [ | discriminate ].
    injection Hrun as <-. left. auto.
  - destruct (_eventQueue e) as [ | nextEvent rest] eqn:Eq.
    { injection Hrun as <-. left. auto. }
    destruct (processEvent strategy execution (shift e rest) nextEvent) as [e1 | m] eqn:Ep;
      [ | discriminate ].
    pose proof (processEvent_facts _ _ _ _ _ Ep) as (_ & Hhist & _).
    apply processEvent_flag in Ep. simpl in Ep. rewrite Hflag in Ep. simpl in Ep.
    assert (Hd : dispatched (push_history e1 (nextEvent, _eventQueue e1))
                 = dispatched e ++ [nextEvent]).
    { unfold dispatched. simpl. rewrite map_app, Hhist. reflexivity. }
    cbn [state push_history liquidated] in Hrun.
    destruct (liquidated (state e1)) eqn:El.
    + injection Hrun as <-. right. split; [ exact El | ].
      exists (dispatched e), nextEvent.
      split_all; [ exact Hd | apply String.eqb_eq; symmetry; exact Ep | exact Hpast ].
    + apply (IH _ _ Hrun); [ exact El | ].
      rewrite Hd. apply Forall_app. split; [ exact Hpast | ].
      constructor; [ | constructor ].
      intro H. apply String.eqb_eq in H. congruence.
Qed.

(** X17.  A run that returns has either dispatched every event, the queue being
    empty and the account not liquidated, or it has stopped right after
    dispatching a liquidated event, the first of the run, with the account
    marked liquidated; nothing else ends a run. *)
Theorem run_stops_early_only_on_liquidation :
  forall (fuel : nat) (e : Engine) (params : Params) (loaded : list RawEvent)
         (e' : Engine),
    run_engine strategy execution fuel e params loaded = Done e' ->
    (liquidated (state e') = false /\ _eventQueue e' = []
     /\ Forall (fun ev => type_ ev <> "liquidated"%string) (dispatched e'))
    \/ (liquidated (state e') = true
        /\ exists before ev,
            dispatched e' = before ++ [ev]
            /\ type_ ev = "liquidated"%string
            /\ Forall (fun ev => type_ ev <> "liquidated"%string) before).
Proof.
  intros fuel e params loaded e' Hrun.
  unfold run_engine in Hrun.
  destruct (prepare e params loaded) as [e0 | m] eqn:Eprep; [ | discriminate ].
  apply prepare_facts in Eprep. destruct Eprep as (_ & Hhist & _ & _ & _ & _ & Hflag).
  apply (run_loop_end _ _ _ Hrun Hflag).
  unfold dispatched. rewrite Hhist. constructor.
Qed.

(** X18.  The dispatcher knows exactly the nine event types of the priority
    table.  An event of any other type passes [normalizeEvent] -- it has a
    type and a timestamp -- and aborts the run when its turn comes: the
    loop fails with the dispatcher's message and returns no result. *)
Theorem unknown_event_type_aborts_run (e : Engine) (raw : RawEvent) (type : string)
    (ts : Z) (fuel : nat) :
  raw_type raw = Some type ->
  type <> EmptyString ->
  raw_timestamp raw = Some ts ->
  EVENT_PRIORITY type = None ->
  exists ev,
    normalizeEvent raw = Ok ev
    /\ type_ ev = type
    /\ timestamp ev = ts
    /\ forall n rest,
        _eventQueue e = with_seq ev n :: rest ->
        run_loop strategy execution (Datatypes.S fuel) e
        = Failed ("Unknown event type: " ++ type).
Proof.
  intros Htype Hne Hts Hprio.
  unfold normalizeEvent. rewrite Htype, Hts.
  destruct (String.eqb type EmptyString) eqn:E; [ apply String.eqb_eq in E; contradiction | ].
  eexists. split; [ reflexivity | ]. cbn [type_ timestamp].
  split_all; try reflexivity.
  intros n rest Hq. cbn [run_loop]. rewrite Hq.
  unfold processEvent. cbn [type_ with_seq].
  unfold EVENT_PRIORITY in Hprio.
  destruct (String.eqb type "tick"); [ discriminate | ].
  destruct (String.eqb type "candle"); [ discriminate | ].
  destruct (String.eqb type "signal_generated"); [ discriminate | ].
  destruct (String.eqb type "order_submitted"); [ discriminate | ].
  destruct (String.eqb type "order_filled"); [ discriminate | ].
  destruct (String.eqb type "order_cancelled"); [ discriminate | ].
  destruct (String.eqb type "funding_payment"); [ discriminate | ].
  destruct (String.eqb type "margin_update"); [ discriminate | ].
  destruct (String.eqb type "liquidated"); [ discriminate | ].
  reflexivity.
Qed.

End RunEnd.

(* ------------------------------------------------------------------ *)
(** ** Engine: risk events and the funding schedule *)
(* ------------------------------------------------------------------ *)

Lemma Qabs_positive (q : Q) : 0 < Qabs q <-> ~ q == 0.
Proof.
  destruct (Q_trichotomy q) as [[H | H] | H].
  - rewrite Qabs_neg by lra. split; intros; lra.
  - rewrite H. change (Qabs 0) with 0. split; intro H'; [ lra | exfalso; apply H'; reflexivity ].
  - rewrite Qabs_pos by lra. split; intros; lra.
Qed.

Section Scheduling.

Context {S X : Type}.
Variable strategy : Strategy S.
Variable execution : ExecutionModel X.

Local Abbreviation Engine := (Engine S X).

Lemma enqueueEvents_one (e e' : Engine) (raw : RawEvent) :
  enqueueEvents e [raw] = Ok e' ->
  exists ev, enqueued e e' [ev] /\ comes_from raw ev.
Proof.
  intro H. apply enqueueEvents_exact in H. destruct H as [news (Hen & Hfrom & _)].
  inversion Hfrom as [ | ? ev ? rest Hc Hrest]; subst.
  inversion Hrest; subst. exists ev. auto.
Qed.

Lemma quiet_getRiskPrice (e e' : Engine) : quiet e e' -> getRiskPrice e' = getRiskPrice e.
Proof.
  intros [(Hst & _ & _ & _ & Hcfg & _) _].
  unfold getRiskPrice, config_market_type. rewrite Hst, Hcfg. reflexivity.
Qed.

(** X2.  The risk check on a margin market, for an account with numeric cash and
    position quantity.  It never fails and leaves the account alone.  It
    enqueues a margin update that carries the margin snapshot taken at the
    risk price; and it enqueues behind it, at the same timestamp, a
    liquidated event -- priced at the snapshot's mark price, with a penalty
    of the position notional times the penalty rate, a negative rate
    counting as zero -- exactly when a position is open and cash plus
    unrealized P&L is below the maintenance margin. *)
Theorem risk_check_schedules_liquidation (e : Engine) (timestamp : Z) (trigger : string)
    (c q : Q) :
  isMarginMarket (config_market_type e) = true ->
  cash (state e) = Num c ->
  qty (position (state e)) = Num q ->
  let snapshot := riskSnapshot e in
  let penalty :=
    Margin.positionNotional snapshot * Qmax_js 0 (cfg_number e liquidation_penalty_rate) in
  let breach :=
    ~ q == 0 /\ c + Margin.unrealizedPnl snapshot < Margin.maintenanceMargin snapshot in
  exists e' update,
    queueRiskEvents e timestamp trigger = Ok e'
    /\ same_account e e'
    /\ comes_from (marginUpdateEvent timestamp snapshot trigger) update
    /\ (breach ->
        exists liq,
          enqueued e e' [update; liq]
          /\ comes_from (liquidatedEvent timestamp snapshot penalty) liq)
    /\ (~ breach -> enqueued e e' [update]).
Proof.
  intros Hm Hc Hq snapshot penalty breach.
  unfold queueRiskEvents. rewrite Hm. simpl negb. cbv iota.
  fold (riskSnapshot e). fold snapshot.
  destruct (enqueueEvents_total e [marginUpdateEvent timestamp snapshot trigger])
    as [e1 He1].
  { constructor; [ apply riskEvents_well_formed; exact 0 | constructor ]. }
  rewrite He1. cbn [bind].
  pose proof (enqueueEvents_quiet _ _ _ He1) as Hq1.
  destruct (enqueueEvents_one _ _ _ He1) as [update [Hen1 Hfrom1]].
  pose proof (quiet_state _ _ Hq1) as Hst1.
  assert (Hcfg1 : _currentConfig e1 = _currentConfig e).
  { destruct Hq1 as [(_ & _ & _ & _ & H & _) _]. exact H. }
  rewrite Hst1, Hc, Hq.
  assert (Hcond :
            Js.gt (Js.abs (Num q)) (Num 0)
            && Js.lt (Js.add (Num c) (Num (Margin.unrealizedPnl snapshot)))
                     (Num (Margin.maintenanceMargin snapshot)) = true
            <-> breach).
  { unfold Js.gt, Js.lt, Js.cmp, Js.abs, Js.add, Js.lift1, Js.lift2. simpl.
    rewrite andb_true_iff, !Qlt_bool_iff, Qabs_positive. unfold breach. tauto. }
  destruct (Js.gt _ _ && Js.lt _ _) eqn:Eb.
  - destruct (enqueueEvents_total e1
                [liquidatedEvent timestamp snapshot
                   (Margin.positionNotional snapshot
                    * Qmax_js 0 (cfg_number e1 liquidation_penalty_rate))]) as [e2 He2].
    { constructor; [ apply (riskEvents_well_formed _ _ EmptyString) | constructor ]. }
    rewrite He2.
    pose proof (enqueueEvents_quiet _ _ _ He2) as Hq2.
    destruct (enqueueEvents_one _ _ _ He2) as [liq [Hen2 Hfrom2]].
    exists e2, update. split_all.
    + reflexivity.
    + destruct (quiet_trans _ _ _ Hq1 Hq2) as [H _]. exact H.
    + exact Hfrom1.
    + intros _. exists liq. split.
      * exact (enqueued_trans _ _ _ _ _ Hen1 Hen2).
      * unfold cfg_number in Hfrom2. rewrite Hcfg1 in Hfrom2. exact Hfrom2.
    + intro Hn. exfalso. apply Hn. apply Hcond. reflexivity.
  - exists e1, update. split_all.
    + reflexivity.
    + destruct Hq1 as [H _]. exact H.
    + exact Hfrom1.
    + intro Hb. apply Hcond in Hb. discriminate.
    + intros _. exact Hen1.
Qed.

End Scheduling.

Section FundingSchedule.

Context {S X : Type}.
Variable strategy : Strategy S.
Variable execution : ExecutionModel X.

Local Abbreviation Engine := (Engine S X).

Lemma boundaries_length (next interval : Z) (k : nat) :
  List.length (boundaries next interval k) = k.
Proof.
  revert next. induction k as [ | k IH]; intro next; simpl; [ reflexivity | ].
  rewrite IH. reflexivity.
Qed.

Lemma fundingLoop_schedule (fuel : nat) :
  forall (e e' : Engine) now fundingRate intervalMs next,
    (0 < intervalMs)%Z ->
    (now - next + 1 <= Z.of_nat fuel)%Z ->
    fundingLoop fuel e now fundingRate intervalMs next = Ok e' ->
    exists news,
      enqueued e e' news
      /\ Forall (fun ev => type_ ev = "funding_payment"%string) news
      /\ map timestamp news = boundaries next intervalMs (List.length news)
      /\ _nextFundingTimestamp e'
         = Some (next + Z.of_nat (List.length news) * intervalMs)%Z
      /\ (now < next + Z.of_nat (List.length news) * intervalMs)%Z
      /\ (news = []
          \/ (next + (Z.of_nat (List.length news) - 1) * intervalMs <= now)%Z).
Proof.
  induction fuel as [ | fuel IH]; intros e e' now fundingRate intervalMs next Hpos Hfuel H;
    cbn [fundingLoop] in H.
  - injection H as <-. exists []. simpl.
    split_all; auto; try lia.
    + apply enqueued_same; reflexivity.
    + f_equal. lia.
  - destruct (next <=? now)%Z eqn:El.
    + apply Z.leb_le in El. bind_inv H. rename e0 into e1.
      destruct (enqueueEvents_one _ _ _ He0) as [ev [Hen1 (Hty & Hts & _)]].
      simpl in Hty, Hts. injection Hty as Hty. injection Hts as Hts.
      assert (Hf : (now - (next + intervalMs) + 1 <= Z.of_nat fuel)%Z) by lia.
      destruct (IH _ _ _ _ _ _ Hpos Hf H)
        as [news (Hen2 & Htypes & Hstamps & Hnext & Hlt & Hlast)].
      exists (ev :: news). cbn [List.length map boundaries].
      rewrite Nat2Z.inj_succ.
      split_all.
      * exact (enqueued_trans _ _ _ _ _ Hen1 Hen2).
      * constructor; [ symmetry; exact Hty | exact Htypes ].
      * rewrite <- Hts, Hstamps. reflexivity.
      * rewrite Hnext. f_equal. lia.
      * lia.
      * right. destruct Hlast as [-> | Hlast]; simpl; lia.
    + apply Z.leb_gt in El. injection H as <-. exists []. simpl.
      split_all; auto; try lia.
      * apply enqueued_same; reflexivity.
      * f_equal. lia.
Qed.

(** X19.  Funding follows its schedule.  With a funding rate other than zero, a
    positive interval, an open position and a next boundary [next], a
    market event at [now] enqueues one funding payment for each
    boundary [next], [next + interval], ... up to [now], stamped with
    that boundary, and moves the next boundary past [now] by the
    least number of intervals; it leaves the account alone.  When no
    boundary is set yet, it sets it one interval after [now] and
    enqueues nothing. *)
Theorem funding_payments_follow_the_schedule (e : Engine) (now : Z) :
  ~ cfg_number e cfg_funding_rate == 0 ->
  (0 < cfg_interval e)%Z ->
  strict_eq (qty (position (state e))) (Num 0) = false ->
  exists e' news,
    queueFundingEventsUntil e now = Ok e'
    /\ same_account e e'
    /\ enqueued e e' news
    /\ Forall (fun ev => type_ ev = "funding_payment"%string) news
    /\ match _nextFundingTimestamp e with
       | None =>
           news = []
           /\ _nextFundingTimestamp e' = Some (now + cfg_interval e)%Z
       | Some next =>
           let k := Z.of_nat (List.length news) in
           map timestamp news = boundaries next (cfg_interval e) (List.length news)
           /\ _nextFundingTimestamp e' = Some (next + k * cfg_interval e)%Z
           /\ (now < next + k * cfg_interval e)%Z
           /\ (news = [] \/ (next + (k - 1) * cfg_interval e <= now)%Z)
       end.
Proof.
  intros Hrate Hint Hqty.
  destruct (queueFundingEventsUntil_total e now) as [e' He'].
  pose proof (queueFundingEventsUntil_quiet _ _ _ He') as [Hsame _].
  revert He'. unfold queueFundingEventsUntil.
  fold (cfg_number e cfg_funding_rate). fold (cfg_interval e).
  apply Qeq_bool_false in Hrate. rewrite Hrate, Hqty.
  assert (Hi : (cfg_interval e <=? 0)%Z = false) by (apply Z.leb_gt; exact Hint).
  rewrite Hi. cbn [orb].
  destruct (_nextFundingTimestamp e) as [next | ] eqn:Enext.
  - intro He'. exists e'.
    assert (Hf : (now - next + 1 <= Z.of_nat (Z.to_nat (now - next + 1)))%Z) by lia.
    destruct (fundingLoop_schedule _ _ _ _ _ _ _ Hint Hf He')
      as [news (Hen & Htypes & Hstamps & Hnext & Hlt & Hlast)].
    exists news. cbv zeta. split_all; auto.
  - intro He'. injection He' as <-. exists (set_nextFunding e (Some (now + cfg_interval e)%Z)), [].
    split_all; auto.
    apply enqueued_same; reflexivity.
Qed.

End FundingSchedule.

(* ------------------------------------------------------------------ *)
(** ** Engine: events that only keep books *)
(* ------------------------------------------------------------------ *)

Section Bookkeeping.

Context {S X : Type}.
Variable strategy : Strategy S.
Variable execution : ExecutionModel X.

Local Abbreviation Engine := (Engine S X).

Lemma opt_string_eqb_refl (k : option string) : opt_string_eqb k k = true.
Proof. destruct k as [s | ]; simpl; [ apply String.eqb_refl | reflexivity ]. Qed.

Lemma orders_get_set (m : list (option string * (Event * string))) (k : option string)
    (v : Event * string) :
  orders_get (orders_set m k v) k = Some v.
Proof.
  induction m as [ | [k' v'] m IH]; simpl.
  - rewrite opt_string_eqb_refl. reflexivity.
  - destruct (opt_string_eqb k' k) eqn:E; simpl.
    + rewrite opt_string_eqb_refl. reflexivity.
    + rewrite E. exact IH.
Qed.

(** X20.  Order-submitted, order-cancelled and margin-update events only keep
    books.  Processing one never fails, enqueues nothing, appends exactly
    one entry to the trade log, stamped with the event's time and type,
    and leaves cash, position, prices and the liquidation flag alone.  A
    submitted order is tracked under its id with status [submitted]; a
    cancellation marks a tracked order [cancelled], keeping what was
    stored, and leaves the tracked orders untouched when the id is
    unknown; a margin update overwrites the margin figures with the fields
    the event carries and keeps the others. *)
Theorem bookkeeping_events_leave_the_account_alone (e : Engine) (event : Event) :
  type_ event = "order_submitted"%string
  \/ type_ event = "order_cancelled"%string
  \/ type_ event = "margin_update"%string ->
  let p := payload event in
  exists e' entry,
    processEvent strategy execution e event = Ok e'
    /\ cash (state e') = cash (state e)
    /\ position (state e') = position (state e)
    /\ lastPrice (state e') = lastPrice (state e)
    /\ s_markPrice (state e') = s_markPrice (state e)
    /\ liquidated (state e') = liquidated (state e)
    /\ _eventQueue e' = _eventQueue e
    /\ seq_counter e' = seq_counter e
    /\ _tradeLogs e' = _tradeLogs e ++ [entry]
    /\ log_kind entry = (timestamp event, type_ event)
    /\ (type_ event = "order_submitted"%string ->
        orders_get (_orders e') (order_id p) = Some (event, "submitted"%string)
        /\ s_margin (state e') = s_margin (state e)
        /\ maintenanceMargin (state e') = maintenanceMargin (state e))
    /\ (type_ event = "order_cancelled"%string ->
        match orders_get (_orders e) (order_id p) with
        | Some (stored, _) =>
            orders_get (_orders e') (order_id p) = Some (stored, "cancelled"%string)
        | None => _orders e' = _orders e
        end
        /\ s_margin (state e') = s_margin (state e)
        /\ maintenanceMargin (state e') = maintenanceMargin (state e))
    /\ (type_ event = "margin_update"%string ->
        _orders e' = _orders e
        /\ s_margin (state e')
           = nullish (initial_margin p) (nullish (margin p)
                                           (nullish (amount p) (s_margin (state e))))
        /\ maintenanceMargin (state e')
           = nullish (maintenance_margin p) (maintenanceMargin (state e))).
Proof.
  intros Htype p. unfold processEvent.
  destruct Htype as [Ht | [Ht | Ht]]; rewrite Ht; simpl String.eqb; cbn [orb]; cbv iota.
  - unfold handleOrderSubmitted. cbn [bind].
    eexists. eexists. split; [ reflexivity | ].
    cbn [updateEquity state push_equity set_state with_equity push_log set_orders
           cash position lastPrice s_markPrice liquidated _eventQueue seq_counter
           _tradeLogs _orders s_margin maintenanceMargin].
    split_all; try reflexivity; try (intro H; discriminate H);
      try (cbn [log_kind]; rewrite Ht; reflexivity).
    intros _. split_all; try reflexivity. apply orders_get_set.
  - unfold handleOrderCancelled. cbn [bind].
    eexists. eexists. split; [ reflexivity | ].
    destruct (orders_get (_orders e) (order_id (payload event))) as [[stored st] | ] eqn:Eg;
      cbn [updateEquity state push_equity set_state with_equity push_log set_orders
             cash position lastPrice s_markPrice liquidated _eventQueue seq_counter
             _tradeLogs _orders s_margin maintenanceMargin];
      (split_all; try reflexivity; try (intro H; discriminate H);
      try (cbn [log_kind]; rewrite Ht; reflexivity));
      intros _; subst p; rewrite ?Eg; split_all; try reflexivity.
    apply orders_get_set.
  - unfold handleMarginUpdate. cbn [bind].
    eexists. eexists. split; [ reflexivity | ].
    cbn [updateEquity state push_equity set_state with_equity with_margins push_log
           set_orders cash position lastPrice s_markPrice liquidated _eventQueue
           seq_counter _tradeLogs _orders s_margin maintenanceMargin].
    split_all; try reflexivity; try (intro H; discriminate H);
      try (cbn [log_kind]; rewrite Ht; reflexivity).
    intros _. split_all; reflexivity.
Qed.

End Bookkeeping.

(* ------------------------------------------------------------------ *)
(** ** Engine: worked examples of the scheduler's properties *)
(* ------------------------------------------------------------------ *)

Lemma sequence_numbers_are_unique_witness :
  exists e',
    run_engine noopStrategy createDefaultExecution 40 freshEngine perpetualParams
      steadyEvents = Done e'
    /\ List.length (dispatched e' ++ _eventQueue e') = 16%nat
    /\ NoDup (map event_key (dispatched e' ++ _eventQueue e')).
Proof.
  set (o := run_engine noopStrategy createDefaultExecution 40 freshEngine perpetualParams
              steadyEvents).
  assert (Hlength :
            List.length (dispatched (outcome_value freshEngine o)
                         ++ _eventQueue (outcome_value freshEngine o)) = 16%nat)
    by (vm_compute; reflexivity).
  assert (Hdone : exists e', o = Done e') by (vm_compute; eexists; reflexivity).
  destruct Hdone as [e' He']. rewrite He' in Hlength. cbn [outcome_value] in Hlength.
  exists e'. split; [ exact He' | ]. split; [ exact Hlength | ].
  exact (proj2 (sequence_numbers_are_unique noopStrategy createDefaultExecution 40
                  freshEngine perpetualParams steadyEvents e' (or_introl He'))).
Defined.

Lemma equity_series_tracks_dispatch_witness :
  exists e',
    run_engine noopStrategy createDefaultExecution 40 freshEngine perpetualParams
      steadyEvents = Done e'
    /\ List.length (_equitySeries e') = 16%nat
    /\ map eq_timestamp (_equitySeries e') = map timestamp (dispatched e')
    /\ Forall entry_balanced (_equitySeries e').
Proof.
  set (o := run_engine noopStrategy createDefaultExecution 40 freshEngine perpetualParams
              steadyEvents).
  assert (Hlength : List.length (_equitySeries (outcome_value freshEngine o)) = 16%nat)
    by (vm_compute; reflexivity).
  assert (Hdone : exists e', o = Done e') by (vm_compute; eexists; reflexivity).
  destruct Hdone as [e' He']. rewrite He' in Hlength. cbn [outcome_value] in Hlength.
  exists e'. split; [ exact He' | ]. split; [ exact Hlength | ].
  destruct (equity_series_tracks_dispatch noopStrategy createDefaultExecution 40
              freshEngine perpetualParams steadyEvents e' (or_introl He'))
    as (Hts & Hbal & _).
  split; [ exact Hts | exact Hbal ].
Defined.

(** The margin call of [marginCallEvents] ends the run with a tick still
    pending. *)
Lemma run_stops_early_only_on_liquidation_witness :
  exists e' before ev,
    run_engine noopStrategy createDefaultExecution 40 freshEngine perpetualParams
      marginCallEvents = Done e'
    /\ List.length (_eventQueue e') = 2%nat
    /\ liquidated (state e') = true
    /\ dispatched e' = before ++ [ev]
    /\ type_ ev = "liquidated"%string.
Proof.
  set (o := run_engine noopStrategy createDefaultExecution 40 freshEngine perpetualParams
              marginCallEvents).
  assert (Hlength : List.length (_eventQueue (outcome_value freshEngine o)) = 2%nat)
    by (vm_compute; reflexivity).
  assert (Hdone : exists e', o = Done e') by (vm_compute; eexists; reflexivity).
  destruct Hdone as [e' He']. rewrite He' in Hlength. cbn [outcome_value] in Hlength.
  destruct (run_stops_early_only_on_liquidation noopStrategy createDefaultExecution 40
              freshEngine perpetualParams marginCallEvents e' He')
    as [(_ & Hempty & _) | (Hflag & before & ev & Hd & Hty & _)].
  - rewrite Hempty in Hlength. discriminate Hlength.
  - exists e', before, ev. auto.
Defined.

Lemma unknown_event_type_aborts_run_witness :
  exists ev,
    normalizeEvent (heartbeatEvent 5) = Ok ev
    /\ run_loop noopStrategy createDefaultExecution 1
         (mkEngine 1%Z 1%Z initialState [with_seq ev 0] 1%Z [] [] [] (Some spotParams)
            None tt 0%Z [])
       = Failed "Unknown event type: heartbeat".
Proof.
  destruct (unknown_event_type_aborts_run noopStrategy createDefaultExecution
              (mkEngine 1%Z 1%Z initialState
                 [with_seq (mkEvent "heartbeat" 5 90 None emptyPayload) 0] 1%Z [] [] []
                 (Some spotParams) None tt 0%Z [])
              (heartbeatEvent 5) "heartbeat" 5 0 eq_refl ltac:(discriminate) eq_refl eq_refl)
    as [ev (Hn & _ & _ & Hrun)].
  exists ev. split; [ exact Hn | ].
  injection Hn as <-.
  exact (Hrun 0%Z [] eq_refl).
Defined.

(** Cash 100 plus the unrealized loss of 90 is below the maintenance
    margin of 40.5: a liquidation follows the margin update, with a penalty
    of 1% of the notional of 810. *)
Lemma risk_check_schedules_liquidation_witness :
  exists e' update liq,
    queueRiskEvents engineUnderMargin 3 "market" = Ok e'
    /\ enqueued engineUnderMargin e' [update; liq]
    /\ type_ update = "margin_update"%string
    /\ type_ liq = "liquidated"%string
    /\ penalty (payload liq) = Num ((9 * 90) * (1 # 100)).
Proof.
  destruct (risk_check_schedules_liquidation engineUnderMargin 3 "market" 100 9
              eq_refl eq_refl eq_refl)
    as (e' & update & Hrun & _ & (Hty & _) & Hbreach & _).
  destruct Hbreach as [liq [Hen (Hty' & _ & Hp)]].
  { split; [ discriminate | reflexivity ]. }
  exists e', update, liq.
  simpl in Hty, Hty', Hp. injection Hty as Hty. injection Hty' as Hty'.
  split_all; auto. rewrite <- Hp. vm_compute. reflexivity.
Defined.

(** With boundaries every 10 ms from 11 on, a market event at time 35
    enqueues the payments of 11, 21 and 31 and moves the boundary to 41. *)
Lemma funding_payments_follow_the_schedule_witness :
  exists e' news,
    queueFundingEventsUntil engineUnderMargin 35 = Ok e'
    /\ enqueued engineUnderMargin e' news
    /\ map timestamp news = [11; 21; 31]%Z
    /\ _nextFundingTimestamp e' = Some 41%Z.
Proof.
  destruct (funding_payments_follow_the_schedule engineUnderMargin 35)
    as (e' & news & Hrun & _ & Hen & _ & Hsched).
  - discriminate.
  - reflexivity.
  - reflexivity.
  - exists e', news. split; [ exact Hrun | ]. split; [ exact Hen | ].
    cbn [_nextFundingTimestamp engineUnderMargin] in Hsched. cbv zeta in Hsched.
    destruct Hsched as (Hstamps & Hnext & Hlt & Hlast).
    change (cfg_interval engineUnderMargin) with 10%Z in *.
    assert (Hk : List.length news = 3%nat).
    { destruct Hlast as [-> | Hlast]; [ simpl in Hlt; lia | lia ]. }
    rewrite Hk in Hstamps, Hnext. split; [ exact Hstamps | exact Hnext ].
Defined.

Lemma bookkeeping_events_leave_the_account_alone_witness :
  let cancel :=
    mkEvent "order_cancelled" 6 50 (Some 9%Z)
      (raw_payload (orderEvent "order_cancelled" 6 "x9" None Undefined Undefined)) in
  exists e',
    processEvent noopStrategy createDefaultExecution engineUnderMargin cancel = Ok e'
    /\ cash (state e') = Num 100
    /\ _orders e' = []
    /\ List.length (_tradeLogs e') = 1%nat.
Proof.
  intro cancel.
  destruct (bookkeeping_events_leave_the_account_alone noopStrategy createDefaultExecution
              engineUnderMargin cancel (or_intror (or_introl eq_refl)))
    as (e' & entry & Hrun & Hcash & _ & _ & _ & _ & _ & _ & Hlog & _ & _ & Hcancel & _).
  exists e'. split; [ exact Hrun | ].
  destruct (Hcancel eq_refl) as (Horders & _).
  split_all; [ exact Hcash | exact Horders | rewrite Hlog; reflexivity ].
Defined.

(* ------------------------------------------------------------------ *)
(** ** Engine: how a run is set up *)
(* ------------------------------------------------------------------ *)

Lemma requiredString_ok (name : string) (field : option string) :
  requiredString name field = Ok tt <-> exists s, field = Some s /\ is_blank s = false.
Proof.
  unfold requiredString. destruct field as [s | ].
  - destruct (is_blank s) eqn:E; split.
    + discriminate.
    + intros [s' [H1 H2]]. injection H1 as <-. congruence.
    + intros _. eauto.
    + reflexivity.
  - split; [ discriminate | intros [s [H _]]; discriminate ].
Qed.

Lemma validateRunParams_ok (params : Params) :
  validateRunParams params = Ok tt <-> valid_params params.
Proof.
  unfold validateRunParams, valid_params. split.
  - intro H. bind_inv H. bind_inv H. bind_inv H.
    destruct e, e0, e1. apply requiredString_ok in He, He0, He1.
    destruct (negb (existsb _ _)) eqn:Ev; [ discriminate | ].
    apply negb_false_iff, existsb_exists in Ev. destruct Ev as [m [Hin Hm]].
    destruct (market_type params) as [m' | ] eqn:Emt; [ | discriminate ].
    simpl in Hm. apply String.eqb_eq in Hm. subst m'.
    destruct (start_date params) as [a | ]; [ | discriminate ].
    destruct (end_date params) as [b | ]; [ | discriminate ].
    unfold getTime in H.
    destruct (Z.abs a <=? 8640000000000000)%Z eqn:Ea; [ | discriminate ].
    destruct (Z.abs b <=? 8640000000000000)%Z eqn:Eb; [ | discriminate ].
    apply Z.leb_le in Ea, Eb.
    destruct (b <? a)%Z eqn:Eab; [ discriminate | ]. apply Z.ltb_ge in Eab.
    split_all; eauto.
    { exists a, b. split_all; auto; lia. }
    destruct (initial_cash params) as [ | | | c]; try exact I; try discriminate.
    destruct (Qlt_bool c 0) eqn:Ec; [ discriminate | ].
    apply Qlt_bool_false in Ec. exact Ec.
  - intros (H1 & H2 & [m [Hm Hin]] & [a [b (Ha & Hb & Hab & Hmax)]] & Hcash).
    apply (requiredString_ok "symbol") in H1. apply (requiredString_ok "timeframe") in H2.
    rewrite H1, H2. cbn [bind].
    assert (H3 : requiredString "market_type" (market_type params) = Ok tt).
    { apply requiredString_ok. exists m. split; [ exact Hm | ].
      simpl in Hin. destruct Hin as [<- | [<- | [<- | []]]]; reflexivity. }
    rewrite H3. cbn [bind].
    assert (Hv : existsb (fun m0 => opt_string_eqb (market_type params) (Some m0))
                   VALID_MARKET_TYPES = true).
    { apply existsb_exists. exists m. split; [ exact Hin | ].
      rewrite Hm. simpl. apply String.eqb_refl. }
    rewrite Hv, Ha, Hb. simpl negb. cbv iota.
    unfold getTime.
    assert (Ea : (Z.abs a <=? 8640000000000000)%Z = true) by (apply Z.leb_le; lia).
    assert (Eb : (Z.abs b <=? 8640000000000000)%Z = true) by (apply Z.leb_le; lia).
    assert (Eab : (b <? a)%Z = false) by (apply Z.ltb_ge; lia).
    rewrite Ea, Eb, Eab.
    destruct (initial_cash params) as [ | | | c]; try reflexivity; try contradiction.
    assert (Ec : Qlt_bool c 0 = false) by (apply Qlt_bool_false; exact Hcash).
    rewrite Ec. reflexivity.
Qed.

Lemma Forall2_comes_from_normalizeAll (loaded : list RawEvent) :
  forall events, normalizeAll loaded = Ok events -> Forall2 comes_from loaded events.
Proof.
  induction loaded as [ | raw rest IH]; simpl; intros events H.
  - injection H as <-. constructor.
  - bind_inv H. bind_inv H. injection H as <-.
    constructor; [ | apply IH; exact He0 ].
    unfold normalizeEvent in He.
    destruct (raw_type raw) as [type | ] eqn:Etype; [ | discriminate ].
    destruct (String.eqb type EmptyString); [ discriminate | ].
    destruct (raw_timestamp raw) as [ts | ] eqn:Ets; [ | discriminate ].
    injection He as <-. unfold comes_from. simpl. auto.
Qed.

Section Setup.

Context {S X : Type}.
Variable strategy : Strategy S.
Variable execution : ExecutionModel X.

Local Abbreviation Engine := (Engine S X).

(** X21.  [run] checks its parameters first.  The check passes exactly for
    parameters with a non-blank symbol and timeframe, a market type among
    spot, futures and perpetual, a start date not after the end date, and an
    initial cash that is absent or a number that is not negative; when it
    fails, [run] fails with the check's message, whatever the engine held
    and whatever the adapter would have loaded. *)
Theorem run_rejects_invalid_parameters (params : Params) :
  (validateRunParams params = Ok tt <-> valid_params params)
  /\ forall message,
      validateRunParams params = Throw message ->
      forall (fuel : nat) (e : Engine) (loaded : list RawEvent),
        run strategy execution fuel e params loaded = Failed message.
Proof.
  split; [ apply validateRunParams_ok | ].
  intros message H fuel e loaded.
  unfold run, run_engine, prepare. rewrite H. reflexivity.
Qed.

(** X22.  A run starts from a clean slate.  When the set-up of [run] succeeds,
    the logs, the equity series, the tracked orders and the funding
    boundary left by an earlier run are gone, the account is the initial
    one with cash and equity set to the initial cash when one is given, the
    random source is re-seeded when a seed is given and carries on where it
    was otherwise, and the queue holds exactly the loaded events, numbered
    0, 1, ... in the order they were loaded. *)
Theorem run_starts_from_a_clean_slate (e e0 : Engine) (params : Params)
    (loaded : list RawEvent) :
  prepare e params loaded = Ok e0 ->
  valid_params params
  /\ state e0 = openingState params
  /\ _tradeLogs e0 = [] /\ _equitySeries e0 = [] /\ _orders e0 = []
  /\ _nextFundingTimestamp e0 = None
  /\ _currentConfig e0 = Some params
  /\ match random_seed params with
     | Some seed => randomSeed e0 = seed /\ _rng e0 = Rng.createSeededRng seed
     | None => randomSeed e0 = randomSeed e /\ _rng e0 = _rng e
     end
  /\ strategyState e0 = strategyState e
  /\ executionState e0 = executionState e
  /\ exists news,
      Forall2 comes_from loaded news
      /\ Permutation (_eventQueue e0) news
      /\ map _seq news = seqs_from 0 (List.length loaded)
      /\ seq_counter e0 = Z.of_nat (List.length loaded).
Proof.
  unfold prepare. intro H. bind_inv H. destruct e1.
  apply validateRunParams_ok in He1.
  bind_inv H. rename e1 into events.
  unfold loadData in He0. bind_inv He0.
  pose proof (Forall2_comes_from_normalizeAll _ _ He0) as Hloaded.
  pose proof H as Hexact. apply enqueueEvents_exact in Hexact.
  destruct Hexact as [news ((Hperm & Hseq & Hcount) & Hfrom & _)].
  unfold enqueueEvents in H. bind_inv H. injection H as <-.
  assert (Hlen : List.length news = List.length loaded).
  { rewrite <- (Forall2_length Hfrom), length_map. symmetry. exact (Forall2_length Hloaded). }
  assert (Hnews : Forall2 comes_from loaded news).
  { clear - Hloaded Hfrom. revert news Hfrom.
    induction Hloaded as [ | raw ev l l' Hc _ IH]; intros news Hfrom.
    - inversion Hfrom. constructor.
    - simpl in Hfrom. inversion Hfrom as [ | ? ev' ? news' Hc' Hrest]; subst.
      constructor; [ | apply IH; exact Hrest ].
      unfold comes_from in *. simpl in Hc'.
      destruct Hc as (A & B & C). destruct Hc' as (A' & B' & C').
      split_all; congruence. }
  split; [ exact He1 | ].
  unfold openingState.
  destruct (initial_cash params); destruct (random_seed params);
    cbn -[Rng.createSeededRng seqs_from] in *;
    (split_all; auto; exists news; rewrite <- Hlen; split_all; auto).
Qed.

End Setup.

(** The parameters of the unit tests pass the check; a symbol of white
    space only, a no-break space among it, and an end date beyond the range
    of [Date] make [run] fail before anything is loaded. *)
Lemma run_rejects_invalid_parameters_witness :
  valid_params spotParams
  /\ run noopStrategy createDefaultExecution 5 freshEngine blankSymbolParams closeoutEvents
     = Failed "symbol is required and must be a non-empty string"
  /\ run noopStrategy createDefaultExecution 5 freshEngine lateEndParams closeoutEvents
     = Failed "start_date and end_date must be valid date values".
Proof.
  split_all.
  - apply (proj1 (run_rejects_invalid_parameters noopStrategy createDefaultExecution
                    spotParams)).
    reflexivity.
  - apply (proj2 (run_rejects_invalid_parameters noopStrategy createDefaultExecution
                    blankSymbolParams)).
    reflexivity.
  - apply (proj2 (run_rejects_invalid_parameters noopStrategy createDefaultExecution
                    lateEndParams)).
    reflexivity.
Defined.

(** X23.  The seeded random source.  The closure starts from a 32-bit value that
    is not zero, whatever the seed, and every number it returns lies in
    [0, 1). *)
Theorem seeded_draws_stay_in_the_unit_interval (seed : Z) (n : nat) :
  (0 <= Rng.hashSeed seed < 4294967296)%Z
  /\ (0 < Rng.createSeededRng seed < 4294967296)%Z
  /\ List.length (draws (Rng.createSeededRng seed) n) = n
  /\ Forall (fun r => 0 <= r < 1) (draws (Rng.createSeededRng seed) n).
Proof.
  assert (Hh : (0 <= Rng.hashSeed seed < 4294967296)%Z) by apply u32_range.
  split; [ exact Hh | ]. split.
  - unfold Rng.createSeededRng. cbv zeta.
    destruct (Rng.hashSeed seed =? 0)%Z eqn:E; [ lia | ].
    apply Z.eqb_neq in E. lia.
  - generalize (Rng.createSeededRng seed) as state.
    induction n as [ | n IH]; intro state; cbn [draws].
    + split; [ reflexivity | constructor ].
    + pose proof (random_range state) as [Hr _].
      destruct (Rng.random state) as [r state']. cbn [fst] in Hr.
      destruct (IH state') as [Hlen Hall].
      split; [ simpl; rewrite Hlen; reflexivity | constructor; assumption ].
Qed.

(** [String(seed)], which [hashSeed] hashes: decimal digits up to 21 of
    them, the shortest numeral that reads back as the seed, and exponent
    notation beyond. *)
Example seed_strings :
  string_of_Z (-42) = "-42"%string
  /\ string_of_Z (2 ^ 64) = "18446744073709552000"%string
  /\ string_of_Z (10 ^ 21) = "1e+21"%string
  /\ string_of_Z (2 ^ 70) = "1.1805916207174113e+21"%string.
Proof. split_all; vm_compute; reflexivity. Qed.

(** Set-up on an engine that an earlier run left with a funding boundary
    and a position. *)
Lemma run_starts_from_a_clean_slate_witness :
  exists e0,
    prepare engineUnderMargin spotParams closeoutEvents = Ok e0
    /\ cash (state e0) = Num 1000
    /\ position (state e0) = {| qty := Num 0; avgPrice := Num 0 |}
    /\ _nextFundingTimestamp e0 = None
    /\ seq_counter e0 = 4%Z.
Proof.
  destruct (prepare engineUnderMargin spotParams closeoutEvents) as [e0 | m] eqn:E;
    [ | vm_compute in E; discriminate E ].
  exists e0. split; [ reflexivity | ].
  destruct (run_starts_from_a_clean_slate _ _ _ _ E)
    as (_ & Hstate & _ & _ & _ & Hnext & _ & _ & _ & _ & news & _ & _ & _ & Hcount).
  rewrite Hstate. split_all; [ reflexivity | reflexivity | exact Hnext | exact Hcount ].
Defined.

(* ------------------------------------------------------------------ *)
(** ** EMA-cross strategy *)
(* ------------------------------------------------------------------ *)



Lemma gt_zero_numeric (v : jsval) :
  Js.gt v (Num 0) = true -> exists q, Js.toNumber v = Some q /\ 0 < q.
Proof.
  unfold Js.gt, Js.lt, Js.cmp. simpl.
  destruct (Js.toNumber v) as [q | ]; [ | discriminate ].
  intro H. apply Qlt_bool_iff in H. eauto.
Qed.

Lemma lt_zero_numeric (v : jsval) :
  Js.lt v (Num 0) = true -> exists q, Js.toNumber v = Some q /\ q < 0.
Proof.
  unfold Js.lt, Js.cmp. simpl.
  destruct (Js.toNumber v) as [q | ]; [ | discriminate ].
  intro H. apply Qlt_bool_iff in H. eauto.
Qed.

(** What [_stopTakeSignal] returns when it returns a signal. *)
Lemma stopTakeSignal_cases (this : Ema.EmaCrossStrategy) (px : Q) (now : Z)
    (ctx : Context) (raw : RawEvent) :
  Ema._stopTakeSignal this px now ctx = Some raw ->
  exists q sideName why,
    Js.toNumber (qty (position (ctx_state ctx))) = Some q
    /\ ~ q == 0
    /\ sideName = (if Qlt_bool 0 q then "sell" else "buy")%string
    /\ (why = "stop_loss"%string \/ why = "take_profit"%string)
    /\ raw = Ema.signal now sideName (Num (Qabs q)) why px.
Proof.
  unfold Ema._stopTakeSignal. cbv zeta.
  destruct (strict_eq _ _ || negb _); [ discriminate | ].
  destruct (Js.gt (qty (position (ctx_state ctx))) (Num 0)) eqn:Egt.
  - apply gt_zero_numeric in Egt. destruct Egt as [q [Hq Hpos]].
    destruct (_ && _ || _ && _) eqn:Ehit; [ | discriminate ].
    intro H. injection H as <-.
    match goal with
    | |- context [if ?c then "stop_loss"%string else _] =>
        exists q, "sell"%string, (if c then "stop_loss" else "take_profit")%string
    end.
    split_all.
    + exact Hq.
    + lra.
    + apply Qlt_bool_iff in Hpos. rewrite Hpos. reflexivity.
    + destruct (_ && _); auto.
    + unfold Js.abs, Js.lift1. rewrite Hq. reflexivity.
  - destruct (Js.lt (qty (position (ctx_state ctx))) (Num 0)) eqn:Elt; [ | discriminate ].
    apply lt_zero_numeric in Elt. destruct Elt as [q [Hq Hneg]].
    destruct (_ && _ || _ && _) eqn:Ehit; [ | discriminate ].
    intro H. injection H as <-.
    match goal with
    | |- context [if ?c then "stop_loss"%string else _] =>
        exists q, "buy"%string, (if c then "stop_loss" else "take_profit")%string
    end.
    split_all.
    + exact Hq.
    + lra.
    + assert (E : Qlt_bool 0 q = false) by (apply Qlt_bool_false; lra).
      rewrite E. reflexivity.
    + destruct (_ && _); auto.
    + unfold Js.abs, Js.lift1. rewrite Hq. reflexivity.
Qed.

(** One call of [onEvent], case by case: nothing is returned and the last
    direction is kept; or a stop or take-profit signal for the whole
    position is returned and the object is untouched; or a crossing signal
    in a direction other than the last is returned and remembered. *)
Lemma onEvent_cases (this : Ema.EmaCrossStrategy) (event : Event) (ctx : Context) :
  let this' := fst (Ema.onEvent this event ctx) in
  let out := snd (Ema.onEvent this event ctx) in
  same_settings this this'
  /\ ((out = [] /\ Ema.lastSignal this' = Ema.lastSignal this)
      \/ (exists px q sideName why,
             0 < px
             /\ Js.toNumber (qty (position (ctx_state ctx))) = Some q
             /\ ~ q == 0
             /\ sideName = (if Qlt_bool 0 q then "sell" else "buy")%string
             /\ (why = "stop_loss"%string \/ why = "take_profit"%string)
             /\ out = [Ema.signal (timestamp event) sideName (Num (Qabs q)) why px]
             /\ this' = this)
      \/ (exists (px size : Q) (up : bool),
             0 < px /\ 0 < size
             /\ out = [Ema.signal (timestamp event) (if up then "buy" else "sell") (Num size)
                         (if up then "ema_cross_up" else "ema_cross_down") px]
             /\ Ema.lastSignal this' = (if up then 1 else -1)%Z
             /\ Ema.lastSignal this' <> Ema.lastSignal this)).
Proof.
  cbv zeta. unfold Ema.onEvent.
  assert (Hsame : same_settings this this) by (unfold same_settings; auto).
  destruct (negb _ && negb _); [ simpl; auto | ].
  destruct (Ema.Number_ _) as [ | | | px] eqn:Epx; try (simpl; auto; fail).
  destruct (Qle_bool px 0) eqn:Epos; [ simpl; auto | ].
  apply Qle_bool_false in Epos.
  destruct (Ema._stopTakeSignal this px (timestamp event) ctx) as [stopTake | ] eqn:Est.
  { apply stopTakeSignal_cases in Est.
    destruct Est as (q & sideName & why & Hq & Hnz & Hside & Hwhy & ->).
    simpl. split; [ exact Hsame | ]. right. left.
    exists px, q, sideName, why. auto 10. }
  cbv zeta. cbn [Ema.prevFast Ema.prevSlow Ema.set_averages Ema.lastSignal].
  assert (Hset : forall a b c d, same_settings this (Ema.set_averages this a b c d))
    by (intros; unfold same_settings; auto).
  destruct (Ema.fast this) as [pf | ]; [ | simpl; auto ].
  destruct (Ema.slow this) as [ps | ]; [ | simpl; auto ].
  destruct (negb _ && negb _) eqn:Ecross; [ simpl; auto | ].
  match goal with
  | |- context [Z.eqb ?d (Ema.lastSignal this)] =>
      destruct (Z.eqb d (Ema.lastSignal this)) eqn:Edir
  end; [ simpl; auto | ].
  apply Z.eqb_neq in Edir.
  destruct (Ema._sizeForPrice _ px ctx) as [ | | | size] eqn:Esize; try (simpl; auto; fail).
  destruct (negb _ || Ema.le _ _) eqn:Ebad; [ simpl; auto | ].
  apply orb_false_iff in Ebad. destruct Ebad as [_ Ebad].
  unfold Ema.le, Js.cmp in Ebad. simpl in Ebad. apply Qle_bool_false in Ebad.
  simpl. split; [ unfold same_settings; auto | ].
  right. right.
  match goal with
  | |- context [if ?c then "buy"%string else _] => exists px, size, c
  end.
  split_all; auto.
Qed.

Lemma signal_tradable (now : Z) (sideName why : string) (q px : Q) :
  sideName = "buy"%string \/ sideName = "sell"%string ->
  0 < q -> 0 < px ->
  tradable_signal now (Ema.signal now sideName (Num q) why px).
Proof.
  intros Hside Hq Hpx. unfold tradable_signal, Ema.signal. simpl.
  split_all; auto.
  - destruct Hside as [-> | ->]; auto.
  - eauto.
  - eauto.
Qed.

(** X25.  Whatever [onEvent] returns the default execution model can act on: the
    strategy answers candles and ticks only, returns at most one event, and
    that event is a signal at the event's timestamp with side [buy] or
    [sell], a positive quantity and the event's positive price.  The call
    never changes the strategy's settings. *)
Theorem ema_signals_are_tradable (this : Ema.EmaCrossStrategy) (event : Event)
    (ctx : Context) :
  let '(this', out) := Ema.onEvent this event ctx in
  same_settings this this'
  /\ (out = []
      \/ exists raw,
          out = [raw]
          /\ tradable_signal (timestamp event) raw
          /\ (type_ event = "candle"%string \/ type_ event = "tick"%string)).
Proof.
  pose proof (onEvent_cases this event ctx) as H. cbv zeta in H.
  assert (Htype : snd (Ema.onEvent this event ctx) <> [] ->
                  type_ event = "candle"%string \/ type_ event = "tick"%string).
  { unfold Ema.onEvent.
    destruct (String.eqb (type_ event) "candle") eqn:Ec;
      [ intros _; left; apply String.eqb_eq; exact Ec | ].
    destruct (String.eqb (type_ event) "tick") eqn:Et;
      [ intros _; right; apply String.eqb_eq; exact Et | ].
    simpl. intro Hne. contradiction. }
  destruct (Ema.onEvent this event ctx) as [this' out]. simpl in H, Htype.
  destruct H as [Hsame Hcases]. split; [ exact Hsame | ].
  destruct Hcases as [[Hout _] | [Hstop | Hcross]].
  - left. exact Hout.
  - right. destruct Hstop as (px & q & sideName & why & Hpx & Hq & Hnz & Hside & _ & Hout & _).
    eexists. split; [ exact Hout | ]. split.
    + apply signal_tradable; [ | apply Qabs_positive; exact Hnz | exact Hpx ].
      rewrite Hside. destruct (Qlt_bool 0 q); auto.
    + apply Htype. rewrite Hout. discriminate.
  - right. destruct Hcross as (px & size & up & Hpx & Hsize & Hout & _).
    eexists. split; [ exact Hout | ]. split.
    + apply signal_tradable; [ | exact Hsize | exact Hpx ].
      destruct up; auto.
    + apply Htype. rewrite Hout. discriminate.
Qed.

Lemma last_cons_default {A : Type} (l : list A) (d x : A) : last (d :: l) x = last l d.
Proof.
  revert d x. induction l as [ | z l IH]; intros d x; [ reflexivity | ].
  change (last (d :: z :: l) x) with (last (z :: l) x).
  rewrite (IH z x), (IH z d). reflexivity.
Qed.

(** X26.  Crossing signals alternate.  Over any sequence of events, however the
    account moves in between, no crossing signal repeats the direction of
    the crossing signal before it (or the direction remembered at the
    start), although the averages may cross the same way again after a
    signal was suppressed; stop and take-profit signals do not count, and
    the object remembers the direction of the last crossing signal. *)
Theorem ema_cross_signals_alternate (this : Ema.EmaCrossStrategy)
    (inputs : list (Event * Context)) :
  let '(this', out) := feed this inputs in
  let dirs := map direction_of (filter is_cross out) in
  alternating (Ema.lastSignal this) dirs
  /\ Ema.lastSignal this' = last dirs (Ema.lastSignal this).
Proof.
  revert this. induction inputs as [ | [event ctx] rest IH]; intro this.
  - simpl. auto.
  - cbn [feed].
    pose proof (onEvent_cases this event ctx) as H. cbv zeta in H.
    destruct (Ema.onEvent this event ctx) as [this1 out1]. simpl in H.
    specialize (IH this1).
    destruct (feed this1 rest) as [this2 outs]. cbv zeta in IH.
    destruct IH as [IHalt IHlast].
    destruct H as [_ [[Hout Hlast] | [Hstop | Hcross]]]; cbv zeta.
    + subst out1. simpl. rewrite <- Hlast. auto.
    + destruct Hstop as (px & q & sideName & why & _ & _ & _ & _ & Hwhy & Hout & Hthis).
      subst out1 this1.
      assert (Hno : is_cross
                      (Ema.signal (timestamp event) sideName (Num (Qabs q)) why px) = false).
      { unfold is_cross. simpl. destruct Hwhy as [-> | ->]; reflexivity. }
      cbn [app filter]. rewrite Hno. auto.
    + destruct Hcross as (px & size & up & _ & _ & Hout & Hdir & Hne).
      subst out1.
      assert (Hyes : is_cross
                       (Ema.signal (timestamp event) (if up then "buy" else "sell")
                          (Num size) (if up then "ema_cross_up" else "ema_cross_down") px)
                     = true).
      { unfold is_cross. destruct up; reflexivity. }
      assert (Hd : direction_of
                     (Ema.signal (timestamp event) (if up then "buy" else "sell")
                        (Num size) (if up then "ema_cross_up" else "ema_cross_down") px)
                   = Ema.lastSignal this1).
      { rewrite Hdir. unfold direction_of. destruct up; reflexivity. }
      cbn [app filter]. rewrite Hyes. cbn [map alternating]. rewrite Hd.
      split; [ split; [ exact Hne | exact IHalt ] | ].
      rewrite IHlast. symmetry. apply last_cons_default.
Qed.

(** X27.  A stop-loss closes the whole position.  With a positive stop-loss
    fraction, on a candle or tick whose price has fallen to the average
    price less the fraction (long position) or risen to the average price
    plus the fraction (short position), [onEvent] returns exactly one
    signal, on the closing side, for the absolute position quantity, with
    reason [stop_loss], and leaves the moving averages as they were. *)
Theorem stop_loss_closes_the_position (this : Ema.EmaCrossStrategy) (event : Event)
    (ctx : Context) (px q a sl : Q) :
  type_ event = "candle"%string \/ type_ event = "tick"%string ->
  Ema.Number_ (nullish (close (payload event)) (price (payload event))) = Num px ->
  0 < px ->
  qty (position (ctx_state ctx)) = Num q ->
  avgPrice (position (ctx_state ctx)) = Num a ->
  Ema.stopLossPct this = Num sl ->
  0 < sl ->
  (0 < q /\ px <= a * (1 - sl)) \/ (q < 0 /\ a * (1 + sl) <= px) ->
  Ema.onEvent this event ctx
  = (this,
     [ Ema.signal (timestamp event) (if Qlt_bool 0 q then "sell" else "buy")
         (Num (Qabs q)) "stop_loss" px ]).
Proof.
  intros Htype Hpx Hpos Hq Ha Hsl Hslpos Hhit.
  unfold Ema.onEvent.
  assert (Ht : negb (String.eqb (type_ event) "candle")
               && negb (String.eqb (type_ event) "tick") = false).
  { destruct Htype as [-> | ->]; reflexivity. }
  rewrite Ht, Hpx.
  assert (Ep : Qle_bool px 0 = false) by (apply Qle_bool_false; exact Hpos).
  rewrite Ep.
  unfold Ema._stopTakeSignal. cbv zeta. rewrite Hq, Ha, Hsl.
  assert (Enz : strict_eq (Num q) (Num 0) = false).
  { simpl. apply Qeq_bool_false. destruct Hhit as [[H _] | [H _]]; lra. }
  rewrite Enz. simpl isFinite. simpl negb. cbn [orb].
  assert (Egs : Js.gt (Num sl) (Num 0) = true).
  { unfold Js.gt, Js.lt, Js.cmp. simpl. apply Qlt_bool_iff. exact Hslpos. }
  rewrite Egs. cbn [andb].
  unfold Js.gt, Js.lt, Ema.le, Js.cmp, Js.mul, Js.sub, Js.add, Js.abs, Js.lift1, Js.lift2.
  cbn [Js.toNumber].
  destruct Hhit as [[Hlong Hprice] | [Hshort Hprice]].
  - assert (E1 : Qlt_bool 0 q = true) by (apply Qlt_bool_iff; exact Hlong).
    assert (E2 : Qle_bool px (a * (1 - sl)) = true) by (apply Qle_bool_iff; exact Hprice).
    rewrite E1, E2. reflexivity.
  - assert (E1 : Qlt_bool 0 q = false) by (apply Qlt_bool_false; lra).
    assert (E1' : Qlt_bool q 0 = true) by (apply Qlt_bool_iff; exact Hshort).
    assert (E2 : Qle_bool (a * (1 + sl)) px = true) by (apply Qle_bool_iff; exact Hprice).
    rewrite E1, E1', E2. reflexivity.
Qed.

Lemma stop_loss_closes_the_position_witness :
  let this :=
    Ema.mkEmaCrossStrategy 9 21 (Num (5 # 100)) (Num 0)
      (Ema.mkSizing (Some "fixed_amount"%string) (Num 1) Undefined Undefined)
      (Some 100) (Some 100) None None 1 in
  let ctx :=
    mkContext
      {| cash := Num 0; equity := Num 0; s_margin := Num 0; maintenanceMargin := Num 0;
         unrealizedPnl := Num 0; lastPrice := Num 100; s_markPrice := Num 100;
         position := {| qty := Num (-2); avgPrice := Num 100 |}; liquidated := false |}
      None 7 (Num 100) in
  let event := mkEvent "candle" 7 10 (Some 3%Z) (raw_payload (candleEvent 7 106)) in
  Ema.onEvent this event ctx
  = (this, [ Ema.signal 7 "buy" (Num (Qabs (-2))) "stop_loss" 106 ]).
Proof.
  intros this ctx event.
  apply (stop_loss_closes_the_position this event ctx 106 (-2) 100 (5 # 100)).
  - left. reflexivity.
  - reflexivity.
  - reflexivity.
  - reflexivity.
  - reflexivity.
  - reflexivity.
  - reflexivity.
  - right. split; [ reflexivity | discriminate ].
Defined.

(* ------------------------------------------------------------------ *)
(** ** Candle aggregation *)
(* ------------------------------------------------------------------ *)

Lemma bucketStart_spec (windowMs : Z) (tick : Candles.NormalTick) :
  (0 < windowMs)%Z ->
  let start := (Candles.nt_timestamp tick / windowMs * windowMs)%Z in
  Candles.bucketStart (Numeric windowMs) tick = Some start
  /\ (start mod windowMs = 0)%Z
  /\ (start <= Candles.nt_timestamp tick < start + windowMs)%Z.
Proof.
  intro Hw. cbv zeta. split; [ reflexivity | ]. split.
  - apply Z.mod_mul. lia.
  - pose proof (Z.mul_div_le (Candles.nt_timestamp tick) windowMs Hw).
    pose proof (Z.mul_succ_div_gt (Candles.nt_timestamp tick) windowMs Hw).
    lia.
Qed.

Lemma bucketStart_monotone (windowMs : Z) (a b : Candles.NormalTick) :
  (0 < windowMs)%Z ->
  (Candles.nt_timestamp a <= Candles.nt_timestamp b)%Z ->
  (Candles.nt_timestamp a / windowMs * windowMs
   <= Candles.nt_timestamp b / windowMs * windowMs)%Z.
Proof.
  intros Hw Hab.
  apply Z.mul_le_mono_nonneg_r; [ lia | ].
  apply Z.div_le_mono; assumption.
Qed.

Lemma openCandle_ok (windowMs : Z) (tick : Candles.NormalTick) :
  (0 < windowMs)%Z -> 0 <= Candles.nt_volume tick ->
  candle_ok windowMs (Candles.openCandle (Candles.bucketStart (Numeric windowMs) tick) tick)
  /\ covers windowMs
       (Candles.openCandle (Candles.bucketStart (Numeric windowMs) tick) tick) tick.
Proof.
  intros Hw Hv. destruct (bucketStart_spec windowMs tick Hw) as (_ & Hmod & Hin).
  unfold candle_ok, covers. simpl. split_all; auto; try lra; eauto.
Qed.

Lemma extend_ok (windowMs : Z) (c : Candles.Candle) (tick : Candles.NormalTick) :
  candle_ok windowMs c -> 0 <= Candles.nt_volume tick ->
  candle_ok windowMs (Candles.extend c tick)
  /\ Candles.cd_low (Candles.extend c tick) <= Candles.cd_low c
  /\ Candles.cd_high c <= Candles.cd_high (Candles.extend c tick)
  /\ Candles.cd_low (Candles.extend c tick) <= Candles.nt_price tick
     <= Candles.cd_high (Candles.extend c tick).
Proof.
  intros ([Ho1 Ho2] & [Hc1 Hc2] & Hv & Hm) Hvt.
  unfold candle_ok. simpl.
  pose proof (Qmax_js_spec (Candles.cd_high c) (Candles.nt_price tick)) as Hmax.
  pose proof (Qmin_js_spec (Candles.cd_low c) (Candles.nt_price tick)) as Hmin.
  pose proof (Q.le_max_l (Candles.cd_high c) (Candles.nt_price tick)).
  pose proof (Q.le_max_r (Candles.cd_high c) (Candles.nt_price tick)).
  pose proof (Q.le_min_l (Candles.cd_low c) (Candles.nt_price tick)).
  pose proof (Q.le_min_r (Candles.cd_low c) (Candles.nt_price tick)).
  rewrite Hmax, Hmin. split_all; auto; lra.
Qed.

Lemma candle_ok_start (windowMs : Z) (c : Candles.Candle) :
  candle_ok windowMs c -> Candles.cd_timestamp c = Some (window_start c).
Proof.
  intros (_ & _ & _ & [start [E _]]). unfold window_start. rewrite E. reflexivity.
Qed.

Lemma sorted_below_last (l : list Z) (z : Z) :
  StronglySorted Z.lt (l ++ [z]) -> forall x, In x (l ++ [z]) -> (x <= z)%Z.
Proof.
  induction l as [ | y l IH]; simpl; intros Hs x Hx.
  - destruct Hx as [<- | []]. lia.
  - inversion Hs as [ | ? ? Hs' Hall]; subst.
    destruct Hx as [-> | Hx]; [ | apply IH; assumption ].
    rewrite Forall_forall in Hall.
    assert (x < z)%Z by (apply Hall; apply in_or_app; right; left; reflexivity).
    lia.
Qed.

(** The loop for a window that is a number. *)
Lemma aggregate_loop_spec (windowMs : Z) :
  (0 < windowMs)%Z ->
  forall ticks candles current,
    Forall (fun t => 0 <= Candles.nt_volume t) ticks ->
    StronglySorted (fun a b => (Candles.nt_timestamp a <= Candles.nt_timestamp b)%Z) ticks ->
    Forall (candle_ok windowMs) candles ->
    (forall c, current = Some c ->
               candle_ok windowMs c
               /\ Forall (fun t => (window_start c
                                    <= Candles.nt_timestamp t / windowMs * windowMs)%Z)
                         ticks) ->
    (current = None -> candles = []) ->
    StronglySorted Z.lt
      (map window_start
         (candles ++ match current with Some c => [c] | None => [] end)) ->
    let out := Candles.aggregate_loop (Numeric windowMs) ticks candles current in
    Forall (candle_ok windowMs) out
    /\ StronglySorted Z.lt (map window_start out)
    /\ incl candles out
    /\ (forall c, current = Some c -> exists c', In c' out /\ widens c c')
    /\ (forall t, In t ticks -> exists c', In c' out /\ covers windowMs c' t)
    /\ total_volume out
       == total_volume candles
          + match current with Some c => Candles.cd_volume c | None => 0 end
          + tick_volume ticks
    /\ (List.length out
        <= List.length candles + match current with Some _ => 1 | None => 0 end
           + List.length ticks)%nat.
Proof.
  intro Hw.
  assert (Hvol_app : forall a b, total_volume (a ++ b) == total_volume a + total_volume b).
  { intros a b. induction a as [ | x a IHa]; simpl; [ lra | rewrite IHa; lra ]. }
  assert (Hwiden : forall c c' t,
             widens c c' -> covers windowMs c t -> covers windowMs c' t).
  { intros c c' t (W1 & W2 & W3) ([start [E Hin]] & Hp).
    split; [ exists start; rewrite W1; auto | lra ]. }
  induction ticks as [ | tick rest IH]; intros candles current Hvols Hsorted Hok Hcur Hnone Hts;
    cbv zeta.
  - simpl. split_all.
    + apply Forall_app. split; [ exact Hok | ].
      destruct current as [c | ]; [ | constructor ].
      constructor; [ apply (Hcur c eq_refl) | constructor ].
    + exact Hts.
    + apply incl_appl, incl_refl.
    + intros c ->. exists c. split; [ apply in_or_app; right; left; reflexivity | ].
      unfold widens. split_all; [ reflexivity | lra | lra ].
    + intros t [].
    + rewrite Hvol_app. destruct current; simpl; lra.
    + rewrite length_app. destruct current; simpl; lia.
  - inversion Hvols as [ | ? ? Hv Hvols']; subst.
    inversion Hsorted as [ | ? ? Hsorted' Hhead]; subst.
    destruct (openCandle_ok windowMs tick Hw Hv) as [Hopen_ok Hopen_covers].
    destruct (bucketStart_spec windowMs tick Hw) as (Hbucket & _ & Hrange).
    set (start := (Candles.nt_timestamp tick / windowMs * windowMs)%Z) in *.
    assert (Hopen_start :
              window_start (Candles.openCandle
                              (Candles.bucketStart (Numeric windowMs) tick) tick) = start).
    { reflexivity. }
    assert (Hrest_after :
              Forall (fun t => (start <= Candles.nt_timestamp t / windowMs * windowMs)%Z) rest).
    { eapply Forall_impl; [ | exact Hhead ].
      intros t Ht. apply bucketStart_monotone; assumption. }
    cbn [Candles.aggregate_loop].
    destruct current as [c | ].
    + destruct (Hcur c eq_refl) as [Hc_ok Hc_before].
      inversion Hc_before as [ | ? ? Hc_tick Hc_rest]; subst.
      fold start in Hc_tick.
      rewrite (candle_ok_start _ _ Hc_ok), Hbucket. cbn [Candles.same_bucket].
      destruct (window_start c =? start)%Z eqn:Eb.
      * apply Z.eqb_eq in Eb.
        destruct (extend_ok windowMs c tick Hc_ok Hv) as (He_ok & He_low & He_high & He_in).
        specialize (IH candles (Some (Candles.extend c tick)) Hvols' Hsorted' Hok).
        destruct IH as (I1 & I2 & I3 & I4 & I5 & I6 & I7).
        { intros c0 E. injection E as <-. split; [ exact He_ok | exact Hc_rest ]. }
        { discriminate. }
        { rewrite map_app in Hts |- *. exact Hts. }
        split_all; auto.
        -- intros c0 E. injection E as <-.
           destruct (I4 _ eq_refl) as [c' [Hin (W1 & W2 & W3)]].
           exists c'. split; [ exact Hin | ].
           unfold widens. simpl in W1. split_all; [ exact W1 | lra | lra ].
        -- intros t [<- | Hin]; [ | apply I5; exact Hin ].
           destruct (I4 _ eq_refl) as [c' [Hin' Hw']].
           exists c'. split; [ exact Hin' | ].
           apply (Hwiden _ _ _ Hw').
           split; [ | exact He_in ].
           exists start. cbn [Candles.extend Candles.cd_timestamp].
           rewrite (candle_ok_start _ _ Hc_ok), Eb. split; [ reflexivity | exact Hrange ].
        -- rewrite I6. simpl. lra.
        -- simpl in I7 |- *. lia.
      * apply Z.eqb_neq in Eb.
        specialize (IH (candles ++ [c])
                      (Some (Candles.openCandle (Some start) tick))
                      Hvols' Hsorted').
        destruct IH as (I1 & I2 & I3 & I4 & I5 & I6 & I7).
        { apply Forall_app. split; [ exact Hok | constructor; [ exact Hc_ok | constructor ] ]. }
        { intros c0 E. injection E as <-. rewrite <- Hbucket.
          split; [ exact Hopen_ok | exact Hrest_after ]. }
        { discriminate. }
        { rewrite map_app. simpl.
          apply StronglySorted_snoc; [ exact Hts | ].
          rewrite Forall_forall. intros x Hx.
          assert (Hxc : (x <= window_start c)%Z).
          { rewrite map_app in Hts, Hx. simpl in Hts, Hx.
            apply (sorted_below_last _ _ Hts). exact Hx. }
          change (x < start)%Z. lia. }
        split_all; auto.
        -- intros x Hx. apply I3. apply in_or_app. left. exact Hx.
        -- intros c0 E. injection E as <-.
           exists c. split; [ apply I3; apply in_or_app; right; left; reflexivity | ].
           unfold widens. split_all; [ reflexivity | lra | lra ].
        -- intros t [<- | Hin]; [ | apply I5; exact Hin ].
           destruct (I4 _ eq_refl) as [c' [Hin' Hw']].
           exists c'. split; [ exact Hin' | ].
           apply (Hwiden _ _ _ Hw'). rewrite <- Hbucket. exact Hopen_covers.
        -- rewrite I6, Hvol_app. simpl. lra.
        -- rewrite length_app in I7. simpl in I7 |- *. lia.
    + rewrite Hbucket.
      specialize (IH candles (Some (Candles.openCandle (Some start) tick))
                    Hvols' Hsorted' Hok).
      destruct IH as (I1 & I2 & I3 & I4 & I5 & I6 & I7).
      { intros c0 E. injection E as <-. rewrite <- Hbucket.
        split; [ exact Hopen_ok | exact Hrest_after ]. }
      { discriminate. }
      { rewrite (Hnone eq_refl). simpl. constructor; constructor. }
      split_all; auto.
      -- intros c0 E. discriminate E.
      -- intros t [<- | Hin]; [ | apply I5; exact Hin ].
         destruct (I4 _ eq_refl) as [c' [Hin' Hw']].
         exists c'. split; [ exact Hin' | ].
         apply (Hwiden _ _ _ Hw'). rewrite <- Hbucket. exact Hopen_covers.
      -- rewrite I6. simpl. lra.
      -- simpl in I7 |- *. lia.
Qed.

(** The loop for a window that is no number: every bucket is NaN, which
    equals no timestamp, so every tick opens a candle of its own. *)
Lemma aggregate_loop_inherited (name : string) :
  forall ticks candles current,
    Candles.aggregate_loop (Inherited name) ticks candles current
    = candles ++ match current with Some c => [c] | None => [] end
      ++ map (Candles.openCandle None) ticks.
Proof.
  induction ticks as [ | tick rest IH]; intros candles current; simpl.
  - rewrite app_nil_r. reflexivity.
  - destruct current as [c | ].
    + assert (E : Candles.same_bucket (Candles.cd_timestamp c) None = false)
        by (destruct (Candles.cd_timestamp c); reflexivity).
      rewrite E, IH, <- app_assoc. reflexivity.
    + rewrite IH. reflexivity.
Qed.

Lemma normalizeTicks_spec (ticks : list Candles.Tick) :
  forall normalized,
    Candles.normalizeTicks ticks = Ok normalized -> Forall2 normal_of ticks normalized.
Proof.
  induction ticks as [ | tick rest IH]; simpl; intros normalized H.
  - injection H as <-. constructor.
  - bind_inv H. bind_inv H. injection H as <-.
    constructor; [ | apply IH; exact He0 ].
    unfold Candles.normalizeTick in He.
    destruct (Candles.tk_price tick) as [ | | | px] eqn:Ep; try discriminate.
    bind_inv He. rename e1 into ts.
    unfold Candles.normalizeTimestamp in He1.
    destruct (Candles.tk_timestamp tick) as [ts' | ] eqn:Et; [ | discriminate ].
    injection He1 as ->.
    unfold normal_of. rewrite Et, Ep.
    destruct (Candles.tk_volume tick) as [ | | | v] eqn:Ev; try discriminate.
    + destruct (Qlt_bool 0 0) eqn:E0; [ discriminate | ].
      injection He as <-. simpl. split_all; auto; lra.
    + destruct (Qlt_bool 0 0) eqn:E0; [ discriminate | ].
      injection He as <-. simpl. split_all; auto; lra.
    + destruct (Qlt_bool v 0) eqn:E0; [ discriminate | ].
      apply Qlt_bool_false in E0.
      injection He as <-. simpl. split_all; auto.
Qed.

Lemma tick_volume_perm (a b : list Candles.NormalTick) :
  Permutation a b -> tick_volume a == tick_volume b.
Proof.
  induction 1; simpl; lra.
Qed.

Lemma timeframe_positive (timeframe : string) (windowMs : Z) :
  Candles.TIMEFRAME_TO_MS timeframe = Some windowMs -> (0 < windowMs)%Z.
Proof.
  unfold Candles.TIMEFRAME_TO_MS.
  repeat (destruct (String.eqb timeframe _);
          [ intro H; injection H as <-; reflexivity | ]).
  discriminate.
Qed.

Lemma starts_sorted (windowMs : Z) (candles : list Candles.Candle) :
  Forall (candle_ok windowMs) candles ->
  StronglySorted Z.lt (map window_start candles) ->
  StronglySorted starts_before (map Candles.cd_timestamp candles).
Proof.
  induction candles as [ | c candles IH]; simpl; intros Hok Hs.
  - constructor.
  - inversion Hok as [ | ? ? Hc Hok']; subst.
    inversion Hs as [ | ? ? Hs' Hall]; subst.
    constructor; [ apply IH; assumption | ].
    rewrite Forall_forall in *. intros x Hx.
    apply in_map_iff in Hx. destruct Hx as [c' [<- Hc']].
    rewrite (candle_ok_start _ _ Hc), (candle_ok_start _ _ (Hok' c' Hc')). simpl.
    apply Hall. apply in_map. exact Hc'.
Qed.

Lemma total_volume_opened (bucket : option Z) (ticks : list Candles.NormalTick) :
  total_volume (map (Candles.openCandle bucket) ticks) == tick_volume ticks.
Proof.
  induction ticks as [ | t ticks IH]; simpl; [ lra | rewrite IH; lra ].
Qed.

(** What [aggregateCandlesFromTicks] returns, in terms of the loop's
    specification: for a timeframe of the table, and for a timeframe that
    names an inherited member. *)
Lemma aggregate_spec (ticks : list Candles.Tick) (timeframe : string)
    (candles : list Candles.Candle) :
  Candles.aggregateCandlesFromTicks ticks timeframe = Ok candles ->
  exists normalized sorted,
    Forall2 normal_of ticks normalized
    /\ Permutation normalized sorted
    /\ StronglySorted
         (fun a b => (Candles.nt_timestamp a <= Candles.nt_timestamp b)%Z) sorted
    /\ total_volume candles == tick_volume normalized
    /\ (List.length candles <= List.length ticks)%nat
    /\ match Candles.TIMEFRAME_TO_MS timeframe with
       | Some windowMs =>
           Forall (candle_ok windowMs) candles
           /\ StronglySorted starts_before (map Candles.cd_timestamp candles)
           /\ forall t, In t normalized -> exists c, In c candles /\ covers windowMs c t
       | None =>
           In timeframe Object_prototype
           /\ candles = map (Candles.openCandle None) sorted
       end.
Proof.
  unfold Candles.aggregateCandlesFromTicks, getProperty.
  destruct (Candles.TIMEFRAME_TO_MS timeframe) as [windowMs | ] eqn:Ew.
  - pose proof (timeframe_positive _ _ Ew) as Hw.
    intro H. bind_inv H. rename e into normalized. injection H as <-.
    pose proof (normalizeTicks_spec _ _ He) as Hnorm.
    set (sorted := js_sort (fun a b => (Candles.nt_timestamp a - Candles.nt_timestamp b <? 0)%Z)
                     normalized).
    assert (Hperm : Permutation normalized sorted) by apply stable_sort_perm.
    assert (Hvols : Forall (fun t => 0 <= Candles.nt_volume t) normalized).
    { clear - Hnorm. induction Hnorm as [ | tick t l l' (_ & _ & Hv & _) _ IH];
        constructor; assumption. }
    assert (Hsorted :
              StronglySorted
                (fun a b => (Candles.nt_timestamp a <= Candles.nt_timestamp b)%Z) sorted).
    { apply stable_sort_sorted.
      - intros a b c H1 H2. lia.
      - intros a b H. apply Z.ltb_lt in H. lia.
      - intros a b H. apply Z.ltb_ge in H. lia. }
    destruct (aggregate_loop_spec windowMs Hw sorted [] None)
      as (I1 & I2 & _ & _ & I5 & I6 & I7).
    + apply (Permutation_Forall Hperm). exact Hvols.
    + exact Hsorted.
    + constructor.
    + discriminate.
    + reflexivity.
    + constructor.
    + exists normalized, sorted. split_all; auto.
      * rewrite I6. simpl. rewrite (tick_volume_perm _ _ Hperm). lra.
      * simpl in I7. rewrite <- (Permutation_length Hperm) in I7.
        rewrite <- (Forall2_length Hnorm) in I7. lia.
      * apply (starts_sorted windowMs); assumption.
      * intros t Hin. apply I5. apply (Permutation_in _ Hperm). exact Hin.
  - destruct (existsb (String.eqb timeframe) Object_prototype) eqn:Ein; [ | discriminate ].
    apply existsb_exists in Ein. destruct Ein as [name [Hin Hname]].
    apply String.eqb_eq in Hname. subst name.
    intro H. bind_inv H. rename e into normalized. injection H as <-.
    pose proof (normalizeTicks_spec _ _ He) as Hnorm.
    set (sorted := js_sort (fun a b => (Candles.nt_timestamp a - Candles.nt_timestamp b <? 0)%Z)
                     normalized).
    assert (Hperm : Permutation normalized sorted) by apply stable_sort_perm.
    assert (Hsorted :
              StronglySorted
                (fun a b => (Candles.nt_timestamp a <= Candles.nt_timestamp b)%Z) sorted).
    { apply stable_sort_sorted.
      - intros a b c H1 H2. lia.
      - intros a b H. apply Z.ltb_lt in H. lia.
      - intros a b H. apply Z.ltb_ge in H. lia. }
    rewrite aggregate_loop_inherited. simpl.
    exists normalized, sorted. split_all; auto.
    + rewrite total_volume_opened. symmetry. apply tick_volume_perm. exact Hperm.
    + rewrite length_map, <- (Permutation_length Hperm), <- (Forall2_length Hnorm). lia.
Qed.

(** X28.  The candles built from a list of ticks.  For a timeframe of the table:
    every candle starts at a multiple of the window, its open and close lie
    between its low and its high and its volume is not negative; the
    candles are in strictly ascending time order, so there is at most one
    per window; and every tick, wherever it stood in the input, falls in the
    window of one of the candles, whose low and high include its price.
    The only other timeframes that are not refused are the names of the
    members the table inherits from [Object.prototype]: for these the ticks
    are not grouped at all, each tick, in time order, gives a candle of its
    own, stamped NaN. *)
Theorem candles_bracket_their_ticks (ticks : list Candles.Tick) (timeframe : string)
    (candles : list Candles.Candle) :
  Candles.aggregateCandlesFromTicks ticks timeframe = Ok candles ->
  exists normalized,
    Forall2 normal_of ticks normalized
    /\ match Candles.TIMEFRAME_TO_MS timeframe with
       | Some windowMs =>
           Forall (candle_ok windowMs) candles
           /\ StronglySorted starts_before (map Candles.cd_timestamp candles)
           /\ forall t, In t normalized -> exists c, In c candles /\ covers windowMs c t
       | None =>
           In timeframe Object_prototype
           /\ exists sorted,
               Permutation normalized sorted
               /\ StronglySorted
                    (fun a b => (Candles.nt_timestamp a <= Candles.nt_timestamp b)%Z)
                    sorted
               /\ candles = map (Candles.openCandle None) sorted
       end.
Proof.
  intro H. apply aggregate_spec in H.
  destruct H as (normalized & sorted & H1 & H2 & H3 & _ & _ & H6).
  exists normalized. split; [ exact H1 | ].
  destruct (Candles.TIMEFRAME_TO_MS timeframe); [ exact H6 | ].
  destruct H6 as [Hin ->]. split; [ exact Hin | ]. exists sorted. auto.
Qed.


(** The ticks of the repository's unit test: three in the first minute
    of 2024 and one in the second. *)
Lemma candles_bracket_their_ticks_witness :
  let ticks :=
    [ Candles.mkTick (Some 1704067201000%Z) (Num 100) (Num 1);
      Candles.mkTick (Some 1704067220000%Z) (Num 105) (Num 2);
      Candles.mkTick (Some 1704067250000%Z) (Num 99) (Num 1);
      Candles.mkTick (Some 1704067261000%Z) (Num 103) (Num 3) ] in
  exists candles,
    Candles.aggregateCandlesFromTicks ticks "1m" = Ok candles
    /\ map (fun c => (Candles.cd_timestamp c, Candles.cd_open c, Candles.cd_high c,
                      Candles.cd_low c, Candles.cd_close c)) candles
       = [ (Some 1704067200000%Z, 100, 105, 99, 99);
           (Some 1704067260000%Z, 103, 103, 103, 103) ]
    /\ Forall (candle_ok 60000) candles.
Proof.
  cbv zeta. eexists. split; [ vm_compute; reflexivity | ].
  split; [ reflexivity | ].
  match goal with
  | |- Forall _ ?cs =>
      destruct (candles_bracket_their_ticks
                  [ Candles.mkTick (Some 1704067201000%Z) (Num 100) (Num 1);
                    Candles.mkTick (Some 1704067220000%Z) (Num 105) (Num 2);
                    Candles.mkTick (Some 1704067250000%Z) (Num 99) (Num 1);
                    Candles.mkTick (Some 1704067261000%Z) (Num 103) (Num 3) ] "1m" cs)
        as (normalized & _ & Hcase)
  end.
  - vm_compute. reflexivity.
  - destruct Hcase as (Hok & _). exact Hok.
Defined.

(** Two ticks of one minute under the timeframe [toString]: the read
    from the table yields a function, every window start is NaN, and the
    ticks are not merged. *)
Example candles_for_an_inherited_timeframe :
  Candles.aggregateCandlesFromTicks
    [ Candles.mkTick (Some 20000%Z) (Num 105) (Num 2);
      Candles.mkTick (Some 1000%Z) (Num 100) (Num 1) ] "toString"
  = Ok [ Candles.mkCandle None 100 100 100 100 1;
         Candles.mkCandle None 105 105 105 105 2 ]
  /\ Candles.aggregateCandlesFromTicks [] "2m" = Throw "Unsupported timeframe: 2m".
Proof. split; reflexivity. Qed.


(* ------------------------------------------------------------------ *)
(** ** Drawdown curve *)
(* ------------------------------------------------------------------ *)



